(** * A verified model of the local htmx shim ([app/static/vendor/htmx.js])

    The script binds every element carrying an [hx-get] attribute: it
    registers the element's triggers once, and on each firing collects
    form parameters, resolves a swap target, fetches, swaps the response
    (or an error block) into the target, and finally clears the loading
    indicator and dispatches [htmx:afterRequest].

    The development is a shallow embedding.  JavaScript strings are lists
    of UTF-16 code units, the page is a forest of nodes with identities,
    and the effectful functions live in a state-and-exception monad over
    the page.  What the browser supplies and the script merely calls
    (selector matching, the HTML fragment parser, the form-urlencoded
    serializer) is an interface, [Browser]. *)

From Stdlib Require Import List NArith ZArith Bool Ascii String Lia.
From Stdlib Require Import SpecFloat.
Import ListNotations.

Set Implicit Arguments.
Open Scope string_scope.
Open Scope list_scope.

(* ================================================================= *)
(** ** JavaScript strings *)

Module JsString.

(** A string value is a sequence of 16-bit code units. *)
Definition jsstring := list N.

(** Literals are written as Rocq strings and read byte by byte. *)
Definition js (s : string) : jsstring :=
  map N_of_ascii (list_ascii_of_string s).

Fixpoint streq (a b : jsstring) : bool :=
  match a, b with
  | [], [] => true
  | x :: a', y :: b' => N.eqb x y && streq a' b'
  | _, _ => false
  end.

(** Truthiness of a string: only the empty string is falsy. *)
Definition truthy (s : jsstring) : bool :=
  match s with [] => false | _ :: _ => true end.

(** [String.prototype.startsWith] *)
Fixpoint startsWith (pat s : jsstring) : bool :=
  match pat, s with
  | [], _ => true
  | p :: pat', c :: s' => N.eqb p c && startsWith pat' s'
  | _ :: _, [] => false
  end.

(** [String.prototype.includes] *)
Fixpoint includes (pat s : jsstring) : bool :=
  startsWith pat s ||
  match s with
  | [] => false
  | _ :: s' => includes pat s'
  end.

(** [String.prototype.replace] with a string pattern: the first
    occurrence only.  The replacement is taken as it is; the script
    passes the empty string. *)
Fixpoint replace (pat rep s : jsstring) : jsstring :=
  if startsWith pat s then rep ++ skipn (List.length pat) s
  else match s with
       | [] => []
       | c :: s' => c :: replace pat rep s'
       end.

(** [String.prototype.split] with a one-unit separator.  The result
    always has at least one segment. *)
Fixpoint split (sep : N) (s : jsstring) : list jsstring :=
  match s with
  | [] => [[]]
  | c :: s' =>
      if N.eqb c sep then [] :: split sep s'
      else match split sep s' with
           | [] => [[c]]
           | seg :: segs => (c :: seg) :: segs
           end
  end.

(** WhiteSpace and LineTerminator code points, the ones [trim] strips. *)
Definition isSpace (c : N) : bool :=
  (N.leb 9 c && N.leb c 13) || N.eqb c 32 || N.eqb c 160
  || N.eqb c 5760 || (N.leb 8192 c && N.leb c 8202)
  || N.eqb c 8232 || N.eqb c 8233 || N.eqb c 8239 || N.eqb c 8287
  || N.eqb c 12288 || N.eqb c 65279.

Fixpoint trimStart (s : jsstring) : jsstring :=
  match s with
  | [] => []
  | c :: s' => if isSpace c then trimStart s' else s
  end.

Fixpoint trimEnd (s : jsstring) : jsstring :=
  match s with
  | [] => []
  | c :: s' =>
      match trimEnd s' with
      | [] => if isSpace c then [] else [c]
      | t => c :: t
      end
  end.

(** [String.prototype.trim] *)
Definition trim (s : jsstring) : jsstring := trimEnd (trimStart s).

Definition isDigit (c : N) : bool := N.leb 48 c && N.leb c 57.

(** [a || b] where [a] is a string or [null]: [b] unless [a] is a
    non-empty string. *)
Definition orElse (a : option jsstring) (b : jsstring) : jsstring :=
  match a with
  | Some (c :: s) => c :: s
  | _ => b
  end.

End JsString.
Import JsString.

Coercion js : string >-> jsstring.

(* ================================================================= *)
(** ** Numbers *)

Module JsNumber.

(** A Number is an IEEE 754 binary64 value. *)
Definition number := spec_float.

Definition prec : Z := 53.
Definition emax : Z := 1024.

Definition mul (x y : number) : number := SFmul prec emax x y.

Definition ofN (n : N) : number :=
  binary_normalize prec emax (Z.of_N n) 0 false.

(** The digits of a numeral, most significant first, as a natural
    number. *)
Definition digitsValue (ds : jsstring) : N :=
  fold_left (fun acc c => (10 * acc + (c - 48))%N) ds 0%N.

Fixpoint span (f : N -> bool) (s : jsstring) : jsstring * jsstring :=
  match s with
  | [] => ([], [])
  | c :: s' =>
      if f c then let (a, b) := span f s' in (c :: a, b)
      else ([], s)
  end.

(** The quotient [m / 10^k] rounded to the nearest binary64 value, ties
    to even. *)
Definition decimal (m : N) (k : nat) : number :=
  match m with
  | N0 => S754_zero false
  | Npos p =>
      SFdiv prec emax (S754_finite false p 0)
                      (S754_finite false (Z.to_pos (10 ^ Z.of_nat k)) 0)
  end.

(** [Number(s)] on the numerals the interval pattern lets through:
    decimal digits with an optional fraction.  The script applies
    [Number] to nothing else; any other string is sent to NaN here. *)
Definition Number (s : jsstring) : number :=
  let (ip, rest) := span isDigit s in
  match ip, rest with
  | _ :: _, [] => decimal (digitsValue ip) 0
  | _ :: _, 46 :: fp =>
      if forallb isDigit fp && truthy fp
      then decimal (digitsValue (ip ++ fp)) (List.length fp)
      else S754_nan
  | _, _ => S754_nan
  end%N.

End JsNumber.
Import JsNumber.

(* ================================================================= *)
(** ** Triggers *)

Module Triggers.

Definition DEFAULT_TRIGGER : jsstring := "click".

(** [parseTriggers(value)]; [None] is the [null] that [getAttribute]
    returns for a missing attribute. *)
Definition parseTriggers (value : option jsstring) : list jsstring :=
  match value with
  | None | Some [] => [DEFAULT_TRIGGER]
  | Some value => filter truthy (map trim (split 44 value))
  end.

(** The pattern [/^(\d+(?:\.\d+)?)(ms|s)?$/]: the two capture groups of
    a match, the second one absent when no unit was written. *)
Definition matchInterval (raw : jsstring)
  : option (jsstring * option jsstring) :=
  let (ip, rest) := span isDigit raw in
  if truthy ip then
    let (num, rest) :=
      if startsWith "." rest then
        let (fp, rest') := span isDigit (skipn 1 rest) in
        if truthy fp then (ip ++ js "." ++ fp, rest') else (ip, rest)
      else (ip, rest) in
    if streq rest "" then Some (num, None)
    else if streq rest "ms" then Some (num, Some (js "ms"))
    else if streq rest "s" then Some (num, Some (js "s"))
    else None
  else None.

(** What [setupElement] arranges for one trigger: a deferred or
    immediate request for ["load"], a repeating timer, or an event
    listener. *)
Inductive registration :=
| OnLoad
| Every (interval : number)
| OnEvent (name : jsstring).

(** The body of the [forEach] in [setupElement], as the registration it
    decides on; [None] is the early [return] on a failed match. *)
Definition registrationOf (trigger : jsstring) : option registration :=
  if streq trigger "load" then Some OnLoad
  else if startsWith "every " trigger then
    let raw := trim (replace "every " "" trigger) in
    match matchInterval raw with
    | None => None
    | Some (m1, m2) =>
        let value := Number m1 in
        let unit := orElse m2 "ms" in
        let interval :=
          if streq unit "s" then mul value (ofN 1000) else value in
        Some (Every interval)
    end
  else Some (OnEvent trigger).

Definition optlist {A} (o : option A) : list A :=
  match o with Some a => [a] | None => [] end.

(** Everything [setupElement] registers for an [hx-trigger] value, in
    source order. *)
Definition registrations (value : option jsstring) : list registration :=
  flat_map (fun t => optlist (registrationOf t)) (parseTriggers value).

(** The shape [<number><unit?>] written out without the pattern
    matcher: a numeral is one or two non-empty runs of digits around a
    dot, a unit is [ms], [s] or nothing. *)
Definition allDigits (s : jsstring) : bool := truthy s && forallb isDigit s.

Definition isNumeral (s : jsstring) : bool :=
  match split 46 s with
  | [ip] => allDigits ip
  | [ip; fp] => allDigits ip && allDigits fp
  | _ => false
  end.

Definition isUnit (s : jsstring) : bool :=
  streq s "" || streq s "ms" || streq s "s".

Definition stripSuffix (suffix s : jsstring) : option jsstring :=
  let n := List.length s - List.length suffix in
  if streq (skipn n s) suffix then Some (firstn n s) else None.

Definition isIntervalToken (raw : jsstring) : bool :=
  isNumeral raw
  || match stripSuffix "ms" raw with Some n => isNumeral n | None => false end
  || match stripSuffix "s" raw with Some n => isNumeral n | None => false end.

End Triggers.
Import Triggers.

(* ================================================================= *)
(** ** The page: a forest of nodes with identities *)

Module Dom.

Abbreviation nid := N.

(** An element's attributes and the properties the script reads:
    [disabled], [type], [checked] and [value] are the live IDL
    properties, not the attributes of the same name. *)
Record element := {
  tagName : jsstring;
  attributes : list (jsstring * jsstring);
  classList : list jsstring;
  disabled : bool;
  type : option jsstring;
  checked : bool;
  value : option jsstring
}.

(** Trees of elements and text.  Parsed markup has no identities yet
    ([tree unit]); nodes of the page carry one per element. *)
#[warnings="-register-all"] Inductive tree (I : Type) :=
| Text (data : jsstring)
| Elem (id : I) (e : element) (children : list (tree I)).

Arguments Text {I} data.

Abbreviation markup := (tree unit).
Abbreviation node := (tree nid).

Fixpoint subtrees (n : node) : list node :=
  match n with
  | Text _ => []
  | Elem _ _ ks => n :: flat_map subtrees ks
  end.

(** Identities of the elements of a forest, in tree order. *)
Definition idOf (n : node) : list nid :=
  match n with Text _ => [] | Elem i _ _ => [i] end.

Definition ids (f : list node) : list nid :=
  flat_map idOf (flat_map subtrees f).

Definition isElem (i : nid) (n : node) : bool :=
  match n with Text _ => false | Elem j _ _ => N.eqb j i end.

Definition lookupNode (i : nid) (f : list node) : option node :=
  find (isElem i) (flat_map subtrees f).

Definition lookup (i : nid) (f : list node) : option element :=
  match lookupNode i f with
  | Some (Elem _ e _) => Some e
  | _ => None
  end.

Definition childrenOf (n : node) : list node :=
  match n with Text _ => [] | Elem _ _ ks => ks end.

(** The element whose child list holds [i]. *)
Definition parentOf (i : nid) (f : list node) : option node :=
  find (fun n => existsb (isElem i) (childrenOf n)) (flat_map subtrees f).

(** The ancestors of the element [t] in a tree, from its parent
    outwards; [None] when the tree does not hold [t]. *)
Fixpoint ancestorsIn (t : nid) (n : node) : option (list nid) :=
  match n with
  | Text _ => None
  | Elem i _ ks =>
      if N.eqb i t then Some []
      else
        match
          (fix among (l : list node) : option (list nid) :=
             match l with
             | [] => None
             | k :: l' =>
                 match ancestorsIn t k with
                 | Some a => Some a
                 | None => among l'
                 end
             end) ks
        with
        | Some a => Some (a ++ [i])
        | None => None
        end
  end.

Fixpoint ancestorsAmong (t : nid) (f : list node) : option (list nid) :=
  match f with
  | [] => None
  | k :: f' =>
      match ancestorsIn t k with
      | Some a => Some a
      | None => ancestorsAmong t f'
      end
  end.

Definition ancestors (t : nid) (f : list node) : list nid :=
  match ancestorsAmong t f with Some a => a | None => [] end.

Fixpoint setChildren (t : nid) (new : list node) (n : node) : node :=
  match n with
  | Text d => Text d
  | Elem i e ks =>
      if N.eqb i t then Elem i e new
      else Elem i e (map (setChildren t new) ks)
  end.

Fixpoint replaceNode (t : nid) (new : list node) (n : node) : list node :=
  match n with
  | Text d => [Text d]
  | Elem i e ks =>
      if N.eqb i t then new
      else [Elem i e (flat_map (replaceNode t new) ks)]
  end.

Fixpoint updateElement (t : nid) (g : element -> element) (n : node) : node :=
  match n with
  | Text d => Text d
  | Elem i e ks =>
      Elem i (if N.eqb i t then g e else e) (map (updateElement t g) ks)
  end.

(** Fresh identities for parsed markup, handed out in tree order. *)
Fixpoint label (m : markup) (next : nid) : node * nid :=
  match m with
  | Text d => (Text d, next)
  | Elem _ e ks =>
      let (ks', next') :=
        (fix labelAll (l : list markup) (n : nid) : list node * nid :=
           match l with
           | [] => ([], n)
           | k :: l' =>
               let (k', n1) := label k n in
               let (l'', n2) := labelAll l' n1 in
               (k' :: l'', n2)
           end) ks (N.succ next) in
      (Elem next e ks', next')
  end.

Fixpoint labelAll (l : list markup) (n : nid) : list node * nid :=
  match l with
  | [] => ([], n)
  | k :: l' =>
      let (k', n1) := label k n in
      let (l'', n2) := labelAll l' n1 in
      (k' :: l'', n2)
  end.

Fixpoint erase (n : node) : markup :=
  match n with
  | Text d => Text d
  | Elem _ e ks => Elem tt e (map erase ks)
  end.

(** A position in a forest: the siblings to the left and right of the
    hole, below a chain of enclosing elements. *)
Inductive context :=
| Top (l r : list node)
| Below (c : context) (i : nid) (e : element) (l r : list node).

Fixpoint plug (c : context) (hole : list node) : list node :=
  match c with
  | Top l r => l ++ hole ++ r
  | Below c i e l r => plug c [Elem i e (l ++ hole ++ r)]
  end.

(** Contexts grow outwards: by a sibling to the left, by siblings to
    the right, or by an enclosing element placed in an outer context. *)
Fixpoint prepend (n : node) (c : context) : context :=
  match c with
  | Top l r => Top (n :: l) r
  | Below c i e l r => Below (prepend n c) i e l r
  end.

Fixpoint extend (c : context) (right : list node) : context :=
  match c with
  | Top l r => Top l (r ++ right)
  | Below c i e l r => Below (extend c right) i e l r
  end.

Fixpoint wrap (outer : context) (i : nid) (e : element) (c : context)
  : context :=
  match c with
  | Top l r => Below outer i e l r
  | Below c j e' l r => Below (wrap outer i e c) j e' l r
  end.

(** Identities of the siblings and ancestors around the hole. *)
Fixpoint contextIds (c : context) : list nid :=
  match c with
  | Top l r => ids l ++ ids r
  | Below c i e l r => i :: ids l ++ ids r ++ contextIds c
  end.

Definition getAttr (name : jsstring) (e : element) : option jsstring :=
  match find (fun kv => streq (fst kv) name) (attributes e) with
  | Some (_, v) => Some v
  | None => None
  end.

Definition setAttr (name v : jsstring) (e : element) : element :=
  {| tagName := tagName e;
     attributes :=
       if existsb (fun kv => streq (fst kv) name) (attributes e)
       then map (fun kv => if streq (fst kv) name then (name, v) else kv)
                (attributes e)
       else attributes e ++ [(name, v)];
     classList := classList e; disabled := disabled e; type := type e;
     checked := checked e; value := value e |}.

Definition setClasses (g : list jsstring -> list jsstring) (e : element)
  : element :=
  {| tagName := tagName e; attributes := attributes e;
     classList := g (classList e); disabled := disabled e; type := type e;
     checked := checked e; value := value e |}.

(** [DOMTokenList.add] and [DOMTokenList.remove] for one token. *)
Definition addToken (t : jsstring) (l : list jsstring) : list jsstring :=
  if existsb (streq t) l then l else l ++ [t].

Definition removeToken (t : jsstring) (l : list jsstring) : list jsstring :=
  filter (fun x => negb (streq t x)) l.

(** What the script calls and the browser implements. *)
Class Browser := {
  (** whether a string parses as a selector list *)
  selectorValid : jsstring -> bool;
  (** whether the element with that identity, in that document tree,
      matches the selector *)
  selectorMatches : jsstring -> list node -> nid -> bool;
  (** the HTML fragment parser, given the context element's tag name *)
  parseFragment : jsstring -> jsstring -> list markup;
  (** the application/x-www-form-urlencoded serialization of one name
      or value *)
  urlencode : jsstring -> jsstring;
  (** the messages of the exceptions the DOM raises *)
  syntaxErrorMessage : jsstring -> jsstring;
  noModificationAllowedMessage : jsstring
}.

End Dom.
Import Dom.

(* ================================================================= *)
(** ** Page state and the monad of page operations *)

Module Page.

Record requestConfigT := { verb : jsstring; path : jsstring }.

Record detailT := { requestConfig : requestConfigT }.

(** A [CustomEvent] together with the node it was dispatched on.
    [dispatchEvent] runs the listeners at once: [seen] is the document
    as they find it. *)
Record event := {
  eventType : jsstring;
  detail : detailT;
  eventTarget : nid;
  seen : list node
}.

Record request := {
  url : jsstring;
  headers : list (jsstring * jsstring)
}.

(** What a suspended [requestFor] holds on to across its [await]s. *)
Record pending := {
  target : option nid;
  swap : jsstring;
  finalUrl : jsstring;
  indicator : option nid
}.

Record page := {
  (** the children of the Document node *)
  document : list node;
  (** subtrees that were removed from the document; the script may
      still hold their elements *)
  detached : list node;
  nextId : nid;
  (** [document.readyState === "loading"] *)
  loading : bool;
  (** [el.addEventListener(trigger, ...)] *)
  listeners : list (nid * jsstring);
  (** [document.addEventListener("DOMContentLoaded", ..., {once})] *)
  loadListeners : list nid;
  (** [setInterval(() => requestFor(el), interval)] *)
  timers : list (nid * number);
  (** calls of [fetch], oldest first *)
  requests : list request;
  (** requests whose promise has not settled yet *)
  inflight : list pending;
  (** events dispatched by the script, oldest first *)
  events : list event
}.

Definition withTrees (doc det : list node) (next : nid) (p : page) : page :=
  {| document := doc; detached := det; nextId := next;
     loading := loading p; listeners := listeners p;
     loadListeners := loadListeners p; timers := timers p;
     requests := requests p; inflight := inflight p; events := events p |}.

Definition withListeners (l : list (nid * jsstring)) (p : page) : page :=
  {| document := document p; detached := detached p; nextId := nextId p;
     loading := loading p; listeners := l;
     loadListeners := loadListeners p; timers := timers p;
     requests := requests p; inflight := inflight p; events := events p |}.

Definition withLoadListeners (l : list nid) (p : page) : page :=
  {| document := document p; detached := detached p; nextId := nextId p;
     loading := loading p; listeners := listeners p;
     loadListeners := l; timers := timers p;
     requests := requests p; inflight := inflight p; events := events p |}.

Definition withTimers (l : list (nid * number)) (p : page) : page :=
  {| document := document p; detached := detached p; nextId := nextId p;
     loading := loading p; listeners := listeners p;
     loadListeners := loadListeners p; timers := l;
     requests := requests p; inflight := inflight p; events := events p |}.

Definition withRequests (l : list request) (p : page) : page :=
  {| document := document p; detached := detached p; nextId := nextId p;
     loading := loading p; listeners := listeners p;
     loadListeners := loadListeners p; timers := timers p;
     requests := l; inflight := inflight p; events := events p |}.

Definition withInflight (l : list pending) (p : page) : page :=
  {| document := document p; detached := detached p; nextId := nextId p;
     loading := loading p; listeners := listeners p;
     loadListeners := loadListeners p; timers := timers p;
     requests := requests p; inflight := l; events := events p |}.

Definition withEvents (l : list event) (p : page) : page :=
  {| document := document p; detached := detached p; nextId := nextId p;
     loading := loading p; listeners := listeners p;
     loadListeners := loadListeners p; timers := timers p;
     requests := requests p; inflight := inflight p; events := l |}.

Definition withLoading (b : bool) (p : page) : page :=
  {| document := document p; detached := detached p; nextId := nextId p;
     loading := b; listeners := listeners p;
     loadListeners := loadListeners p; timers := timers p;
     requests := requests p; inflight := inflight p; events := events p |}.

(** Every node the script can hold a reference to. *)
Definition allNodes (p : page) : list node := document p ++ detached p.

(** A computation either completes with a value or throws; the thrown
    value is kept as its [message]. *)
Inductive result (A : Type) :=
| Ok (a : A)
| Throw (message : jsstring).

Arguments Throw {A} message.

Definition M (A : Type) : Type := page -> result A * page.

Definition ret {A} (a : A) : M A := fun p => (Ok a, p).

Definition bind {A B} (m : M A) (k : A -> M B) : M B :=
  fun p =>
    match m p with
    | (Ok a, p') => k a p'
    | (Throw e, p') => (Throw e, p')
    end.

Definition throw {A} (e : jsstring) : M A := fun p => (Throw e, p).

Definition gets {A} (g : page -> A) : M A := fun p => (Ok (g p), p).

Definition modify (g : page -> page) : M unit := fun p => (Ok tt, g p).

(** [try { body } catch (error) { handler(error.message) } finally { fin }]
    where nothing follows the statement. *)
Definition tryCatchFinally (body : M unit) (handler : jsstring -> M unit)
  (fin : M unit) : M unit :=
  fun p =>
    match body p with
    | (Ok _, p1) => fin p1
    | (Throw e, p1) =>
        match handler e p1 with
        | (Ok _, p2) => fin p2
        | (Throw e', p2) =>
            match fin p2 with
            | (Ok _, p3) => (Throw e', p3)
            | (Throw e'', p3) => (Throw e'', p3)
            end
        end
    end.

Fixpoint forEach {A} (l : list A) (body : A -> M unit) : M unit :=
  match l with
  | [] => ret tt
  | a :: l' => bind (body a) (fun _ => forEach l' body)
  end.

End Page.
Import Page.

Declare Scope monad_scope.
Delimit Scope monad_scope with monad.
Notation "x <- m ;; k" := (bind m (fun x => k))
  (at level 61, m at next level, right associativity) : monad_scope.
Notation "m ;; k" := (bind m (fun _ => k))
  (at level 61, right associativity) : monad_scope.

(* ================================================================= *)
(** ** DOM operations the script uses *)

Module DomOps.
Section DomOps.
Context {B : Browser}.
Local Open Scope monad_scope.

(** The value of an attribute in the page as it is now. *)
Definition attributeOf (p : page) (el : nid) (name : jsstring)
  : option jsstring :=
  match lookup el (allNodes p) with
  | Some e => getAttr name e
  | None => None
  end.

(** [el.getAttribute(name)]; [None] is [null]. *)
Definition getAttribute (el : nid) (name : jsstring) : M (option jsstring) :=
  gets (fun p => attributeOf p el name).

(** [document.querySelectorAll(selector)]: the matching elements of the
    document in tree order, or a SyntaxError. *)
Definition querySelectorAll (selector : jsstring) : M (list nid) :=
  fun p =>
    if selectorValid selector
    then (Ok (filter (selectorMatches selector (document p))
                     (ids (document p))), p)
    else (Throw (syntaxErrorMessage selector), p).

(** [document.querySelector(selector)] *)
Definition querySelector (selector : jsstring) : M (option nid) :=
  els <- querySelectorAll selector ;;
  ret (hd_error els).

Definition isElement (n : node) : bool :=
  match n with Text _ => false | Elem _ _ _ => true end.

Definition isBody (n : node) : bool :=
  match n with
  | Text _ => false
  | Elem _ e _ => streq (tagName e) "BODY" || streq (tagName e) "FRAMESET"
  end.

(** [document.body]: the first body or frameset child of the html
    element. *)
Definition bodyIn (doc : list node) : option nid :=
  match find isElement doc with
  | Some (Elem _ e ks) =>
      if streq (tagName e) "HTML"
      then match find isBody ks with
           | Some (Elem b _ _) => Some b
           | _ => None
           end
      else None
  | _ => None
  end.

Definition body (p : page) : option nid := bodyIn (document p).

(** [target.innerHTML = html]: the children of [target] are replaced by
    the parsed fragment.  The old children stay reachable for whoever
    still holds them. *)
Definition setInnerHTML (t : nid) (html : jsstring) : M unit :=
  fun p =>
    match lookupNode t (allNodes p) with
    | Some (Elem _ e old) =>
        let (new, next) := labelAll (parseFragment (tagName e) html) (nextId p) in
        (Ok tt,
         withTrees (map (setChildren t new) (document p))
                   (map (setChildren t new) (detached p) ++ old)
                   next p)
    | _ => (Ok tt, p)
    end.

(** [target.outerHTML = html]: throws when the parent is the Document,
    does nothing when there is no parent, and otherwise replaces
    [target] among its parent's children by the parsed fragment. *)
Definition setOuterHTML (t : nid) (html : jsstring) : M unit :=
  fun p =>
    if existsb (isElem t) (document p)
    then (Throw noModificationAllowedMessage, p)
    else
      match parentOf t (allNodes p), lookupNode t (allNodes p) with
      | Some (Elem _ pe _), Some old =>
          let (new, next) :=
            labelAll (parseFragment (tagName pe) html) (nextId p) in
          (Ok tt,
           withTrees (flat_map (replaceNode t new) (document p))
                     (flat_map (replaceNode t new) (detached p) ++ [old])
                     next p)
      | _, _ => (Ok tt, p)
      end.

Definition updateClasses (el : nid) (g : list jsstring -> list jsstring)
  : M unit :=
  modify (fun p =>
            withTrees (map (updateElement el (setClasses g)) (document p))
                      (map (updateElement el (setClasses g)) (detached p))
                      (nextId p) p).

(** [el.classList.add(token)] and [el.classList.remove(token)] *)
Definition classListAdd (el : nid) (token : jsstring) : M unit :=
  updateClasses el (addToken token).

Definition classListRemove (el : nid) (token : jsstring) : M unit :=
  updateClasses el (removeToken token).

(** [el.setAttribute(name, value)], for the other scripts of the page *)
Definition setAttribute (el : nid) (name v : jsstring) : M unit :=
  modify (fun p =>
            withTrees (map (updateElement el (setAttr name v)) (document p))
                      (map (updateElement el (setAttr name v)) (detached p))
                      (nextId p) p).

(** [fetch(url, {headers})]: the call is recorded; its result arrives
    later as an [outcome]. *)
Definition fetch (u : jsstring) (hs : list (jsstring * jsstring)) : M unit :=
  modify (fun p =>
            withRequests (requests p ++ [{| url := u; headers := hs |}]) p).

End DomOps.
End DomOps.
Import DomOps.

(* ================================================================= *)
(** ** The script *)

Module Htmx.
Section Htmx.
Context {B : Browser}.
Local Open Scope monad_scope.

(** How a fetch settles: it rejects, or it resolves to a response whose
    body is then read (and reading can reject as well). *)
Inductive outcome :=
| NetworkError (message : jsstring)
| Response (ok : bool) (statusText : jsstring) (text : result jsstring).

(** The callback of the [forEach] in [collectParams], on one matched
    element: the pair it appends, if any. *)
Definition paramOf (el : element) : option (jsstring * jsstring) :=
  if disabled el then None
  else
    match getAttr "name" el with
    | None | Some [] => None
    | Some name =>
        let isToggle :=
          match type el with
          | Some t => streq t "checkbox" || streq t "radio"
          | None => false
          end in
        if isToggle && negb (checked el) then None
        else Some (name, match value el with Some v => v | None => js "" end)
    end.

(** A [URLSearchParams] is its list of pairs. *)
Definition collectParams (selector : option jsstring)
  : M (list (jsstring * jsstring)) :=
  match selector with
  | None | Some [] => ret []
  | Some selector =>
      els <- querySelectorAll selector ;;
      gets (fun p =>
              flat_map (fun el =>
                          match lookup el (allNodes p) with
                          | Some e => optlist (paramOf e)
                          | None => []
                          end) els)
  end.

Fixpoint join (sep : jsstring) (l : list jsstring) : jsstring :=
  match l with
  | [] => []
  | [a] => a
  | a :: l' => a ++ sep ++ join sep l'
  end.

(** [params.toString()] *)
Definition toString (params : list (jsstring * jsstring)) : jsstring :=
  join "&" (map (fun nv => urlencode (fst nv) ++ js "=" ++ urlencode (snd nv))
                params).

Definition resolveTarget (el : nid) : M (option nid) :=
  targetSelector <- getAttribute el "hx-target" ;;
  match targetSelector with
  | Some ((_ :: _) as targetSelector) => querySelector targetSelector
  | _ => ret (Some el)
  end.

Definition applySwap (target : option nid) (swap html : jsstring) : M unit :=
  match target with
  | None => ret tt
  | Some target =>
      if streq swap "outerHTML" then setOuterHTML target html
      else setInnerHTML target html
  end.

Definition resolveIndicator : M (option nid) :=
  b <- gets body ;;
  match b with
  | None => ret None
  | Some b =>
      selector <- getAttribute b "hx-indicator" ;;
      match selector with
      | Some ((_ :: _) as selector) => querySelector selector
      | _ => ret None
      end
  end.

Definition emitAfterRequest (verb path : jsstring) : M unit :=
  b <- gets body ;;
  match b with
  | None => ret tt
  | Some b =>
      modify (fun p =>
                withEvents
                  (events p ++
                   [{| eventType := "htmx:afterRequest";
                       detail := {| requestConfig :=
                                      {| verb := verb; path := path |} |};
                       eventTarget := b;
                       seen := document p |}]) p)
  end.

(** The final request URL of [requestFor]. *)
Definition finalUrlOf (url : jsstring) (params : list (jsstring * jsstring))
  : jsstring :=
  if truthy (toString params)
  then
    let joiner := if includes "?" url then js "&" else js "?" in
    url ++ joiner ++ toString params
  else url.

(** [<div class="warning">...</div>] *)
Definition warning (content : jsstring) : jsstring :=
  js "<div class=" ++ [34%N] ++ js "warning" ++ [34%N] ++ js ">"
     ++ content ++ js "</div>".

(** [requestFor(el)] up to its first [await]: [None] is the early
    [return] on a missing [hx-get]. *)
Definition requestForStart (el : nid) : M (option pending) :=
  url <- getAttribute el "hx-get" ;;
  match url with
  | None | Some [] => ret None
  | Some url =>
      include <- getAttribute el "hx-include" ;;
      params <- collectParams include ;;
      target <- resolveTarget el ;;
      hxSwap <- getAttribute el "hx-swap" ;;
      let swap := orElse hxSwap "innerHTML" in
      let finalUrl := finalUrlOf url params in
      indicator <- resolveIndicator ;;
      match indicator with
      | Some i => classListAdd i "htmx-request"
      | None => ret tt
      end ;;
      fetch finalUrl [(js "HX-Request", js "true")] ;;
      ret (Some {| target := target; swap := swap; finalUrl := finalUrl;
                   indicator := indicator |})
  end.

(** The [finally] block. *)
Definition finalizer (r : pending) : M unit :=
  match indicator r with
  | Some i => classListRemove i "htmx-request"
  | None => ret tt
  end ;;
  emitAfterRequest "get" (finalUrl r).

(** The [try] block from the point where the fetch has settled. *)
Definition tryBlock (r : pending) (o : outcome) : M unit :=
  match o with
  | NetworkError message => throw message
  | Response _ _ (Throw message) => throw message
  | Response ok statusText (Ok text) =>
      if negb ok
      then applySwap (target r) (swap r)
             (warning (if truthy text then text else statusText))
      else applySwap (target r) (swap r) text
  end.

Definition catchBlock (r : pending) (message : jsstring) : M unit :=
  applySwap (target r) (swap r) (warning message).

(** [requestFor(el)] after the fetch has settled. *)
Definition requestForResume (r : pending) (o : outcome) : M unit :=
  tryCatchFinally (tryBlock r o) (catchBlock r) (finalizer r).

(** Calling the async function: it runs to its first [await], and
    whatever it throws rejects its promise instead of reaching the
    caller. *)
Definition requestFor (el : nid) : M unit :=
  fun p =>
    match requestForStart el p with
    | (Ok (Some r), p') => (Ok tt, withInflight (inflight p' ++ [r]) p')
    | (_, p') => (Ok tt, p')
    end.

(** The callback of the [forEach] in [setupElement]. *)
Definition setupTrigger (el : nid) (trigger : jsstring) : M unit :=
  match registrationOf trigger with
  | None => ret tt
  | Some OnLoad =>
      isLoading <- gets loading ;;
      if isLoading
      then modify (fun p => withLoadListeners (loadListeners p ++ [el]) p)
      else requestFor el
  | Some (Every interval) =>
      modify (fun p => withTimers (timers p ++ [(el, interval)]) p)
  | Some (OnEvent name) =>
      modify (fun p => withListeners (listeners p ++ [(el, name)]) p)
  end.

Definition setupElement (el : nid) : M unit :=
  hxTrigger <- getAttribute el "hx-trigger" ;;
  forEach (parseTriggers hxTrigger) (setupTrigger el).

Definition boot : M unit :=
  els <- querySelectorAll "[hx-get]" ;;
  forEach els setupElement.

(** The listener [setupElement] installs for an event trigger; the
    result says whether it called [preventDefault]. *)
Definition listener (el : nid) (trigger : jsstring) : M bool :=
  tag <- gets (fun p => match lookup el (allNodes p) with
                        | Some e => tagName e
                        | None => js ""
                        end) ;;
  requestFor el ;;
  ret (streq trigger "click" && streq tag "A").

(** The listeners an event dispatched on [el] runs: those of the
    element itself and, when the event bubbles, those of its ancestors
    from the parent outwards, as the tree is when the event is
    dispatched; on one element, in the order of registration. *)
Definition propagationPath (el : nid) (bubbles : bool) (p : page) : list nid :=
  el :: (if bubbles then ancestors el (allNodes p) else []).

Definition listenersFor (el : nid) (name : jsstring) (bubbles : bool)
  (p : page) : list (nid * jsstring) :=
  flat_map (fun x => filter (fun l => N.eqb (fst l) x && streq (snd l) name)
                            (listeners p))
           (propagationPath el bubbles p).

(** What the event loop can do next. *)
Inductive input :=
| Fire (el : nid) (name : jsstring) (bubbles : bool)
| Tick (k : nat)
| ContentLoaded
| Settle (k : nat) (o : outcome)
| SetAttribute (el : nid) (name v : jsstring).

Definition run {A} (m : M A) (p : page) : page := snd (m p).

Definition step (i : input) (p : page) : page :=
  match i with
  | Fire el name bubbles =>
      run (forEach (listenersFor el name bubbles p)
                   (fun l => listener (fst l) (snd l) ;; ret tt)) p
  | Tick k =>
      match nth_error (timers p) k with
      | Some (el, _) => run (requestFor el) p
      | None => p
      end
  | ContentLoaded =>
      run (forEach (loadListeners p) requestFor)
          (withLoading false (withLoadListeners [] p))
  | Settle k o =>
      match nth_error (inflight p) k with
      | Some r =>
          run (requestForResume r o)
              (withInflight (firstn k (inflight p) ++ skipn (S k) (inflight p)) p)
      | None => p
      end
  | SetAttribute el name v => run (setAttribute el name v) p
  end.

End Htmx.
End Htmx.
Import Htmx.

(* ================================================================= *)
(** ** A small browser to run the script on *)

Module TestBrowser.
Local Open Scope N_scope.

Definition isAlpha (c : N) : bool :=
  (N.leb 65 c && N.leb c 90) || (N.leb 97 c && N.leb c 122).

Definition isIdentChar (c : N) : bool :=
  isAlpha c || isDigit c || N.eqb c 45 || N.eqb c 95.

Definition isIdent (s : jsstring) : bool :=
  match s with
  | [] => false
  | c :: _ => isAlpha c && forallb isIdentChar s
  end.

Definition toUpper (s : jsstring) : jsstring :=
  map (fun c => if N.leb 97 c && N.leb c 122 then (c - 32)%N else c) s.

(** The selectors this browser knows: [#id], [.class], [[attr]] and a
    tag name. *)
Inductive simpleSelector :=
| ById (name : jsstring)
| ByClass (name : jsstring)
| ByAttr (name : jsstring)
| ByTag (name : jsstring).

Definition parseSelector (s : jsstring) : option simpleSelector :=
  match s with
  | 35%N :: name => if isIdent name then Some (ById name) else None
  | 46%N :: name => if isIdent name then Some (ByClass name) else None
  | 91%N :: rest =>
      match rev rest with
      | 93%N :: eman =>
          if isIdent (rev eman) then Some (ByAttr (rev eman)) else None
      | _ => None
      end
  | _ => if isIdent s then Some (ByTag s) else None
  end.

Definition matchesSimple (sel : simpleSelector) (e : element) : bool :=
  match sel with
  | ById name =>
      match getAttr "id" e with Some v => streq v name | None => false end
  | ByClass name => existsb (streq name) (classList e)
  | ByAttr name =>
      match getAttr name e with Some _ => true | None => false end
  | ByTag name => streq (tagName e) (toUpper name)
  end.

Definition hexDigit (n : N) : N :=
  if N.ltb n 10 then (48 + n)%N else (55 + n)%N.

Definition percent (byte : N) : jsstring :=
  [37%N; hexDigit (byte / 16); hexDigit (byte mod 16)].

(** UTF-8 bytes of a code point *)
Definition utf8 (cp : N) : list N :=
  if N.ltb cp 128 then [cp]
  else if N.ltb cp 2048 then [192 + cp / 64; 128 + cp mod 64]
  else if N.ltb cp 65536
       then [224 + cp / 4096; 128 + (cp / 64) mod 64; 128 + cp mod 64]
       else [240 + cp / 262144; 128 + (cp / 4096) mod 64;
             128 + (cp / 64) mod 64; 128 + cp mod 64].

Definition isHigh (c : N) : bool := N.leb 55296 c && N.leb c 56319.
Definition isLow (c : N) : bool := N.leb 56320 c && N.leb c 57343.

(** Code points of a string; an unpaired surrogate reads as U+FFFD. *)
Fixpoint codePoints (s : jsstring) : list N :=
  match s with
  | [] => []
  | c :: s' =>
      if isHigh c
      then match s' with
           | d :: s'' =>
               if isLow d
               then (65536 + (c - 55296) * 1024 + (d - 56320))%N
                      :: match codePoints s' with
                         | _ :: rest => rest
                         | [] => []
                         end
               else 65533%N :: codePoints s'
           | [] => [65533%N]
           end
      else if isLow c then 65533%N :: codePoints s'
      else c :: codePoints s'
  end.

Definition encodeByte (b : N) : jsstring :=
  if N.eqb b 32 then [43%N]
  else if isAlpha b || isDigit b || N.eqb b 42 || N.eqb b 45
          || N.eqb b 46 || N.eqb b 95
       then [b]
       else percent b.

Definition formEncode (s : jsstring) : jsstring :=
  flat_map encodeByte (flat_map utf8 (codePoints s)).

(** Text without markup parses to one text node; anything else is kept
    whole, as an element that stands for the parsed result. *)
Definition parseContent (html : jsstring) : list markup :=
  match html with
  | [] => []
  | _ :: _ =>
      if includes "<" html || includes "&" html
      then [Elem tt {| tagName := "PARSED"; attributes := [(js "source", html)];
                       classList := []; disabled := false; type := None;
                       checked := false; value := None |} []]
      else [Text html]
  end.

Definition bare (tag : jsstring) : element :=
  {| tagName := tag; attributes := []; classList := []; disabled := false;
     type := None; checked := false; value := None |}.

(** In the context of the html element the parser builds a head and a
    body and puts the content in the body. *)
Definition parseText (context html : jsstring) : list markup :=
  if streq context "HTML"
  then [Elem tt (bare "HEAD") []; Elem tt (bare "BODY") (parseContent html)]
  else parseContent html.

#[export] Instance browser : Browser := {|
  selectorValid s :=
    match parseSelector s with Some _ => true | None => false end;
  selectorMatches s doc i :=
    match parseSelector s, lookup i doc with
    | Some sel, Some e => matchesSimple sel e
    | _, _ => false
    end;
  parseFragment := parseText;
  urlencode := formEncode;
  syntaxErrorMessage s := js "not a valid selector: " ++ s;
  noModificationAllowedMessage := "This node type does not support this method."
|}.

(** Element literals *)
Definition el (tag : jsstring) (attrs : list (jsstring * jsstring)) : element :=
  {| tagName := tag; attributes := attrs; classList := [];
     disabled := false; type := None; checked := false; value := None |}.

Definition control (ty : jsstring) (attrs : list (jsstring * jsstring))
  (isDisabled isChecked : bool) (v : jsstring) : element :=
  {| tagName := "INPUT"; attributes := attrs; classList := [];
     disabled := isDisabled; type := Some ty; checked := isChecked;
     value := Some v |}.

Definition pageOf (doc : list node) (next : nid) : page :=
  {| document := doc; detached := []; nextId := next; loading := false;
     listeners := []; loadListeners := []; timers := [];
     requests := []; inflight := []; events := [] |}.

(** A form with one control of each kind. *)
Definition formPage : page :=
  pageOf
    [Elem 1%N (el "HTML" [])
       [Elem 2%N (el "BODY" [])
          [Elem 3%N (control "text" [(js "name", js "q")] false false "rocq") [];
           Elem 4%N (control "text" [(js "name", js "d")] true false "off") [];
           Elem 5%N (control "checkbox" [(js "name", js "c")] false false "on") [];
           Elem 6%N (control "checkbox" [(js "name", js "k")] false true "yes") [];
           Elem 7%N (control "radio" [(js "name", js "r")] false false "one") [];
           Elem 8%N (control "text" [] false false "anonymous") []]]]
    9%N.

(** A text field whose [name] attribute is present but empty. *)
Definition emptyNamePage : page :=
  pageOf
    [Elem 1%N (el "HTML" [])
       [Elem 2%N (el "BODY" [])
          [Elem 3%N (control "text" [(js "name", js "")] false false "x") []]]]
    4%N.

(** A page with a loading indicator, a bound button, a field it
    includes and the block it swaps into. *)
Definition demoPage : page :=
  pageOf
    [Elem 1%N (el "HTML" [])
       [Elem 2%N (el "BODY" [(js "hx-indicator", js "#spin")])
          [Elem 3%N (el "DIV" [(js "id", js "spin")]) [];
           Elem 4%N (el "BUTTON" [(js "hx-get", js "/runs");
                                  (js "hx-target", js "#out");
                                  (js "hx-include", js "input");
                                  (js "hx-trigger", js "click, every 2s")])
                [Text (js "Go")];
           Elem 5%N (control "text" [(js "name", js "q")] false false "rocq") [];
           Elem 6%N (el "DIV" [(js "id", js "out")]) [Text (js "old")]]]]
    7%N.

(** The position of the block [#out] in [demoPage]. *)
Definition outContext : context :=
  Below (Below (Top [] []) 1%N (el "HTML" []) [] [])
        2%N (el "BODY" [(js "hx-indicator", js "#spin")])
        [Elem 3%N (el "DIV" [(js "id", js "spin")]) [];
         Elem 4%N (el "BUTTON" [(js "hx-get", js "/runs");
                                (js "hx-target", js "#out");
                                (js "hx-include", js "input");
                                (js "hx-trigger", js "click, every 2s")])
              [Text (js "Go")];
         Elem 5%N (control "text" [(js "name", js "q")] false false "rocq") []]
        [].

(** The request the button of [demoPage] makes. *)
Definition demoRequest : pending :=
  {| target := Some 6%N; swap := "innerHTML"; finalUrl := "/runs?q=rocq";
     indicator := Some 3%N |}.


(** A block that polls and replaces itself. *)
Definition pollingPage : page :=
  pageOf
    [Elem 1%N (el "HTML" [])
       [Elem 2%N (el "BODY" [])
          [Elem 3%N (el "DIV" [(js "hx-get", js "/tick");
                               (js "hx-swap", js "outerHTML");
                               (js "hx-trigger", js "every 1s")])
                [Text (js "0")]]]]
    4%N.

(** A button whose [hx-include] is no selector. *)
Definition badIncludePage : page :=
  pageOf
    [Elem 1%N (el "HTML" [])
       [Elem 2%N (el "BODY" [(js "hx-indicator", js "#spin")])
          [Elem 3%N (el "DIV" [(js "id", js "spin")]) [];
           Elem 4%N (el "BUTTON" [(js "hx-get", js "/runs");
                                  (js "hx-include", js "((")]) []]]]
    5%N.


End TestBrowser.

(* ================================================================= *)
(** ** Vocabulary of the statements *)

Module Spec.
Section WithBrowser.
Context {B : Browser}.

(** The elements a selector picks in the document, in tree order. *)
Definition matched (selector : jsstring) (p : page) : list element :=
  flat_map (fun i => optlist (lookup i (allNodes p)))
           (filter (selectorMatches selector (document p)) (ids (document p))).

Definition isToggle (e : element) : bool :=
  match type e with
  | Some t => streq t "checkbox" || streq t "radio"
  | None => false
  end.

(** The element carries a [name] attribute, whatever its value. *)
Definition hasNameAttribute (e : element) : bool :=
  match getAttr "name" e with Some _ => true | None => false end.

(** The element carries a non-empty [name] attribute. *)
Definition hasName (e : element) : bool :=
  match getAttr "name" e with Some (_ :: _) => true | _ => false end.

Definition nameOf (e : element) : jsstring :=
  match getAttr "name" e with Some n => n | None => js "" end.

Definition currentValue (e : element) : jsstring :=
  match value e with Some v => v | None => js "" end.

(** A control contributes unless it is disabled, an unchecked checkbox
    or radio button, or nameless. *)
Definition contributes (e : element) : bool :=
  negb (disabled e) && negb (isToggle e && negb (checked e)) && hasName e.

(** The [try] and [catch] blocks of [requestFor] together: what happens
    between the settling of the fetch and the [finally] block. *)
Definition attempt (r : pending) (o : outcome) : M unit :=
  fun p =>
    match tryBlock r o p with
    | (Ok a, p1) => (Ok a, p1)
    | (Throw e, p1) => catchBlock r e p1
    end.

(** The two statements of the [finally] block. *)
Definition deactivate (r : pending) : M unit :=
  match indicator r with
  | Some i => classListRemove i "htmx-request"
  | None => ret tt
  end.

Definition notify (r : pending) : M unit :=
  emitAfterRequest "get" (finalUrl r).

(** The event listeners and timers a list of triggers asks for. *)
Definition listenersOf (i : nid) (triggers : list jsstring)
  : list (nid * jsstring) :=
  flat_map (fun t => match registrationOf t with
                     | Some (OnEvent name) => [(i, name)]
                     | _ => []
                     end) triggers.

Definition timersOf (i : nid) (triggers : list jsstring)
  : list (nid * number) :=
  flat_map (fun t => match registrationOf t with
                     | Some (Every interval) => [(i, interval)]
                     | _ => []
                     end) triggers.

(** The event [emitAfterRequest] builds, dispatched on [b] in the
    document [doc]. *)
Definition afterRequest (verb path : jsstring) (b : nid) (doc : list node)
  : event :=
  {| eventType := "htmx:afterRequest";
     detail := {| requestConfig := {| verb := verb; path := path |} |};
     eventTarget := b;
     seen := doc |}.

End WithBrowser.

(** A computation that only reads. *)
Definition pure {A} (m : M A) : Prop := forall p, snd (m p) = p.

(** A computation that leaves one component of the page alone. *)
Definition keeps {X A} (f : page -> X) (m : M A) : Prop :=
  forall p, f (snd (m p)) = f p.

(** Element identities are not repeated, and the identities a parse
    will hand out next are not in use. *)
Definition wellFormed (p : page) : Prop :=
  NoDup (ids (allNodes p))
  /\ forall i, In i (ids (allNodes p)) -> (i < nextId p)%N.

(** A computation that keeps pages well formed. *)
Definition sound {A} (m : M A) : Prop :=
  forall p, wellFormed p -> wellFormed (snd (m p)).

(** How often an identity occurs. *)
Definition occ (x : nid) (l : list nid) : nat := count_occ N.eq_dec l x.

(** Components that do not look at the trees. *)
Definition treeBlind {X} (f : page -> X) : Prop :=
  forall doc det next p, f (withTrees doc det next p) = f p.

(** Components that do not look at what the update [w] sets. *)
Definition blind {X Y} (f : page -> X) (w : Y -> page -> page) : Prop :=
  forall y p, f (w y p) = f p.

(** The completion events: [htmx:afterRequest] with verb ["get"],
    dispatched on the body of the document as it then is. *)
Definition isCompletion (ev : event) : Prop :=
  eventType ev = js "htmx:afterRequest"
  /\ verb (requestConfig (detail ev)) = js "get"
  /\ bodyIn (seen ev) = Some (eventTarget ev).

End Spec.
Import Spec.

(* ================================================================= *)
(** ** Loading the script *)

Module Bootstrap.
Section Bootstrap.
Context {B : Browser}.

(** The page together with what the script has asked the document to
    do on [DOMContentLoaded]: run [boot], or nothing. *)
Record runtime := {
  current : page;
  bootDeferred : bool
}.

(** The last statement of the script: [boot] now, or once the content
    is loaded. *)
Definition main (p : page) : runtime :=
  if loading p
  then {| current := p; bootDeferred := true |}
  else {| current := run boot p; bootDeferred := false |}.

(** The document dispatches [DOMContentLoaded]: it is no longer
    loading, and the listeners registered so far run once, [boot]
    first since the script registers it before it sets up any
    element. *)
Definition contentLoaded (r : runtime) : runtime :=
  let p0 := withLoading false (withLoadListeners [] (current r)) in
  let p1 := if bootDeferred r then run boot p0 else p0 in
  {| current := run (forEach (loadListeners (current r)) requestFor) p1;
     bootDeferred := false |}.

(** The runtime once the content is loaded. *)
Definition ready (r : runtime) : runtime :=
  if bootDeferred r then contentLoaded r else r.

End Bootstrap.
End Bootstrap.
Import Bootstrap.

(* ================================================================= *)
(** ** Vocabulary of further statements *)

Module Coverage.
Section WithBrowser.
Context {B : Browser}.

(** The headers of a request issued by the script. *)
Definition marker : list (jsstring * jsstring) :=
  [(js "HX-Request", js "true")].

Definition marked (q : request) : Prop := headers q = marker.

(** The URLs fetched so far. *)
Definition fetched (p : page) : list jsstring := map url (requests p).

(** Every request in flight and every event dispatched names a URL
    that was fetched. *)
Definition accounted (p : page) : Prop :=
  (forall r, In r (inflight p) -> In (finalUrl r) (fetched p))
  /\ (forall ev, In ev (events p) ->
                 In (path (requestConfig (detail ev))) (fetched p)).

(** No more requests were finished or are in flight than were
    fetched. *)
Definition balanced (p : page) : Prop :=
  List.length (events p) + List.length (inflight p)
  <= List.length (requests p).

(** The one case in which a swap throws: [outerHTML] of a child of the
    Document. *)
Definition rejects (t : option nid) (s : jsstring) (p : page) : bool :=
  match t with
  | Some t => streq s "outerHTML" && existsb (isElem t) (document p)
  | None => false
  end.

(** The elements [boot] sets up. *)
Definition bound (p : page) : list nid :=
  filter (selectorMatches "[hx-get]" (document p)) (ids (document p)).

(** The selectors a call of [requestFor] hands to the document. *)
Definition selectorsOf (p : page) (i : nid) : list jsstring :=
  optlist (attributeOf p i "hx-include")
  ++ optlist (attributeOf p i "hx-target")
  ++ match body p with
     | Some b => optlist (attributeOf p b "hx-indicator")
     | None => []
     end.

(** The page a call of [requestFor] leaves when it has issued the
    request [r]. *)
Definition started (r : pending) (p : page) : page :=
  withRequests
    (requests p ++ [{| url := finalUrl r; headers := marker |}])
    match indicator r with
    | Some j =>
        withTrees
          (map (updateElement j (setClasses (addToken "htmx-request")))
               (document p))
          (map (updateElement j (setClasses (addToken "htmx-request")))
               (detached p))
          (nextId p) p
    | None => p
    end.

(** A run of the event loop, first input first. *)
Definition steps (l : list input) (p : page) : page :=
  fold_left (fun q i => step i q) l p.

(** The listeners that a firing of [name] on [el] runs. *)
Definition fired (el : nid) (name : jsstring) (p : page)
  : list (nid * jsstring) :=
  filter (fun l => N.eqb (fst l) el && streq (snd l) name) (listeners p).

(** The pages agree on every attribute of every element. *)
Definition sameAttributes (p q : page) : Prop :=
  forall i name, attributeOf q i name = attributeOf p i name.

End WithBrowser.

(** A computation that keeps a property of pages. *)
Definition preserves {A} (I : page -> Prop) (m : M A) : Prop :=
  forall p, I p -> I (snd (m p)).

End Coverage.
Import Coverage.

(* ================================================================= *)
(** * Properties *)

Arguments isSpace : simpl never.
Arguments isDigit : simpl never.

Section StringFacts.

Example split_on_commas :
  split 44 (js "a, b,,c") = [js "a"; js " b"; js ""; js "c"].
Proof. reflexivity. Qed.

Example trim_both_ends : trim (js "  every 2s  ") = js "every 2s".
Proof. reflexivity. Qed.

Example replace_first_only :
  replace (js "every ") (js "") (js "every every 5") = js "every 5".
Proof. reflexivity. Qed.

(** [Number("0.1")] is 0x1.999999999999ap-4, and [1.005 * 1000] is
    1004.9999999999999 as in any IEEE 754 arithmetic. *)
Example number_one_tenth :
  Number (js "0.1") = S754_finite false 7205759403792794 (-56).
Proof. vm_compute. reflexivity. Qed.

Example number_times_thousand_rounds :
  mul (Number (js "1.005")) (ofN 1000)
  = S754_finite false 8840073487319039 (-43).
Proof. vm_compute. reflexivity. Qed.

Example registrations_in_source_order :
  registrations (Some (js "every 2s, load ,keyup,, every abc, every 1.5"))
  = [Every (ofN 2000); OnLoad; OnEvent (js "keyup");
     Every (Number (js "1.5"))].
Proof. vm_compute. reflexivity. Qed.

Lemma streq_eq (a b : jsstring) : streq a b = true <-> a = b.
Proof.
  revert b; induction a as [|x a IH]; intros [|y b]; simpl;
    try (split; [discriminate | intros E; discriminate E]); [tauto|].
  rewrite andb_true_iff, N.eqb_eq, IH.
  split; [intros [-> ->]; reflexivity | intros E; inversion E; auto].
Qed.

Lemma streq_refl (a : jsstring) : streq a a = true.
Proof. apply streq_eq; reflexivity. Qed.

Lemma streq_neq (a b : jsstring) : streq a b = false <-> a <> b.
Proof.
  rewrite <- streq_eq. destruct (streq a b); split; congruence.
Qed.

Lemma truthy_nonempty (s : jsstring) : truthy s = true <-> s <> [].
Proof. destruct s; simpl; split; congruence. Qed.

Lemma startsWith_app (pat s : jsstring) : startsWith pat (pat ++ s) = true.
Proof.
  induction pat as [|c pat IH]; simpl; [reflexivity|].
  now rewrite N.eqb_refl.
Qed.

Lemma skipn_length_app (pat s : jsstring) : skipn (List.length pat) (pat ++ s) = s.
Proof. induction pat; simpl; auto. Qed.

Lemma replace_prefix (pat rep s : jsstring) :
  replace pat rep (pat ++ s) = rep ++ s.
Proof.
  destruct pat as [|c pat]; [destruct s; reflexivity|].
  cbn [replace app].
  change (c :: pat ++ s) with ((c :: pat) ++ s).
  rewrite startsWith_app, skipn_length_app. reflexivity.
Qed.

Lemma split_nonempty (sep : N) (s : jsstring) : split sep s <> [].
Proof.
  induction s as [|c s IH]; simpl; [discriminate|].
  destruct (N.eqb c sep); [discriminate|].
  destruct (split sep s); discriminate.
Qed.

Lemma split_join (sep : N) (s : jsstring) : join [sep] (split sep s) = s.
Proof.
  induction s as [|c s IH]; simpl; [reflexivity|].
  destruct (N.eqb_spec c sep) as [->|Hne].
  - pose proof (split_nonempty sep s) as Hn.
    destruct (split sep s) as [|seg segs]; [congruence|].
    simpl in *. now rewrite IH.
  - pose proof (split_nonempty sep s) as Hn.
    destruct (split sep s) as [|seg segs]; [congruence|].
    destruct segs; simpl in *; now rewrite IH.
Qed.

Lemma split_no_sep (sep : N) (s : jsstring) :
  forallb (fun c => negb (N.eqb c sep)) s = true -> split sep s = [s].
Proof.
  induction s as [|c s IH]; simpl; [reflexivity|].
  rewrite andb_true_iff. intros [Hc Hs].
  destruct (N.eqb c sep); [discriminate|].
  now rewrite (IH Hs).
Qed.

Lemma split_app_sep (sep : N) (a b : jsstring) :
  forallb (fun c => negb (N.eqb c sep)) a = true ->
  split sep (a ++ sep :: b) = a :: split sep b.
Proof.
  induction a as [|c a IH]; simpl.
  - now rewrite N.eqb_refl.
  - rewrite andb_true_iff. intros [Hc Hs].
    destruct (N.eqb c sep); [discriminate|].
    now rewrite (IH Hs).
Qed.

Lemma span_app (f : N -> bool) (a b : jsstring) :
  forallb f a = true ->
  match b with [] => True | c :: _ => f c = false end ->
  span f (a ++ b) = (a, b).
Proof.
  intros Ha Hb. induction a as [|c a IH]; simpl in *.
  - destruct b as [|c b]; [reflexivity|]. simpl. now rewrite Hb.
  - apply andb_true_iff in Ha as [Hc Ha]. now rewrite Hc, (IH Ha).
Qed.

Lemma span_spec (f : N -> bool) (s a b : jsstring) :
  span f s = (a, b) ->
  s = a ++ b /\ forallb f a = true
  /\ match b with [] => True | c :: _ => f c = false end.
Proof.
  revert a b; induction s as [|c s IH]; simpl; intros a b E.
  - inversion E; subst; auto.
  - destruct (f c) eqn:Hc.
    + destruct (span f s) as [a' b'] eqn:Es. inversion E; subst.
      destruct (IH _ _ eq_refl) as (-> & Ha & Hb). simpl. rewrite Hc. auto.
    + inversion E; subst. simpl. auto.
Qed.

Lemma digit_not_space (c : N) : isDigit c = true -> isSpace c = false.
Proof.
  unfold isDigit, isSpace. rewrite andb_true_iff, !N.leb_le. intros [H1 H2].
  repeat match goal with
         | |- context [N.leb ?a ?b] => destruct (N.leb_spec a b)
         | |- context [N.eqb ?a ?b] => destruct (N.eqb_spec a b)
         end; simpl; try reflexivity; lia.
Qed.

Lemma trimEnd_fixed (s : jsstring) (c : N) :
  isSpace c = false -> trimEnd (s ++ [c]) = s ++ [c].
Proof.
  intros Hc. induction s as [|d s IH]; simpl.
  - now rewrite Hc.
  - rewrite IH. destruct (s ++ [c]) eqn:E; [destruct s; discriminate|reflexivity].
Qed.

Lemma trim_fixed (a : N) (s : jsstring) (c : N) :
  isSpace a = false -> isSpace c = false ->
  trim (a :: s ++ [c]) = a :: s ++ [c].
Proof.
  intros Ha Hc. unfold trim. simpl. rewrite Ha.
  change (a :: s ++ [c]) with ((a :: s) ++ [c]). now apply trimEnd_fixed.
Qed.

Lemma trim_single (a : N) : isSpace a = false -> trim [a] = [a].
Proof. intros Ha. unfold trim. simpl. rewrite Ha. simpl. now rewrite Ha. Qed.

End StringFacts.

(* ================================================================= *)
(** ** Trigger parsing *)

Section TriggerFacts.

Lemma allDigits_spec (s : jsstring) :
  allDigits s = true <-> s <> [] /\ forallb isDigit s = true.
Proof. unfold allDigits. now rewrite andb_true_iff, truthy_nonempty. Qed.

Lemma digits_no_dot (s : jsstring) :
  forallb isDigit s = true ->
  forallb (fun c => negb (N.eqb c 46)) s = true.
Proof.
  induction s as [|c s IH]; simpl; [reflexivity|].
  rewrite !andb_true_iff. intros [Hc Hs]. split; [|auto].
  destruct (N.eqb_spec c 46) as [->|]; [discriminate Hc | reflexivity].
Qed.

Lemma isNumeral_int (ip : jsstring) : allDigits ip = true -> isNumeral ip = true.
Proof.
  intros Hd. unfold isNumeral.
  rewrite split_no_sep; [assumption|].
  apply digits_no_dot. now apply allDigits_spec in Hd.
Qed.

Lemma isNumeral_frac (ip fp : jsstring) :
  allDigits ip = true -> allDigits fp = true ->
  isNumeral (ip ++ 46%N :: fp) = true.
Proof.
  intros Hi Hf. unfold isNumeral.
  rewrite split_app_sep, split_no_sep.
  - now rewrite Hi, Hf.
  - apply digits_no_dot. now apply allDigits_spec in Hf.
  - apply digits_no_dot. now apply allDigits_spec in Hi.
Qed.

Lemma isNumeral_inv (s : jsstring) :
  isNumeral s = true ->
  allDigits s = true
  \/ exists ip fp, s = ip ++ 46%N :: fp /\ allDigits ip = true /\ allDigits fp = true.
Proof.
  unfold isNumeral. intros Hn.
  pose proof (split_join 46 s) as Hj.
  destruct (split 46 s) as [|ip [|fp [|]]]; try discriminate.
  - left. simpl in Hj. now subst.
  - right. exists ip, fp. simpl in Hj. apply andb_true_iff in Hn. now subst.
Qed.

Lemma isUnit_inv (u : jsstring) :
  isUnit u = true -> u = js "" \/ u = js "ms" \/ u = js "s".
Proof.
  unfold isUnit. rewrite !orb_true_iff, !streq_eq. tauto.
Qed.

(** The pattern matches every [<number><unit?>] and returns its parts. *)
Lemma matchInterval_complete (num unit : jsstring) :
  isNumeral num = true -> isUnit unit = true ->
  matchInterval (num ++ unit)
  = Some (num, if truthy unit then Some unit else None).
Proof.
  intros Hn Hu.
  assert (Hhead : match unit with [] => True | c :: _ => isDigit c = false end)
    by (apply isUnit_inv in Hu as [->|[->| ->]]; simpl; auto).
  assert (Hdot : startsWith "." unit = false)
    by (apply isUnit_inv in Hu as [->|[->| ->]]; reflexivity).
  assert (Htail : (if streq unit "" then Some (num, None)
                   else if streq unit "ms" then Some (num, Some (js "ms"))
                   else if streq unit "s" then Some (num, Some (js "s"))
                   else None)
                  = Some (num, if truthy unit then Some unit else None))
    by (apply isUnit_inv in Hu as [->|[->| ->]]; reflexivity).
  unfold matchInterval.
  apply isNumeral_inv in Hn as [Hd | (ip & fp & -> & Hi & Hf)].
  - apply allDigits_spec in Hd as [Hne Hd].
    rewrite (span_app isDigit num unit Hd Hhead).
    apply truthy_nonempty in Hne. rewrite Hne, Hdot. exact Htail.
  - apply allDigits_spec in Hi as [Hine Hi].
    apply allDigits_spec in Hf as [Hfne Hf].
    rewrite <- app_assoc.
    rewrite (span_app isDigit ip ((46%N :: fp) ++ unit) Hi) by reflexivity.
    apply truthy_nonempty in Hine. rewrite Hine.
    cbn [app startsWith js map list_ascii_of_string N_of_ascii N.eqb Pos.eqb
         andb skipn].
    rewrite (span_app isDigit fp unit Hf Hhead).
    apply truthy_nonempty in Hfne. rewrite Hfne. exact Htail.
Qed.

Lemma startsWith_dot (s : jsstring) :
  startsWith "." s = true -> s = 46%N :: skipn 1 s.
Proof.
  destruct s as [|c s]; [discriminate|].
  change (startsWith [46%N] (c :: s) = true -> c :: s = 46%N :: s).
  cbn [startsWith]. intros E. apply andb_true_iff in E as [E _].
  apply N.eqb_eq in E. now subst.
Qed.

(** Whatever the pattern matches is a [<number><unit?>]. *)
Lemma matchInterval_sound (raw num : jsstring) (m2 : option jsstring) :
  matchInterval raw = Some (num, m2) ->
  let unit := match m2 with Some u => u | None => js "" end in
  raw = num ++ unit /\ isNumeral num = true /\ isUnit unit = true
  /\ m2 = (if truthy unit then Some unit else None).
Proof.
  unfold matchInterval.
  destruct (span isDigit raw) as [ip rest] eqn:Es.
  apply span_spec in Es as (-> & Hi & _).
  destruct (truthy ip) eqn:Hine; [|discriminate].
  assert (Hip : allDigits ip = true) by (unfold allDigits; now rewrite Hine, Hi).
  assert (Hend : forall n r,
             (if streq r "" then Some (n, None)
              else if streq r "ms" then Some (n, Some (js "ms"))
              else if streq r "s" then Some (n, Some (js "s"))
              else None) = Some (num, m2) ->
             let unit := match m2 with Some u => u | None => js "" end in
             n = num /\ r = unit /\ isUnit unit = true
             /\ m2 = (if truthy unit then Some unit else None)).
  { intros n r.
    destruct (streq r "") eqn:E1; [apply streq_eq in E1|];
      [|destruct (streq r "ms") eqn:E2; [apply streq_eq in E2|];
        [|destruct (streq r "s") eqn:E3; [apply streq_eq in E3|]]];
      intros E; inversion E; subst; simpl; auto. }
  destruct (startsWith "." rest) eqn:Hdot.
  - apply startsWith_dot in Hdot.
    destruct (span isDigit (skipn 1 rest)) as [fp rest'] eqn:Ef.
    apply span_spec in Ef as (Ef & Hf & _).
    destruct (truthy fp) eqn:Hfne.
    + intros E. apply Hend in E as (<- & <- & Hu & Hm).
      repeat split; try assumption.
      * rewrite Hdot, Ef. now rewrite <- !app_assoc.
      * apply isNumeral_frac; [assumption|].
        unfold allDigits. now rewrite Hfne, Hf.
    + intros E. apply Hend in E as (<- & <- & Hu & Hm).
      repeat split; try assumption. now apply isNumeral_int.
  - intros E. apply Hend in E as (<- & <- & Hu & Hm).
    repeat split; try assumption. now apply isNumeral_int.
Qed.

Lemma stripSuffix_app (a suffix : jsstring) :
  stripSuffix suffix (a ++ suffix) = Some a.
Proof.
  unfold stripSuffix. rewrite length_app, Nat.add_sub.
  rewrite skipn_app, skipn_all, Nat.sub_diag, firstn_app, Nat.sub_diag.
  simpl. rewrite streq_refl, firstn_all, app_nil_r. reflexivity.
Qed.

Lemma isIntervalToken_intro (num unit : jsstring) :
  isNumeral num = true -> isUnit unit = true ->
  isIntervalToken (num ++ unit) = true.
Proof.
  intros Hn Hu. unfold isIntervalToken.
  apply isUnit_inv in Hu as [->|[->| ->]].
  - rewrite app_nil_r, Hn. reflexivity.
  - rewrite (stripSuffix_app num (js "ms")), Hn, orb_true_r. reflexivity.
  - rewrite (stripSuffix_app num (js "s")), Hn, orb_true_r. reflexivity.
Qed.

Lemma matchInterval_malformed (raw : jsstring) :
  isIntervalToken raw = false -> matchInterval raw = None.
Proof.
  intros Hbad. destruct (matchInterval raw) as [[num m2]|] eqn:E; [|reflexivity].
  apply matchInterval_sound in E as (-> & Hn & Hu & _).
  now rewrite isIntervalToken_intro in Hbad.
Qed.

Lemma every_not_load (rest : jsstring) :
  streq (js "every " ++ rest) "load" = false.
Proof. reflexivity. Qed.

Lemma registrationOf_every (rest : jsstring) :
  registrationOf (js "every " ++ rest)
  = match matchInterval (trim rest) with
    | None => None
    | Some (m1, m2) =>
        let unit := orElse m2 "ms" in
        Some (Every (if streq unit "s" then mul (Number m1) (ofN 1000)
                     else Number m1))
    end.
Proof.
  unfold registrationOf.
  rewrite every_not_load, startsWith_app.
  change (replace "every " "" (js "every " ++ rest))
    with (replace (js "every ") (js "") (js "every " ++ rest)).
  rewrite replace_prefix. reflexivity.
Qed.

Lemma allDigits_ends (d : jsstring) :
  allDigits d = true ->
  isDigit (hd 0%N d) = true /\ isDigit (last d 0%N) = true.
Proof.
  intros Hd. apply allDigits_spec in Hd as [Hne Hd]. split.
  - destruct d; [congruence|]. simpl in *. now apply andb_true_iff in Hd.
  - destruct (exists_last Hne) as (d' & c & ->).
    rewrite last_last. rewrite forallb_app in Hd. simpl in Hd.
    rewrite andb_true_r in Hd. now apply andb_true_iff in Hd.
Qed.

Lemma numeral_ends (num : jsstring) :
  isNumeral num = true ->
  num <> [] /\ isDigit (hd 0%N num) = true /\ isDigit (last num 0%N) = true.
Proof.
  intros Hn. apply isNumeral_inv in Hn as [Hd | (ip & fp & -> & Hi & Hf)].
  - split; [now apply allDigits_spec in Hd | now apply allDigits_ends].
  - apply allDigits_ends in Hi as [Hi _].
    pose proof (allDigits_ends _ Hf) as [_ Hl].
    apply allDigits_spec in Hf as [Hfne _].
    destruct ip as [|a ip]; [discriminate Hi|].
    repeat split; [discriminate | exact Hi |].
    destruct (exists_last Hfne) as (fp' & c & ->).
    rewrite last_last in Hl.
    change ((a :: ip) ++ 46%N :: fp' ++ [c])
      with ((a :: ip) ++ (46%N :: fp') ++ [c]).
    now rewrite app_assoc, last_last.
Qed.

Lemma trimEnd_id (s : jsstring) :
  isSpace (last s 0%N) = false -> trimEnd s = s.
Proof.
  induction s as [|c s IH]; [reflexivity|].
  destruct s as [|d s].
  - simpl. now intros ->.
  - intros Hl. change (last (c :: d :: s) 0%N) with (last (d :: s) 0%N) in Hl.
    cbn [trimEnd] in *. rewrite (IH Hl). reflexivity.
Qed.

Lemma trim_id (s : jsstring) :
  isSpace (hd 0%N s) = false -> isSpace (last s 0%N) = false -> trim s = s.
Proof.
  intros Hh Hl. unfold trim.
  destruct s as [|a s]; [reflexivity|]. simpl in Hh. cbn [trimStart].
  rewrite Hh. now apply trimEnd_id.
Qed.

Lemma numeral_unit_trimmed (num unit : jsstring) :
  isNumeral num = true -> isUnit unit = true ->
  trim (num ++ unit) = num ++ unit.
Proof.
  intros Hn Hu. apply numeral_ends in Hn as (Hne & Hh & Hl).
  apply trim_id.
  - destruct num; [congruence|]. now apply digit_not_space.
  - apply isUnit_inv in Hu as [->|[->| ->]].
    + rewrite app_nil_r. now apply digit_not_space.
    + change (js "ms") with ([109%N] ++ [115%N]).
      now rewrite app_assoc, last_last.
    + change (js "s") with [115%N]. now rewrite last_last.
Qed.

Lemma flat_map_nonempty {A B} (g : A -> list B) (l : list A) :
  flat_map g l <> [] <-> exists x, In x l /\ g x <> [].
Proof.
  induction l as [|a l IH]; simpl.
  - split; [congruence | intros (x & [] & _)].
  - split.
    + intros Hne. destruct (g a) eqn:Ea.
      * simpl in Hne. apply IH in Hne as (x & Hx & Hg). eauto.
      * exists a. split; [auto | congruence].
    + intros (x & [->|Hx] & Hg) Happ; apply app_eq_nil in Happ as [Ha Hl].
      * contradiction.
      * apply IH in Hl; eauto.
Qed.

(** C1, as the script has it: a missing or empty [hx-trigger] falls back
    to the single click listener, and that is the only fallback.  A
    non-empty value registers, in source order, one trigger for each of
    its comma-separated segments that is, once trimmed, non-empty and
    not a rejected ["every "] segment; so something is registered
    exactly when there is such a segment, and nothing otherwise. *)
Theorem fallback_only_for_missing_trigger :
  registrations None = [OnEvent "click"]
  /\ registrations (Some (js "")) = [OnEvent "click"]
  /\ forall (c : N) (s : jsstring),
       registrations (Some (c :: s))
       = flat_map (fun seg => optlist (registrationOf seg))
                  (filter truthy (map trim (split 44 (c :: s))))
       /\ (registrations (Some (c :: s)) <> []
           <-> exists seg, In seg (split 44 (c :: s))
                           /\ trim seg <> []
                           /\ registrationOf (trim seg) <> None).
Proof.
  split; [reflexivity|]. split; [reflexivity|].
  intros c s. split; [reflexivity|]. unfold registrations. cbn [parseTriggers].
  rewrite flat_map_nonempty. split.
  - intros (t & Hin & Hreg).
    apply filter_In in Hin as [Hin Ht].
    apply in_map_iff in Hin as (seg & <- & Hseg).
    exists seg. repeat split; [assumption | now apply truthy_nonempty |].
    destruct (registrationOf (trim seg)); [discriminate | now simpl in Hreg].
  - intros (seg & Hseg & Hne & Hreg).
    exists (trim seg). split.
    + apply filter_In. split; [now apply in_map | now apply truthy_nonempty].
    + destruct (registrationOf (trim seg)); [discriminate | congruence].
Qed.

(** C1 fails as stated: a value of only commas and blanks, and a value
    whose one segment is a rejected interval, register nothing. *)
Lemma no_fallback_for_blank_or_rejected :
  parseTriggers (Some (js " , ")) = []
  /\ registrations (Some (js " , ")) = []
  /\ registrations (Some (js "every abc")) = [].
Proof. repeat split; reflexivity. Qed.

(** C4: a trigger ["every <number><unit?>"], the number being decimal
    digits with an optional fraction, registers a timer whose period is
    [Number(number) * 1000] for the unit [s] and [Number(number)] for
    [ms] or no unit, so ["every 2s"] gives 2000 and ["every 500ms"]
    gives 500; when what follows ["every "] is, once trimmed, not such
    a number with an optional unit, nothing is registered for the
    trigger. *)
Theorem every_interval_period :
  (forall num unit : jsstring,
      isNumeral num = true -> isUnit unit = true ->
      registrationOf (js "every " ++ num ++ unit)
      = Some (Every (if streq unit "s" then mul (Number num) (ofN 1000)
                     else Number num)))
  /\ registrations (Some (js "every 2s")) = [Every (ofN 2000)]
  /\ registrations (Some (js "every 500ms")) = [Every (ofN 500)]
  /\ (forall rest : jsstring,
         isIntervalToken (trim rest) = false ->
         registrationOf (js "every " ++ rest) = None).
Proof.
  split; [|split; [|split]].
  - intros num unit Hn Hu.
    rewrite registrationOf_every, (numeral_unit_trimmed _ _ Hn Hu).
    rewrite (matchInterval_complete _ _ Hn Hu).
    apply isUnit_inv in Hu as [->|[->| ->]]; reflexivity.
  - vm_compute. reflexivity.
  - vm_compute. reflexivity.
  - intros rest Hbad.
    rewrite registrationOf_every, (matchInterval_malformed _ Hbad).
    reflexivity.
Qed.

Lemma every_interval_period_witness :
  registrationOf (js "every 1.5s")
  = Some (Every (mul (Number (js "1.5")) (ofN 1000)))
  /\ registrationOf (js "every 250")
     = Some (Every (Number (js "250")))
  /\ registrationOf (js "every abc") = None
  /\ registrationOf (js "every 2 s") = None.
Proof.
  destruct every_interval_period as (Hok & _ & _ & Hbad).
  split; [exact (Hok (js "1.5") (js "s") eq_refl eq_refl)|].
  split; [exact (Hok (js "250") (js "") eq_refl eq_refl)|].
  split; [exact (Hbad (js "abc") eq_refl) | exact (Hbad (js "2 s") eq_refl)].
Defined.

End TriggerFacts.

(* ================================================================= *)
(** ** Request URL *)

Section UrlFacts.
Context {B : Browser}.

Lemma includes_In (c : N) (s : jsstring) : includes [c] s = true <-> In c s.
Proof.
  induction s as [|d s IH].
  - simpl. split; [discriminate | tauto].
  - cbn [includes startsWith In]. rewrite orb_true_iff, andb_true_r, IH, N.eqb_eq.
    intuition congruence.
Qed.

Lemma toString_cons_truthy (nv : jsstring * jsstring)
  (params : list (jsstring * jsstring)) :
  truthy (toString (nv :: params)) = true.
Proof.
  unfold toString. cbn [map join].
  destruct (map _ params); [|rewrite <- app_assoc];
    destruct (urlencode (fst nv)); reflexivity.
Qed.

(** C7: without parameters the request goes to the declared path; with
    parameters the query string is appended to it, after ["&"] when the
    path already holds a ["?"] and after ["?"] otherwise. *)
Theorem final_url_appends_query (url : jsstring) (nv : jsstring * jsstring)
  (params : list (jsstring * jsstring)) :
  finalUrlOf url [] = url
  /\ (In 63%N url ->
      finalUrlOf url (nv :: params) = url ++ js "&" ++ toString (nv :: params))
  /\ (~ In 63%N url ->
      finalUrlOf url (nv :: params) = url ++ js "?" ++ toString (nv :: params)).
Proof.
  split; [reflexivity|].
  unfold finalUrlOf. rewrite toString_cons_truthy.
  change (js "?") with [63%N] at 1 3.
  split; intros Hq.
  - apply includes_In in Hq. now rewrite Hq.
  - destruct (includes [63%N] url) eqn:E; [|reflexivity].
    apply includes_In in E. contradiction.
Qed.

End UrlFacts.

(* ================================================================= *)
(** ** Parameter collection *)

Section CollectFacts.
Context {B : Browser}.

Lemma paramOf_contributes (e : element) :
  paramOf e = if contributes e then Some (nameOf e, currentValue e) else None.
Proof.
  unfold paramOf, contributes, hasName, nameOf, currentValue, isToggle.
  destruct (disabled e); [reflexivity|].
  destruct (getAttr "name" e) as [[|c name]|];
    [now rewrite andb_false_r | | now rewrite andb_false_r].
  rewrite andb_true_r. cbn [negb andb].
  destruct (match type e with
            | Some t => streq t "checkbox" || streq t "radio"
            | None => false
            end && negb (checked e)); reflexivity.
Qed.

Lemma collect_entries (p : page) (els : list nid) :
  flat_map (fun i => match lookup i (allNodes p) with
                     | Some e => optlist (paramOf e)
                     | None => []
                     end) els
  = map (fun e => (nameOf e, currentValue e))
        (filter contributes
                (flat_map (fun i => optlist (lookup i (allNodes p))) els)).
Proof.
  induction els as [|i els IH]; [reflexivity|].
  cbn [flat_map]. rewrite filter_app, map_app, <- IH. f_equal.
  destruct (lookup i (allNodes p)) as [e|]; [|reflexivity].
  cbn [optlist filter]. rewrite paramOf_contributes.
  destruct (contributes e); reflexivity.
Qed.

(** C5, as the script has it: for a selector the browser accepts, the
    collected parameters are the pairs [(name, value)] of the matching
    elements in tree order, leaving out the disabled ones, the
    unchecked checkboxes and radio buttons, and the ones whose [name]
    attribute is missing or empty; the page is left as it was.  No
    selector gives no parameters. *)
Theorem collect_skips_disabled_unchecked_nameless
  (selector : jsstring) (p : page) :
  collectParams None p = (Ok [], p)
  /\ collectParams (Some (js "")) p = (Ok [], p)
  /\ (selector <> [] -> selectorValid selector = true ->
      collectParams (Some selector) p
      = (Ok (map (fun e => (nameOf e, currentValue e))
                 (filter contributes (matched selector p))), p)).
Proof.
  split; [reflexivity|]. split; [reflexivity|].
  intros Hne Hvalid. destruct selector as [|c selector]; [congruence|].
  unfold collectParams, bind, querySelectorAll, gets. rewrite Hvalid.
  unfold matched. now rewrite collect_entries.
Qed.

End CollectFacts.

(* ================================================================= *)
(** ** How operations touch the page *)

Section Frames.
Context {B : Browser}.

Lemma pure_keeps {X A} (f : page -> X) (m : M A) : pure m -> keeps f m.
Proof. intros Hm p. now rewrite Hm. Qed.

Lemma pure_ret {A} (a : A) : pure (ret a).
Proof. intros p. reflexivity. Qed.

Lemma pure_gets {A} (g : page -> A) : pure (gets g).
Proof. intros p. reflexivity. Qed.

Lemma pure_bind {A C} (m : M A) (k : A -> M C) :
  pure m -> (forall a, pure (k a)) -> pure (bind m k).
Proof.
  intros Hm Hk p. unfold bind. specialize (Hm p).
  destruct (m p) as [[a|e] p1]; simpl in *; subst; [apply Hk | reflexivity].
Qed.

Lemma keeps_ret {X A} (f : page -> X) (a : A) : keeps f (ret a).
Proof. intros p. reflexivity. Qed.

Lemma keeps_throw {X A} (f : page -> X) (e : jsstring) : keeps f (throw (A:=A) e).
Proof. intros p. reflexivity. Qed.

Lemma keeps_bind {X A C} (f : page -> X) (m : M A) (k : A -> M C) :
  keeps f m -> (forall a, keeps f (k a)) -> keeps f (bind m k).
Proof.
  intros Hm Hk p. unfold bind. specialize (Hm p).
  destruct (m p) as [[a|e] p1]; simpl in *; [|assumption].
  now rewrite Hk.
Qed.

Lemma keeps_forEach {X A} (f : page -> X) (l : list A) (body : A -> M unit) :
  (forall a, keeps f (body a)) -> keeps f (forEach l body).
Proof.
  intros Hb. induction l as [|a l IH]; simpl.
  - apply keeps_ret.
  - apply keeps_bind; auto.
Qed.

Lemma keeps_tryCatchFinally {X} (f : page -> X) (body : M unit)
  (handler : jsstring -> M unit) (fin : M unit) :
  keeps f body -> (forall e, keeps f (handler e)) -> keeps f fin ->
  keeps f (tryCatchFinally body handler fin).
Proof.
  intros Hb Hh Hf p. unfold tryCatchFinally.
  specialize (Hb p). destruct (body p) as [[[]|e] p1]; simpl in Hb.
  - now rewrite Hf.
  - specialize (Hh e p1). destruct (handler e p1) as [[[]|e'] p2]; simpl in Hh.
    + rewrite Hf. congruence.
    + specialize (Hf p2). destruct (fin p2) as [[[]|e''] p3]; simpl in *; congruence.
Qed.

Lemma pure_getAttribute (i : nid) (name : jsstring) : pure (getAttribute i name).
Proof. apply pure_gets. Qed.

Lemma pure_querySelectorAll (selector : jsstring) : pure (querySelectorAll selector).
Proof.
  intros p. unfold querySelectorAll.
  destruct (selectorValid selector); reflexivity.
Qed.

Lemma pure_querySelector (selector : jsstring) : pure (querySelector selector).
Proof.
  apply pure_bind; [apply pure_querySelectorAll | intros; apply pure_ret].
Qed.

Lemma pure_collectParams (selector : option jsstring) : pure (collectParams selector).
Proof.
  destruct selector as [[|c s]|]; try apply pure_ret.
  apply pure_bind; [apply pure_querySelectorAll | intros; apply pure_gets].
Qed.

Lemma pure_resolveTarget (i : nid) : pure (resolveTarget i).
Proof.
  apply pure_bind; [apply pure_getAttribute|].
  intros [[|c s]|]; try apply pure_ret. apply pure_querySelector.
Qed.

Lemma pure_resolveIndicator : pure resolveIndicator.
Proof.
  apply pure_bind; [apply pure_gets|].
  intros [b|]; [|apply pure_ret].
  apply pure_bind; [apply pure_getAttribute|].
  intros [[|c s]|]; try apply pure_ret. apply pure_querySelector.
Qed.

Lemma keeps_setInnerHTML {X} (f : page -> X) (t : nid) (html : jsstring) :
  treeBlind f -> keeps f (setInnerHTML t html).
Proof.
  intros Hf p. unfold setInnerHTML.
  destruct (lookupNode t (allNodes p)) as [[d|i e old]|]; try reflexivity.
  destruct (labelAll _ _). apply Hf.
Qed.

Lemma keeps_setOuterHTML {X} (f : page -> X) (t : nid) (html : jsstring) :
  treeBlind f -> keeps f (setOuterHTML t html).
Proof.
  intros Hf p. unfold setOuterHTML.
  destruct (existsb (isElem t) (document p)); [reflexivity|].
  destruct (parentOf t (allNodes p)) as [[d|i e ks]|]; try reflexivity.
  destruct (lookupNode t (allNodes p)); [|reflexivity].
  destruct (labelAll _ _). apply Hf.
Qed.

Lemma keeps_applySwap {X} (f : page -> X) (t : option nid) (s html : jsstring) :
  treeBlind f -> keeps f (applySwap t s html).
Proof.
  intros Hf. destruct t as [t|]; [|apply keeps_ret].
  unfold applySwap. destruct (streq s "outerHTML");
    [now apply keeps_setOuterHTML | now apply keeps_setInnerHTML].
Qed.

Lemma keeps_updateClasses {X} (f : page -> X) (i : nid)
  (g : list jsstring -> list jsstring) :
  treeBlind f -> keeps f (updateClasses i g).
Proof. intros Hf p. apply Hf. Qed.

Lemma keeps_setAttribute {X} (f : page -> X) (i : nid) (name v : jsstring) :
  treeBlind f -> keeps f (setAttribute i name v).
Proof. intros Hf p. apply Hf. Qed.

Lemma keeps_attempt {X} (f : page -> X) (r : pending) (o : outcome) :
  treeBlind f -> keeps f (attempt r o).
Proof.
  intros Hf p. unfold attempt.
  assert (Ht : keeps f (tryBlock r o)).
  { unfold tryBlock. destruct o as [m|ok st [text|m]]; try apply keeps_throw.
    destruct (negb ok); now apply keeps_applySwap. }
  specialize (Ht p). destruct (tryBlock r o p) as [[[]|e] p1]; simpl in *.
  - assumption.
  - unfold catchBlock. rewrite (keeps_applySwap _ _ _ Hf). assumption.
Qed.

End Frames.

(* ================================================================= *)
(** ** Updating one element of a forest *)

Section UpdateFacts.

Lemma subtrees_update (t : nid) (g : element -> element) (n : node) :
  subtrees (updateElement t g n) = map (updateElement t g) (subtrees n).
Proof.
  revert n. fix IH 1. intros [d|i e ks]; [reflexivity|].
  cbn [updateElement subtrees map]. f_equal.
  induction ks as [|k ks IHks]; [reflexivity|].
  cbn [map flat_map]. now rewrite map_app, IH, IHks.
Qed.

Lemma subtrees_update_forest (t : nid) (g : element -> element) (f : list node) :
  flat_map subtrees (map (updateElement t g) f)
  = map (updateElement t g) (flat_map subtrees f).
Proof.
  induction f as [|n f IH]; [reflexivity|].
  cbn [map flat_map]. now rewrite map_app, subtrees_update, IH.
Qed.

Lemma isElem_update (i t : nid) (g : element -> element) (n : node) :
  isElem i (updateElement t g n) = isElem i n.
Proof. destruct n; reflexivity. Qed.

Lemma find_map_update (i t : nid) (g : element -> element) (l : list node) :
  find (isElem i) (map (updateElement t g) l)
  = option_map (updateElement t g) (find (isElem i) l).
Proof.
  induction l as [|n l IH]; [reflexivity|].
  cbn [map find]. rewrite isElem_update.
  destruct (isElem i n); [reflexivity | assumption].
Qed.

(** After an update, the element [i] is the old one, changed by [g]
    when [i] is the updated identity. *)
Lemma lookup_update (i t : nid) (g : element -> element) (f : list node) :
  lookup i (map (updateElement t g) f)
  = option_map (fun e => if N.eqb i t then g e else e) (lookup i f).
Proof.
  unfold lookup, lookupNode.
  rewrite subtrees_update_forest, find_map_update.
  destruct (find (isElem i) (flat_map subtrees f)) as [[d|j e ks]|] eqn:E;
    try reflexivity.
  apply find_some in E as [_ E]. simpl in E. apply N.eqb_eq in E. subst j.
  reflexivity.
Qed.

Lemma removeToken_absent (t : jsstring) (l : list jsstring) :
  existsb (streq t) (removeToken t l) = false.
Proof.
  unfold removeToken. induction l as [|x l IH]; [reflexivity|].
  cbn [filter]. destruct (streq t x) eqn:E; cbn [negb]; [assumption|].
  cbn [existsb]. now rewrite E.
Qed.

Lemma addToken_present (t : jsstring) (l : list jsstring) :
  existsb (streq t) (addToken t l) = true.
Proof.
  unfold addToken. destruct (existsb (streq t) l) eqn:E; [assumption|].
  rewrite existsb_app. simpl. now rewrite streq_refl, orb_true_r.
Qed.

End UpdateFacts.

(* ================================================================= *)
(** ** Positions in a forest *)

Section ForestFacts.

Lemma tree_ind' {I} (P : tree I -> Prop) :
  (forall d, P (Text d)) ->
  (forall i e ks, Forall P ks -> P (Elem i e ks)) ->
  forall n, P n.
Proof.
  intros HT HE. fix IH 1. intros [d|i e ks]; [apply HT|].
  apply HE. induction ks as [|k ks IHks]; constructor; [apply IH | exact IHks].
Qed.

Lemma ids_app (a b : list node) : ids (a ++ b) = ids a ++ ids b.
Proof. unfold ids. now rewrite !flat_map_app. Qed.

Lemma ids_elem (i : nid) (e : element) (ks : list node) :
  ids [Elem i e ks] = i :: ids ks.
Proof. unfold ids. cbn [flat_map subtrees idOf app]. now rewrite app_nil_r. Qed.

Lemma ids_cons (n : node) (f : list node) : ids (n :: f) = ids [n] ++ ids f.
Proof. change (n :: f) with ([n] ++ f). apply ids_app. Qed.

Lemma top_in_ids (t : nid) (f : list node) :
  existsb (isElem t) f = true -> In t (ids f).
Proof.
  induction f as [|n f IH]; [discriminate|].
  cbn [existsb]. rewrite ids_cons, in_app_iff, orb_true_iff.
  intros [Hn|Hf]; [left | right; auto].
  destruct n as [d|i e ks]; [discriminate|].
  simpl in Hn. apply N.eqb_eq in Hn. subst. rewrite ids_elem. now left.
Qed.

Lemma not_top (t : nid) (f : list node) :
  ~ In t (ids f) -> existsb (isElem t) f = false.
Proof.
  intros Hn. destruct (existsb (isElem t) f) eqn:E; [|reflexivity].
  now apply top_in_ids in E.
Qed.

Lemma subtrees_forest (f : list node) :
  flat_map subtrees f = flat_map (fun n => flat_map subtrees [n]) f.
Proof.
  induction f as [|n f IH]; [reflexivity|].
  cbn [flat_map]. now rewrite app_nil_r, IH.
Qed.

Lemma find_app_none {A} (g : A -> bool) (a b : list A) :
  find g a = None -> find g (a ++ b) = find g b.
Proof.
  induction a as [|x a IH]; [reflexivity|]. simpl.
  destruct (g x); [discriminate | exact IH].
Qed.

Lemma find_app_some {A} (g : A -> bool) (a b : list A) (x : A) :
  find g a = Some x -> find g (a ++ b) = Some x.
Proof.
  induction a as [|y a IH]; [discriminate|]. simpl.
  destruct (g y); [auto | exact IH].
Qed.

(** A predicate on nodes that can only hold of a node naming [t]
    somewhere below it finds nothing in a forest without [t]. *)
Lemma find_absent (t : nid) (g : node -> bool) (f : list node) :
  (forall n, g n = true -> In t (ids [n])) ->
  ~ In t (ids f) -> find g (flat_map subtrees f) = None.
Proof.
  intros Hg. induction f as [|n f IH]; [reflexivity|].
  rewrite ids_cons, in_app_iff. intros Hn.
  cbn [flat_map]. rewrite find_app_none; [apply IH; tauto|].
  assert (Hnn : ~ In t (ids [n])) by tauto. clear IH Hn.
  induction n as [d|i e ks IHks] using tree_ind'; [reflexivity|].
  cbn [subtrees find].
  destruct (g (Elem i e ks)) eqn:E; [now apply Hg in E|].
  rewrite ids_elem in Hnn. simpl in Hnn.
  assert (Hks : ~ In t (ids ks)) by tauto. clear Hnn E.
  induction IHks as [|k ks Hk _ IH]; [reflexivity|].
  rewrite ids_cons, in_app_iff in Hks.
  cbn [flat_map]. rewrite find_app_none; [apply IH; tauto | apply Hk; tauto].
Qed.

Lemma isElem_names (t : nid) (n : node) :
  isElem t n = true -> In t (ids [n]).
Proof. intros E. apply top_in_ids. simpl. now rewrite E. Qed.

Lemma hasChild_names (t : nid) (n : node) :
  existsb (isElem t) (childrenOf n) = true -> In t (ids [n]).
Proof.
  destruct n as [d|i e ks]; [discriminate|]. cbn [childrenOf].
  intros E. rewrite ids_elem. right. now apply top_in_ids.
Qed.

Lemma replaceNode_absent (t : nid) (new f : list node) :
  ~ In t (ids f) -> flat_map (replaceNode t new) f = f.
Proof.
  induction f as [|n f IH]; [reflexivity|].
  rewrite ids_cons, in_app_iff. intros Hn.
  cbn [flat_map]. rewrite IH by tauto.
  assert (Hnn : ~ In t (ids [n])) by tauto. clear IH Hn.
  enough (replaceNode t new n = [n]) as -> by reflexivity.
  induction n as [d|i e ks IHks] using tree_ind'; [reflexivity|].
  rewrite ids_elem in Hnn. simpl in Hnn. cbn [replaceNode].
  destruct (N.eqb_spec i t) as [->|_]; [tauto|].
  assert (Hks : ~ In t (ids ks)) by tauto. clear Hnn.
  do 2 f_equal.
  induction IHks as [|k ks Hk _ IH]; [reflexivity|].
  rewrite ids_cons, in_app_iff in Hks.
  cbn [flat_map]. rewrite Hk, IH by tauto. reflexivity.
Qed.

Lemma setChildren_absent (t : nid) (new f : list node) :
  ~ In t (ids f) -> map (setChildren t new) f = f.
Proof.
  induction f as [|n f IH]; [reflexivity|].
  rewrite ids_cons, in_app_iff. intros Hn.
  cbn [map]. rewrite IH by tauto.
  assert (Hnn : ~ In t (ids [n])) by tauto. clear IH Hn.
  f_equal.
  induction n as [d|i e ks IHks] using tree_ind'; [reflexivity|].
  rewrite ids_elem in Hnn. simpl in Hnn. cbn [setChildren].
  destruct (N.eqb_spec i t) as [->|_]; [tauto|].
  assert (Hks : ~ In t (ids ks)) by tauto. clear Hnn.
  f_equal.
  induction IHks as [|k ks Hk _ IH]; [reflexivity|].
  rewrite ids_cons, in_app_iff in Hks.
  cbn [map]. rewrite Hk, IH by tauto. reflexivity.
Qed.

Lemma NoDup_app_inv {A} (a b : list A) :
  NoDup (a ++ b) ->
  NoDup a /\ NoDup b /\ forall x, In x a -> ~ In x b.
Proof.
  induction a as [|y a IH]; simpl.
  - intros Hb. repeat split; [constructor | exact Hb | tauto].
  - intros Hn. inversion Hn as [|? ? Hy Hab]; subst.
    destruct (IH Hab) as (Ha & Hb & Hd).
    rewrite in_app_iff in Hy.
    repeat split; [constructor; tauto | exact Hb |].
    intros x [->|Hx]; [tauto | now apply Hd].
Qed.

Lemma siblings_separate (l h r : list nid) :
  NoDup (l ++ h ++ r) ->
  NoDup h /\ forall x, In x h -> ~ In x l /\ ~ In x r.
Proof.
  intros Hn. apply NoDup_app_inv in Hn as (_ & Hhr & Hl).
  apply NoDup_app_inv in Hhr as (Hh & _ & Hr).
  split; [exact Hh|]. intros x Hx. split; [|now apply Hr].
  intros Hxl. apply (Hl x Hxl). apply in_app_iff. now left.
Qed.

(** In a forest without repeated identities, what sits in the hole
    shares no identity with the context around it. *)
Lemma hole_separate (c : context) (h : list node) :
  NoDup (ids (plug c h)) ->
  NoDup (ids h) /\ forall x, In x (ids h) -> ~ In x (contextIds c).
Proof.
  revert h. induction c as [l r|c IH i e l r]; intros h; cbn [plug contextIds].
  - rewrite !ids_app. intros Hn.
    apply siblings_separate in Hn as [Hh Hsep]. split; [exact Hh|].
    intros x Hx. rewrite in_app_iff. specialize (Hsep x Hx). tauto.
  - intros Hn. apply IH in Hn as [Hn Hctx].
    rewrite ids_elem, !ids_app in Hn, Hctx.
    inversion Hn as [|? ? Hi Hkids]; subst.
    apply siblings_separate in Hkids as [Hh Hsep]. split; [exact Hh|].
    intros x Hx. specialize (Hsep x Hx).
    assert (Hin : In x (ids l ++ ids h ++ ids r))
      by (rewrite !in_app_iff; tauto).
    specialize (Hctx x (or_intror Hin)).
    cbn [In]. rewrite !in_app_iff.
    intros [->|[Hxl|[Hxr|Hxc]]]; tauto.
Qed.

Lemma hole_in_plug (c : context) (h : list node) (x : nid) :
  In x (ids h) -> In x (ids (plug c h)).
Proof.
  revert h. induction c as [l r|c IH i e l r]; intros h Hx; cbn [plug].
  - rewrite !ids_app, !in_app_iff. tauto.
  - apply IH. rewrite ids_elem, !ids_app. right.
    rewrite !in_app_iff. tauto.
Qed.

Lemma replaceNode_plug (t : nid) (new : list node) (c : context) (h : list node) :
  ~ In t (contextIds c) ->
  flat_map (replaceNode t new) (plug c h)
  = plug c (flat_map (replaceNode t new) h).
Proof.
  revert h. induction c as [l r|c IH i e l r]; intros h; cbn [plug contextIds].
  - rewrite in_app_iff. intros Hc.
    rewrite !flat_map_app.
    rewrite (@replaceNode_absent t new l), (@replaceNode_absent t new r) by tauto.
    reflexivity.
  - cbn [In]. rewrite !in_app_iff. intros Hc.
    rewrite IH by tauto. cbn [flat_map replaceNode].
    destruct (N.eqb_spec i t) as [->|_]; [tauto|].
    rewrite !flat_map_app, app_nil_r.
    rewrite (@replaceNode_absent t new l), (@replaceNode_absent t new r) by tauto.
    reflexivity.
Qed.

Lemma setChildren_plug (t : nid) (new : list node) (c : context) (h : list node) :
  ~ In t (contextIds c) ->
  map (setChildren t new) (plug c h) = plug c (map (setChildren t new) h).
Proof.
  revert h. induction c as [l r|c IH i e l r]; intros h; cbn [plug contextIds].
  - rewrite in_app_iff. intros Hc.
    rewrite !map_app.
    rewrite (@setChildren_absent t new l), (@setChildren_absent t new r) by tauto.
    reflexivity.
  - cbn [In]. rewrite !in_app_iff. intros Hc.
    rewrite IH by tauto. cbn [map setChildren].
    destruct (N.eqb_spec i t) as [->|_]; [tauto|].
    rewrite !map_app.
    rewrite (@setChildren_absent t new l), (@setChildren_absent t new r) by tauto.
    reflexivity.
Qed.

Lemma lookupNode_plug (t : nid) (c : context) (h rest : list node) (n : node) :
  ~ In t (contextIds c) ->
  lookupNode t h = Some n ->
  lookupNode t (plug c h ++ rest) = Some n.
Proof.
  unfold lookupNode.
  revert h. induction c as [l r|c IH i e l r]; intros h; cbn [plug contextIds].
  - rewrite in_app_iff. intros Hc Hh.
    rewrite !flat_map_app, <- !app_assoc.
    rewrite (@find_app_none _ _ (flat_map subtrees l))
      by (apply find_absent with (t := t); [apply isElem_names | tauto]).
    now apply find_app_some.
  - cbn [In]. rewrite !in_app_iff. intros Hc Hh.
    apply IH; [tauto|].
    cbn [flat_map subtrees]. rewrite app_nil_r, !flat_map_app.
    cbn [find isElem].
    destruct (N.eqb_spec i t) as [->|_]; [tauto|].
    rewrite (@find_app_none _ _ (flat_map subtrees l))
      by (apply find_absent with (t := t); [apply isElem_names | tauto]).
    now apply find_app_some.
Qed.

Lemma parentOf_plug (t : nid) (c : context) (h rest : list node) (n : node) :
  ~ In t (contextIds c) ->
  existsb (isElem t) h = false ->
  parentOf t h = Some n ->
  parentOf t (plug c h ++ rest) = Some n.
Proof.
  unfold parentOf.
  revert h n. induction c as [l r|c IH i e l r]; intros h n; cbn [plug contextIds].
  - rewrite in_app_iff. intros Hc _ Hh.
    rewrite !flat_map_app, <- !app_assoc.
    rewrite (@find_app_none _ _ (flat_map subtrees l))
      by (apply find_absent with (t := t); [apply hasChild_names | tauto]).
    now apply find_app_some.
  - cbn [In]. rewrite !in_app_iff. intros Hc Htop Hh.
    apply IH; [tauto | |].
    + cbn [existsb isElem]. destruct (N.eqb_spec i t) as [->|_]; [tauto|reflexivity].
    + cbn [flat_map subtrees]. rewrite app_nil_r, !flat_map_app.
      cbn [find childrenOf].
      rewrite !existsb_app, Htop.
      rewrite (@not_top t l), (@not_top t r) by tauto. cbn [orb].
      rewrite (@find_app_none _ _ (flat_map subtrees l))
        by (apply find_absent with (t := t); [apply hasChild_names | tauto]).
      now apply find_app_some.
Qed.

Lemma top_plug (t : nid) (c : context) (h : list node) :
  ~ In t (contextIds c) ->
  existsb (isElem t) (plug c h)
  = match c with
    | Top _ _ => existsb (isElem t) h
    | Below _ _ _ _ _ => false
    end.
Proof.
  revert h. induction c as [l r|c IH i e l r]; intros h; cbn [plug contextIds].
  - rewrite in_app_iff. intros Hc.
    rewrite !existsb_app.
    rewrite (@not_top t l), (@not_top t r) by tauto. now rewrite orb_false_r.
  - cbn [In]. rewrite !in_app_iff. intros Hc.
    rewrite IH by tauto.
    assert (Hi : existsb (isElem t) [Elem i e (l ++ h ++ r)] = false).
    { cbn [existsb isElem]. destruct (N.eqb_spec i t) as [->|_]; [tauto|reflexivity]. }
    destruct c; [exact Hi | reflexivity].
Qed.

Lemma label_elem (u : unit) (e : element) (ks : list markup) (next : nid) :
  label (Elem u e ks) next
  = let (ks', next') := labelAll ks (N.succ next) in (Elem next e ks', next').
Proof. reflexivity. Qed.

Lemma erase_label (m : markup) (next : nid) : erase (fst (label m next)) = m.
Proof.
  revert next. induction m as [d|[] e ks IHks] using tree_ind'; intros next;
    [reflexivity|].
  rewrite label_elem.
  destruct (labelAll ks (N.succ next)) as [ks' next'] eqn:E.
  cbn [fst erase]. f_equal.
  change ks' with (fst (ks', next')). rewrite <- E. clear E.
  generalize (N.succ next). clear next.
  induction IHks as [|k ks Hk _ IH]; intros n; [reflexivity|].
  cbn [labelAll]. specialize (Hk n).
  destruct (label k n) as [k' n1]. specialize (IH n1).
  destruct (labelAll ks n1) as [l' n2]. cbn [fst map] in *. congruence.
Qed.

(** Labelling only adds identities: erasing them gives the parsed
    markup back. *)
Lemma erase_labelAll (l : list markup) (next : nid) :
  map erase (fst (labelAll l next)) = l.
Proof.
  revert next. induction l as [|k l IH]; intros n; [reflexivity|].
  cbn [labelAll]. pose proof (erase_label k n) as Hk.
  destruct (label k n) as [k' n1]. specialize (IH n1).
  destruct (labelAll l n1) as [l' n2]. cbn [fst map] in *. congruence.
Qed.

End ForestFacts.

(* ================================================================= *)
(** ** Identities stay distinct *)

Section Identities.

Lemma occ_app (x : nid) (a b : list nid) : occ x (a ++ b) = occ x a + occ x b.
Proof. apply count_occ_app. Qed.

Lemma occ_cons (x y : nid) (l : list nid) :
  occ x (y :: l) = (if N.eq_dec y x then 1 else 0) + occ x l.
Proof. unfold occ. simpl. destruct (N.eq_dec y x); reflexivity. Qed.

Lemma NoDup_occ (l : list nid) : NoDup l <-> forall x, occ x l <= 1.
Proof. apply NoDup_count_occ. Qed.

Lemma In_occ (x : nid) (l : list nid) : In x l <-> occ x l > 0.
Proof. apply count_occ_In. Qed.

Lemma plug_prepend (n : node) (c : context) (h : list node) :
  plug (prepend n c) h = n :: plug c h.
Proof.
  revert h. induction c as [l r|c IH i e l r]; intros h; cbn [prepend plug];
    [reflexivity | apply IH].
Qed.

Lemma plug_extend (c : context) (right h : list node) :
  plug (extend c right) h = plug c h ++ right.
Proof.
  revert h. induction c as [l r|c IH i e l r]; intros h; cbn [extend plug].
  - now rewrite <- !app_assoc.
  - apply IH.
Qed.

Lemma plug_wrap (outer : context) (i : nid) (e : element) (c : context)
  (h : list node) :
  plug (wrap outer i e c) h = plug outer [Elem i e (plug c h)].
Proof.
  revert h. induction c as [l r|c IH j e' l r]; intros h; cbn [wrap plug];
    [reflexivity | apply IH].
Qed.

Lemma find_app {A} (g : A -> bool) (a b : list A) :
  find g (a ++ b) = match find g a with Some x => Some x | None => find g b end.
Proof.
  induction a as [|x a IH]; [reflexivity|]. simpl.
  destruct (g x); [reflexivity | exact IH].
Qed.

(** An element found in a forest sits at some position of it. *)
Lemma context_of (t : nid) (f : list node) (n : node) :
  lookupNode t f = Some n -> exists c, f = plug c [n].
Proof.
  unfold lookupNode.
  assert (Hnode : forall k,
             find (isElem t) (subtrees k) = Some n ->
             exists c, [k] = plug c [n]).
  { induction k as [d|i e ks IHks] using tree_ind'; [discriminate|].
    cbn [subtrees find].
    destruct (isElem t (Elem i e ks)).
    - intros E. inversion E; subst. now exists (Top [] []).
    - intros E.
      enough (exists c, ks = plug c [n]) as [c ->].
      { exists (wrap (Top [] []) i e c). now rewrite plug_wrap. }
      induction IHks as [|k ks Hk _ IH]; [discriminate|].
      cbn [flat_map] in E. rewrite find_app in E.
      destruct (find (isElem t) (subtrees k)) eqn:Ek.
      + inversion E; subst. destruct (Hk eq_refl) as [c Hc].
        exists (extend c ks). rewrite plug_extend, <- Hc. reflexivity.
      + destruct (IH E) as [c ->].
        exists (prepend k c). now rewrite plug_prepend. }
  induction f as [|k f IH]; [discriminate|].
  cbn [flat_map]. rewrite find_app.
  destruct (find (isElem t) (subtrees k)) eqn:Ek.
  - intros E. inversion E; subst. destruct (Hnode k Ek) as [c Hc].
    exists (extend c f). rewrite plug_extend, <- Hc. reflexivity.
  - intros E. destruct (IH E) as [c ->].
    exists (prepend k c). now rewrite plug_prepend.
Qed.

Lemma occ_plug (x : nid) (c : context) (h : list node) :
  occ x (ids (plug c h)) = occ x (contextIds c) + occ x (ids h).
Proof.
  revert h. induction c as [l r|c IH i e l r]; intros h; cbn [plug contextIds].
  - rewrite !ids_app, !occ_app. lia.
  - rewrite IH, ids_elem, !ids_app, !occ_cons, !occ_app. lia.
Qed.

Lemma ids_update (t : nid) (g : element -> element) (f : list node) :
  ids (map (updateElement t g) f) = ids f.
Proof.
  unfold ids. rewrite subtrees_update_forest.
  induction (flat_map subtrees f) as [|n l IH]; [reflexivity|].
  cbn [map flat_map]. rewrite IH. now destruct n.
Qed.

(** The identities a parse hands out are new, distinct and in order. *)
Lemma labelAll_fresh (l : list markup) (n : nid) :
  (n <= snd (labelAll l n))%N
  /\ NoDup (ids (fst (labelAll l n)))
  /\ forall i, In i (ids (fst (labelAll l n))) ->
               (n <= i < snd (labelAll l n))%N.
Proof.
  assert (Hnode : forall m n,
             (n <= snd (label m n))%N
             /\ NoDup (ids [fst (label m n)])
             /\ forall i, In i (ids [fst (label m n)]) ->
                          (n <= i < snd (label m n))%N).
  { induction m as [d|u e ks IHks] using tree_ind'; intros k.
    - cbn [label labelAll fst snd]. split; [lia|]. split; [constructor|].
      intros i [].
    - rewrite label_elem.
      enough (Hks : (N.succ k <= snd (labelAll ks (N.succ k)))%N
                    /\ NoDup (ids (fst (labelAll ks (N.succ k))))
                    /\ forall i, In i (ids (fst (labelAll ks (N.succ k)))) ->
                                 (N.succ k <= i < snd (labelAll ks (N.succ k)))%N).
      { destruct (labelAll ks (N.succ k)) as [ks' k']. cbn [fst snd] in *.
        destruct Hks as (Hle & Hnd & Hin). rewrite ids_elem.
        split; [lia|]. split.
        - constructor; [|exact Hnd]. intros Hk. apply Hin in Hk. lia.
        - intros i [<-|Hi]; [lia | apply Hin in Hi; lia]. }
      generalize (N.succ k). clear k.
      induction IHks as [|m ks Hm _ IH]; intros k.
      + cbn [labelAll fst snd]. split; [lia|]. split; [constructor|].
        intros i [].
      + cbn [labelAll]. specialize (Hm k).
        destruct (label m k) as [m' k1]. specialize (IH k1).
        destruct (labelAll ks k1) as [ks' k2]. cbn [fst snd] in *.
        destruct Hm as (Hle1 & Hnd1 & Hin1). destruct IH as (Hle2 & Hnd2 & Hin2).
        rewrite ids_cons. split; [lia|]. split.
        * apply NoDup_app; [assumption | assumption |].
          intros i Hi1 Hi2. apply Hin1 in Hi1. apply Hin2 in Hi2. lia.
        * intros i Hi. apply in_app_iff in Hi as [Hi|Hi];
            [apply Hin1 in Hi | apply Hin2 in Hi]; lia. }
  revert n. induction l as [|m l IH]; intros k.
  - cbn [labelAll fst snd]. split; [lia|]. split; [constructor|].
    intros i [].
  - cbn [labelAll]. specialize (Hnode m k).
    destruct (label m k) as [m' k1]. specialize (IH k1).
    destruct (labelAll l k1) as [l' k2]. cbn [fst snd] in *.
    destruct Hnode as (Hle1 & Hnd1 & Hin1). destruct IH as (Hle2 & Hnd2 & Hin2).
    rewrite ids_cons. split; [lia|]. split.
    + apply NoDup_app; [assumption | assumption |].
      intros i Hi1 Hi2. apply Hin1 in Hi1. apply Hin2 in Hi2. lia.
    + intros i Hi. apply in_app_iff in Hi as [Hi|Hi];
        [apply Hin1 in Hi | apply Hin2 in Hi]; lia.
Qed.

Lemma in_plug (x : nid) (c : context) (h : list node) :
  In x (ids (plug c h)) <-> In x (contextIds c) \/ In x (ids h).
Proof. rewrite !In_occ, occ_plug. lia. Qed.

Lemma lookupNode_is (t : nid) (f : list node) (n : node) :
  lookupNode t f = Some n -> exists e ks, n = Elem t e ks.
Proof.
  unfold lookupNode. intros E. apply find_some in E as [_ E].
  destruct n as [d|i e ks]; [discriminate|].
  simpl in E. apply N.eqb_eq in E. subst. eauto.
Qed.

(** An element of a forest sits at a position of it. *)
Lemma position_of (t : nid) (f : list node) :
  In t (ids f) -> exists c e ks, f = plug c [Elem t e ks].
Proof.
  intros Hin. unfold ids in Hin. apply in_flat_map in Hin as (n & Hn & Ht).
  destruct n as [d|i e ks]; [destruct Ht|].
  destruct Ht as [->|[]].
  destruct (lookupNode t f) as [m|] eqn:E.
  - destruct (lookupNode_is _ _ E) as (e' & ks' & ->).
    destruct (context_of _ _ E) as [c Hc]. now exists c, e', ks'.
  - unfold lookupNode in E.
    apply (find_none _ _ E) in Hn. cbn [isElem] in Hn.
    now rewrite N.eqb_refl in Hn.
Qed.

(** Trading the subtree at a position for freshly labelled nodes, and
    keeping the old subtree on the side, repeats no identity. *)
Lemma exchange_distinct (c : context) (t : nid) (e : element)
  (old new : list node) (next next' : nid) :
  NoDup (ids (plug c [Elem t e old])) ->
  (forall i, In i (ids (plug c [Elem t e old])) -> (i < next)%N) ->
  (next <= next')%N ->
  NoDup (ids new) ->
  (forall i, In i (ids new) -> (next <= i < next')%N) ->
  (NoDup (ids (plug c [Elem t e new] ++ old))
   /\ forall i, In i (ids (plug c [Elem t e new] ++ old)) -> (i < next')%N)
  /\ (NoDup (ids (plug c new ++ [Elem t e old]))
      /\ forall i, In i (ids (plug c new ++ [Elem t e old])) -> (i < next')%N).
Proof.
  intros Hnd Hlt Hle Hnew Hfresh.
  assert (Hocc : forall x,
             occ x (contextIds c) + occ x (ids [Elem t e old]) <= 1
             /\ occ x (ids new) <= 1
             /\ (occ x (ids new) > 0 ->
                 occ x (contextIds c) + occ x (ids [Elem t e old]) = 0)).
  { intros x. rewrite <- occ_plug. split; [now apply NoDup_occ|].
    split; [now apply NoDup_occ|].
    intros Hx. apply In_occ in Hx. apply Hfresh in Hx.
    destruct (Nat.eq_dec (occ x (ids (plug c [Elem t e old]))) 0) as [|Hpos];
      [assumption|].
    assert (Hin : In x (ids (plug c [Elem t e old])))
      by (apply In_occ; lia).
    apply Hlt in Hin. lia. }
  assert (Hbound : forall i,
             In i (contextIds c) \/ In i (ids [Elem t e old]) \/ In i (ids new) ->
             (i < next')%N).
  { intros i [Hi|[Hi|Hi]].
    - assert (In i (ids (plug c [Elem t e old]))) as Hin
          by (apply in_plug; now left).
      apply Hlt in Hin. lia.
    - assert (In i (ids (plug c [Elem t e old]))) as Hin
          by (apply in_plug; now right).
      apply Hlt in Hin. lia.
    - apply Hfresh in Hi. lia. }
  rewrite !ids_elem in *.
  repeat split.
  - apply NoDup_occ. intros x. specialize (Hocc x).
    rewrite ids_app, occ_app, occ_plug, ids_elem, !occ_cons in *. lia.
  - intros i Hi. apply Hbound.
    rewrite ids_app, in_app_iff, in_plug, ids_elem in Hi. cbn [In] in *. tauto.
  - apply NoDup_occ. intros x. specialize (Hocc x).
    rewrite ids_app, occ_app, occ_plug, ids_elem, !occ_cons in *. lia.
  - intros i Hi. apply Hbound.
    rewrite ids_app, in_app_iff, in_plug, ids_elem in Hi. cbn [In] in *. tauto.
Qed.

End Identities.

(* ================================================================= *)
(** ** The request lifecycle *)

Section Lifecycle.
Context {B : Browser}.

Lemma emitAfterRequest_run (v u : jsstring) (p : page) :
  emitAfterRequest v u p
  = (Ok tt, match body p with
            | Some b =>
                withEvents (events p ++ [afterRequest v u b (document p)]) p
            | None => p
            end).
Proof.
  unfold emitAfterRequest, bind, gets. destruct (body p); reflexivity.
Qed.

Lemma deactivate_run (r : pending) (p : page) :
  deactivate r p = (Ok tt, run (deactivate r) p).
Proof. unfold deactivate, run. destruct (indicator r); reflexivity. Qed.

Lemma finalizer_run (r : pending) (p : page) :
  finalizer r p = (Ok tt, run (notify r) (run (deactivate r) p)).
Proof.
  unfold finalizer, notify, run, bind.
  change (match indicator r with
          | Some i => classListRemove i "htmx-request"
          | None => ret tt
          end) with (deactivate r).
  rewrite deactivate_run. cbn [snd]. now rewrite emitAfterRequest_run.
Qed.

(** The [finally] block runs after the [try] and [catch] blocks,
    whichever way they end, and does not change how they ended. *)
Lemma resume_shape (r : pending) (o : outcome) (p : page) :
  requestForResume r o p
  = (fst (attempt r o p),
     run (notify r) (run (deactivate r) (snd (attempt r o p)))).
Proof.
  unfold requestForResume, tryCatchFinally, attempt.
  destruct (tryBlock r o p) as [[[]|e] p1].
  - now rewrite finalizer_run.
  - destruct (catchBlock r e p1) as [[[]|e'] p2]; now rewrite finalizer_run.
Qed.

Lemma events_treeBlind : treeBlind events.
Proof. intros doc det next p. reflexivity. Qed.

Lemma events_deactivate (r : pending) (p : page) :
  events (run (deactivate r) p) = events p.
Proof.
  unfold run, deactivate. destruct (indicator r); reflexivity.
Qed.

Lemma events_notify (r : pending) (p : page) :
  events (run (notify r) p)
  = events p ++ match body p with
                | Some b => [afterRequest "get" (finalUrl r) b (document p)]
                | None => []
                end.
Proof.
  unfold run, notify. rewrite emitAfterRequest_run.
  destruct (body p); simpl; [reflexivity | now rewrite app_nil_r].
Qed.

Lemma allNodes_notify (r : pending) (p : page) :
  allNodes (run (notify r) p) = allNodes p.
Proof.
  unfold run, notify. rewrite emitAfterRequest_run.
  cbn [snd]. destruct (body p); reflexivity.
Qed.

(** Once deactivated, the indicator is off. *)
Lemma deactivate_inactive (r : pending) (p : page) (i : nid) (e : element) :
  indicator r = Some i ->
  lookup i (allNodes (run (deactivate r) p)) = Some e ->
  existsb (streq "htmx-request") (classList e) = false.
Proof.
  intros Hi. unfold run, deactivate. rewrite Hi.
  unfold classListRemove, updateClasses, modify, allNodes.
  cbn [snd document detached withTrees].
  rewrite <- map_app, lookup_update, N.eqb_refl.
  destruct (lookup i (document p ++ detached p)) as [e0|]; [|discriminate].
  intros E. inversion E; subst. apply removeToken_absent.
Qed.

Lemma indicator_inactive (r : pending) (p : page) (i : nid) (e : element) :
  indicator r = Some i ->
  lookup i (allNodes (run (notify r) (run (deactivate r) p))) = Some e ->
  existsb (streq "htmx-request") (classList e) = false.
Proof. rewrite allNodes_notify. apply deactivate_inactive. Qed.


Lemma find_map_compat {A} (g : A -> bool) (h : A -> A) (l : list A) :
  (forall x, g (h x) = g x) ->
  find g (map h l) = option_map h (find g l).
Proof.
  intros Hg. induction l as [|x l IH]; [reflexivity|].
  cbn [map find]. rewrite Hg. destruct (g x); [reflexivity | exact IH].
Qed.

(** Changing classes moves no body. *)
Lemma bodyIn_classes (j : nid) (g : list jsstring -> list jsstring)
  (doc : list node) :
  bodyIn (map (updateElement j (setClasses g)) doc) = bodyIn doc.
Proof.
  unfold bodyIn.
  rewrite find_map_compat by (intros [d|i e ks]; reflexivity).
  destruct (find isElement doc) as [[d|i e ks]|]; try reflexivity.
  cbn [option_map updateElement].
  assert (Ht : tagName (if N.eqb i j then setClasses g e else e) = tagName e)
    by (destruct (N.eqb i j); reflexivity).
  rewrite Ht. destruct (streq (tagName e) "HTML"); [|reflexivity].
  rewrite find_map_compat.
  - destruct (find isBody ks) as [[d|b eb kb]|]; reflexivity.
  - intros [d|b eb kb]; [reflexivity|]. cbn [updateElement isBody].
    now destruct (N.eqb b j).
Qed.

Lemma body_deactivate (r : pending) (p : page) :
  body (run (deactivate r) p) = body p.
Proof.
  unfold run, deactivate, body.
  destruct (indicator r) as [j|]; [|reflexivity].
  unfold classListRemove, updateClasses, modify.
  cbn [snd document withTrees]. apply bodyIn_classes.
Qed.

Lemma keeps_modify {X} (f : page -> X) (g : page -> page) :
  (forall p, f (g p) = f p) -> keeps f (modify g).
Proof. intros Hg p. apply Hg. Qed.

Lemma keeps_requestForStart {X} (f : page -> X) (i : nid) :
  treeBlind f -> blind f withRequests -> keeps f (requestForStart i).
Proof.
  intros Ht Hr. unfold requestForStart.
  apply keeps_bind; [apply pure_keeps, pure_getAttribute|].
  intros [[|c u]|]; try apply keeps_ret.
  apply keeps_bind; [apply pure_keeps, pure_getAttribute | intros include].
  apply keeps_bind; [apply pure_keeps, pure_collectParams | intros params].
  apply keeps_bind; [apply pure_keeps, pure_resolveTarget | intros t].
  apply keeps_bind; [apply pure_keeps, pure_getAttribute | intros hxSwap].
  apply keeps_bind; [apply pure_keeps, pure_resolveIndicator | intros ind].
  apply keeps_bind.
  { destruct ind; [now apply keeps_updateClasses | apply keeps_ret]. }
  intros _. apply keeps_bind; [|intros; apply keeps_ret].
  apply keeps_modify. intros p. apply Hr.
Qed.

Lemma keeps_requestFor {X} (f : page -> X) (i : nid) :
  treeBlind f -> blind f withRequests -> blind f withInflight ->
  keeps f (requestFor i).
Proof.
  intros Ht Hr Hi p. unfold requestFor.
  pose proof (keeps_requestForStart i Ht Hr p) as Hs.
  destruct (requestForStart i p) as [[[r|]|e] p1]; simpl in *; try assumption.
  now rewrite Hi.
Qed.

Lemma keeps_requestForResume {X} (f : page -> X) (r : pending) (o : outcome) :
  treeBlind f -> blind f withEvents -> keeps f (requestForResume r o).
Proof.
  intros Ht He p. rewrite resume_shape. cbn [snd].
  unfold run, notify. rewrite emitAfterRequest_run. cbn [snd].
  assert (Hd : f (snd (deactivate r (snd (attempt r o p)))) = f p).
  { unfold deactivate. destruct (indicator r).
    - unfold classListRemove. rewrite (keeps_updateClasses _ _ Ht).
      now apply keeps_attempt.
    - now apply keeps_attempt. }
  destruct (body _); [now rewrite He | assumption].
Qed.


(** What a request that gets past the guard is made of: every part
    comes from the page as it is when the element fires. *)
Lemma requestForStart_reads_now (i : nid) (p p' : page) (r : pending) :
  requestForStart i p = (Ok (Some r), p') ->
  exists u params,
    attributeOf p i "hx-get" = Some u /\ u <> []
    /\ collectParams (attributeOf p i "hx-include") p = (Ok params, p)
    /\ resolveTarget i p = (Ok (target r), p)
    /\ swap r = orElse (attributeOf p i "hx-swap") "innerHTML"
    /\ finalUrl r = finalUrlOf u params
    /\ resolveIndicator p = (Ok (indicator r), p)
    /\ requests p'
       = requests p ++ [{| url := finalUrl r;
                           headers := [(js "HX-Request", js "true")] |}].
Proof.
  unfold requestForStart, bind, getAttribute, gets.
  destruct (attributeOf p i "hx-get") as [[|c u]|]; try discriminate.
  pose proof (pure_collectParams (attributeOf p i "hx-include") p) as Hc.
  destruct (collectParams (attributeOf p i "hx-include") p) as [[params|e] p1];
    [|discriminate].
  cbn [snd] in Hc. subst p1.
  pose proof (pure_resolveTarget i p) as Ht.
  destruct (resolveTarget i p) as [[t|e] p1]; [|discriminate].
  cbn [snd] in Ht. subst p1.
  pose proof (pure_resolveIndicator p) as Hi.
  destruct (resolveIndicator p) as [[ind|e] p1]; [|discriminate].
  cbn [snd] in Hi. subst p1.
  intros E. exists (c :: u), params.
  assert (Hr : r = {| target := t;
                      swap := orElse (attributeOf p i "hx-swap") "innerHTML";
                      finalUrl := finalUrlOf (c :: u) params;
                      indicator := ind |}
               /\ requests p'
                  = requests p ++ [{| url := finalUrlOf (c :: u) params;
                                      headers := [(js "HX-Request", js "true")] |}]).
  { destruct ind as [j|];
      unfold classListAdd, updateClasses, fetch, modify, ret in E;
      inversion E; subst; split; reflexivity. }
  destruct Hr as [-> Hreq]. cbn [target swap finalUrl indicator].
  repeat split; solve [reflexivity | discriminate | exact Hreq].
Qed.


(** C3, as the script has it.  Every branch swaps into the target and
    with the strategy fixed before the fetch.  A rejected fetch, or a
    body that cannot be read, swaps in a warning block around the error
    message; a response that is not ok swaps in a warning block around
    its body, or around its status text when the body is empty; an ok
    response swaps in its body. *)
Theorem failure_swaps_warning_block (r : pending) (p : page) :
  (forall message,
      attempt r (NetworkError message) p
      = applySwap (target r) (swap r) (warning message) p)
  /\ (forall ok statusText message,
         attempt r (Response ok statusText (Throw message)) p
         = applySwap (target r) (swap r) (warning message) p)
  /\ (forall statusText text,
         tryBlock r (Response false statusText (Ok text)) p
         = applySwap (target r) (swap r)
             (warning (if truthy text then text else statusText)) p)
  /\ (forall statusText text,
         tryBlock r (Response true statusText (Ok text)) p
         = applySwap (target r) (swap r) text p)
  /\ (forall content,
         warning content
         = js "<div class=" ++ [34%N] ++ js "warning" ++ [34%N] ++ js ">"
              ++ content ++ js "</div>").
Proof. repeat split. Qed.

(** C6: a settled request dispatches, when the document has a body
    once the response is swapped in, exactly one event: an
    [htmx:afterRequest] on that body, whose detail holds under
    [requestConfig] the verb ["get"] and as path the URL the request
    fetched; without a body it dispatches nothing.  Nothing else
    dispatches: every event of every step of the script is such an
    event, dispatched on the body of the document as it then is, and
    comes from the request that the step settles. *)
Theorem notification_carries_verb_and_path :
  (forall (r : pending) (o : outcome) (p : page) (b : nid),
      body (snd (attempt r o p)) = Some b ->
      exists doc,
        events (run (requestForResume r o) p)
        = events p ++
          [{| eventType := "htmx:afterRequest";
              detail := {| requestConfig :=
                             {| verb := "get"; path := finalUrl r |} |};
              eventTarget := b;
              seen := doc |}]
        /\ bodyIn doc = Some b)
  /\ (forall (r : pending) (o : outcome) (p : page),
         body (snd (attempt r o p)) = None ->
         events (run (requestForResume r o) p) = events p)
  /\ (forall (i : nid) (p p' : page) (r : pending),
         requestForStart i p = (Ok (Some r), p') ->
         requests p'
         = requests p ++ [{| url := finalUrl r;
                             headers := [(js "HX-Request", js "true")] |}])
  /\ (forall (i : input) (p : page),
         exists new,
           events (step i p) = events p ++ new
           /\ Forall isCompletion new
           /\ forall ev, In ev new ->
                exists k o r,
                  i = Settle k o
                  /\ nth_error (inflight p) k = Some r
                  /\ path (requestConfig (detail ev)) = finalUrl r
                  /\ new = [ev]).
Proof.
  assert (Hresume : forall r o p,
             events (run (requestForResume r o) p)
             = events p ++ match body (snd (attempt r o p)) with
                           | Some b =>
                               [afterRequest "get" (finalUrl r) b
                                  (document (run (deactivate r)
                                                 (snd (attempt r o p))))]
                           | None => []
                           end
             /\ bodyIn (document (run (deactivate r) (snd (attempt r o p))))
                = body (snd (attempt r o p))).
  { intros r o p. unfold run at 1. rewrite resume_shape. cbn [snd].
    rewrite events_notify, events_deactivate,
      (keeps_attempt r o events_treeBlind), body_deactivate.
    split; [reflexivity|]. apply body_deactivate. }
  split; [|split; [|split]].
  - intros r o p b Hb. destruct (Hresume r o p) as [He Hbody].
    rewrite Hb in He, Hbody. eexists. split; [exact He | exact Hbody].
  - intros r o p Hb. destruct (Hresume r o p) as [He _].
    now rewrite Hb, app_nil_r in He.
  - intros i p p' r E.
    destruct (requestForStart_reads_now i p E)
      as (_ & _ & _ & _ & _ & _ & _ & _ & _ & Hr).
    exact Hr.
  - assert (Hkeep : forall i, keeps events (requestFor i)).
    { intros i. apply keeps_requestFor; intros ? ?; reflexivity. }
    assert (Hnone : forall (i : input) q p, events q = events p ->
               exists new,
                 events q = events p ++ new /\ Forall isCompletion new
                 /\ forall ev, In ev new ->
                      exists k o r,
                        i = Settle k o
                        /\ nth_error (inflight p) k = Some r
                        /\ path (requestConfig (detail ev)) = finalUrl r
                        /\ new = [ev]).
    { intros i q p E. exists []. rewrite app_nil_r.
      split; [exact E|]. split; [constructor | intros ev []]. }
    intros [i name bubbles|k| |k o|i name v] p; cbn [step].
    + apply Hnone. unfold run. apply keeps_forEach. intros l.
      apply keeps_bind; [|intros; apply keeps_ret].
      unfold listener. apply keeps_bind; [apply pure_keeps, pure_gets | intros tag].
      apply keeps_bind; [apply Hkeep | intros; apply keeps_ret].
    + destruct (nth_error (timers p) k) as [[i _]|]; apply Hnone;
        [apply Hkeep | reflexivity].
    + apply Hnone. unfold run. now rewrite (keeps_forEach _ _ Hkeep).
    + destruct (nth_error (inflight p) k) as [r|] eqn:Hk; [|now apply Hnone].
      destruct (Hresume r o (withInflight (firstn k (inflight p)
                                             ++ skipn (S k) (inflight p)) p))
        as [He Hbody].
      cbn [events withInflight] in He.
      destruct (body _) as [b|].
      * eexists. split; [exact He|]. split.
        -- constructor; [|constructor].
           split; [reflexivity|]. split; [reflexivity | exact Hbody].
        -- intros ev [<-|[]]. exists k, o, r. repeat split. exact Hk.
      * apply Hnone. now rewrite app_nil_r in He.
    + apply Hnone. reflexivity.
Qed.


End Lifecycle.

(* ================================================================= *)
(** ** Swapping *)

Section SwapFacts.
Context {B : Browser}.

Lemma target_separate (p : page) (c : context) (t : nid) (et : element)
  (ks : list node) :
  document p = plug c [Elem t et ks] ->
  NoDup (ids (allNodes p)) ->
  ~ In t (contextIds c) /\ ~ In t (ids (detached p)).
Proof.
  intros Hdoc Hn. unfold allNodes in Hn. rewrite Hdoc, ids_app in Hn.
  apply NoDup_app_inv in Hn as (Hplug & _ & Hdet).
  pose proof (@hole_separate _ _ Hplug) as [_ Hctx].
  assert (Ht : In t (ids [Elem t et ks])) by (rewrite ids_elem; now left).
  split; [now apply Hctx | now apply Hdet, hole_in_plug].
Qed.

Lemma lookupNode_here (t : nid) (et : element) (ks : list node) :
  lookupNode t [Elem t et ks] = Some (Elem t et ks).
Proof.
  unfold lookupNode. cbn [flat_map subtrees app find isElem].
  now rewrite N.eqb_refl.
Qed.

Lemma parentOf_here (t i : nid) (e et : element) (l r ks : list node) :
  parentOf t [Elem i e (l ++ [Elem t et ks] ++ r)]
  = Some (Elem i e (l ++ [Elem t et ks] ++ r)).
Proof.
  unfold parentOf. cbn [flat_map subtrees app find childrenOf].
  rewrite !existsb_app. cbn [existsb isElem]. rewrite N.eqb_refl.
  now rewrite orb_true_r.
Qed.

(** [outerHTML] on a target below an element: the parsed fragment takes
    the target's place among its siblings. *)
Lemma setOuterHTML_below (p : page) (c : context) (i : nid) (e : element)
  (l r : list node) (t : nid) (et : element) (ks : list node) (html : jsstring) :
  document p = plug (Below c i e l r) [Elem t et ks] ->
  NoDup (ids (allNodes p)) ->
  setOuterHTML t html p
  = (Ok tt,
     withTrees
       (plug (Below c i e l r)
             (fst (labelAll (parseFragment (tagName e) html) (nextId p))))
       (detached p ++ [Elem t et ks])
       (snd (labelAll (parseFragment (tagName e) html) (nextId p))) p).
Proof.
  intros Hdoc Hn.
  destruct (@target_separate p _ t et ks Hdoc Hn) as [Hctx Hdet].
  unfold setOuterHTML, allNodes. rewrite Hdoc.
  rewrite (@top_plug t _ _ Hctx).
  cbn [plug]. cbn [contextIds In] in Hctx. rewrite !in_app_iff in Hctx.
  rewrite (@parentOf_plug t c _ (detached p) (Elem i e (l ++ [Elem t et ks] ++ r)));
    [| tauto | | apply parentOf_here].
  2:{ cbn [existsb isElem]. destruct (N.eqb_spec i t) as [->|_]; [tauto|reflexivity]. }
  change (plug c [Elem i e (l ++ [Elem t et ks] ++ r)])
    with (plug (Below c i e l r) [Elem t et ks]).
  rewrite (@lookupNode_plug t (Below c i e l r) _ (detached p) (Elem t et ks));
    [| cbn [contextIds In]; rewrite !in_app_iff; tauto | apply lookupNode_here].
  destruct (labelAll (parseFragment (tagName e) html) (nextId p)) as [new next].
  cbn [fst snd].
  rewrite replaceNode_plug
    by (cbn [contextIds In]; rewrite !in_app_iff; tauto).
  rewrite (@replaceNode_absent t new _ Hdet).
  cbn [flat_map replaceNode]. now rewrite N.eqb_refl, app_nil_r.
Qed.

(** [innerHTML]: the parsed fragment becomes the target's children; the
    target keeps its place, identity and attributes. *)
Lemma setInnerHTML_at (p : page) (c : context) (t : nid) (et : element)
  (ks : list node) (html : jsstring) :
  document p = plug c [Elem t et ks] ->
  NoDup (ids (allNodes p)) ->
  setInnerHTML t html p
  = (Ok tt,
     withTrees
       (plug c [Elem t et
                  (fst (labelAll (parseFragment (tagName et) html) (nextId p)))])
       (detached p ++ ks)
       (snd (labelAll (parseFragment (tagName et) html) (nextId p))) p).
Proof.
  intros Hdoc Hn.
  destruct (@target_separate p c t et ks Hdoc Hn) as [Hctx Hdet].
  unfold setInnerHTML, allNodes. rewrite Hdoc.
  rewrite (@lookupNode_plug t c _ (detached p) (Elem t et ks));
    [| exact Hctx | apply lookupNode_here].
  destruct (labelAll (parseFragment (tagName et) html) (nextId p)) as [new next].
  cbn [fst snd].
  rewrite (@setChildren_plug t new c _ Hctx), (@setChildren_absent t new _ Hdet).
  cbn [map setChildren]. now rewrite N.eqb_refl.
Qed.

End SwapFacts.

(* ================================================================= *)
(** ** Binding and firing *)

Section BindingFacts.
Context {B : Browser}.

Lemma getAttr_setAttr_same (name v : jsstring) (e : element) :
  getAttr name (setAttr name v e) = Some v.
Proof.
  unfold getAttr, setAttr. cbn [attributes].
  destruct (existsb (fun kv => streq (fst kv) name) (attributes e)) eqn:E.
  - induction (attributes e) as [|[k w] l IH]; [discriminate|].
    cbn [existsb map find fst] in *.
    destruct (streq k name) eqn:Ek.
    + cbn [find fst]. now rewrite streq_refl.
    + cbn [find fst]. rewrite Ek. apply IH. exact E.
  - induction (attributes e) as [|[k w] l IH].
    + cbn [app find fst]. now rewrite streq_refl.
    + cbn [existsb fst] in E. apply orb_false_iff in E as [Ek El].
      cbn [app find fst]. rewrite Ek. now apply IH.
Qed.

Lemma getAttr_setAttr_other (name other v : jsstring) (e : element) :
  other <> name -> getAttr other (setAttr name v e) = getAttr other e.
Proof.
  intros Hne. apply streq_neq in Hne.
  assert (Hname : streq name other = false).
  { apply streq_neq. apply streq_neq in Hne. congruence. }
  unfold getAttr, setAttr. cbn [attributes].
  destruct (existsb (fun kv => streq (fst kv) name) (attributes e)).
  - induction (attributes e) as [|[k w] l IH]; [reflexivity|].
    cbn [map find fst].
    destruct (streq k name) eqn:Ek.
    + cbn [find fst]. rewrite Hname.
      apply streq_eq in Ek. subst k. rewrite Hname. exact IH.
    + cbn [find fst]. destruct (streq k other); [reflexivity | exact IH].
  - induction (attributes e) as [|[k w] l IH].
    + cbn [app find fst]. now rewrite Hname.
    + cbn [app find fst]. destruct (streq k other); [reflexivity | exact IH].
Qed.

(** An attribute set by another script is what the next read sees. *)
Lemma attribute_after_set (p : page) (i : nid) (name v : jsstring) :
  lookup i (allNodes p) <> None ->
  attributeOf (step (SetAttribute i name v) p) i name = Some v.
Proof.
  intros Hi. unfold attributeOf, step, run, setAttribute, modify, allNodes.
  cbn [snd document detached withTrees].
  rewrite <- map_app, lookup_update, N.eqb_refl.
  unfold allNodes in Hi.
  destruct (lookup i (document p ++ detached p)); [|congruence].
  cbn [option_map]. apply getAttr_setAttr_same.
Qed.

(** No step of the event loop touches a component that the trees, the
    request log, the requests in flight, the events and the load
    bookkeeping do not reach. *)
Lemma step_keeps {X} (f : page -> X) :
  treeBlind f -> blind f withRequests -> blind f withInflight ->
  blind f withEvents -> blind f withLoading -> blind f withLoadListeners ->
  forall (i : input) (p : page), f (step i p) = f p.
Proof.
  intros Ht Hr Hi He Hl Hll.
  assert (Hkeep : forall i, keeps f (requestFor i))
    by (intros i; now apply keeps_requestFor).
  intros [i name|k| |k o|i name v] p; cbn [step].
  - unfold run. apply keeps_forEach. intros l.
    apply keeps_bind; [|intros; apply keeps_ret].
    unfold listener. apply keeps_bind; [apply pure_keeps, pure_gets | intros tag].
    apply keeps_bind; [apply Hkeep | intros; apply keeps_ret].
  - destruct (nth_error (timers p) k) as [[i _]|]; [apply Hkeep | reflexivity].
  - unfold run. rewrite (keeps_forEach _ _ Hkeep). now rewrite Hl, Hll.
  - destruct (nth_error (inflight p) k) as [r|]; [|reflexivity].
    unfold run. rewrite (keeps_requestForResume r o Ht He). apply Hi.
  - unfold run. now apply keeps_setAttribute.
Qed.

Lemma setup_trigger (i : nid) (trigger : jsstring) (p : page) :
  exists p1,
    setupTrigger i trigger p = (Ok tt, p1)
    /\ listeners p1 = listeners p ++ listenersOf i [trigger]
    /\ timers p1 = timers p ++ timersOf i [trigger].
Proof.
  unfold setupTrigger, listenersOf, timersOf. cbn [flat_map].
  destruct (registrationOf trigger) as [[|interval|name]|].
  - unfold bind, gets. destruct (loading p).
    + eexists. split; [reflexivity|]. cbn. now rewrite !app_nil_r.
    + pose proof (@keeps_requestFor _ _ listeners i) as Hl.
      pose proof (@keeps_requestFor _ _ timers i) as Ht.
      specialize (Hl ltac:(easy) ltac:(easy) ltac:(easy) p).
      specialize (Ht ltac:(easy) ltac:(easy) ltac:(easy) p).
      unfold requestFor in *.
      destruct (requestForStart i p) as [[[r|]|e] p1]; eexists;
        (split; [reflexivity|]); cbn [snd app] in *;
        rewrite !app_nil_r; split; assumption.
  - eexists. split; [reflexivity|]. cbn. now rewrite !app_nil_r.
  - eexists. split; [reflexivity|]. cbn. now rewrite !app_nil_r.
  - eexists. split; [reflexivity|]. cbn. now rewrite !app_nil_r.
Qed.

(** What [setupElement] registers is decided by the [hx-trigger] value
    of the page it runs on. *)
Lemma setupElement_registers (i : nid) (p : page) :
  let triggers := parseTriggers (attributeOf p i "hx-trigger") in
  listeners (run (setupElement i) p) = listeners p ++ listenersOf i triggers
  /\ timers (run (setupElement i) p) = timers p ++ timersOf i triggers.
Proof.
  unfold run, setupElement, bind, getAttribute, gets. cbn zeta.
  generalize (parseTriggers (attributeOf p i "hx-trigger")). intros l.
  enough (Hall : forall q, exists q',
             forEach l (setupTrigger i) q = (Ok tt, q')
             /\ listeners q' = listeners q ++ listenersOf i l
             /\ timers q' = timers q ++ timersOf i l).
  { destruct (Hall p) as (q' & -> & Hl & Ht). now split. }
  induction l as [|t l IH]; intros q.
  - exists q. cbn. now rewrite !app_nil_r.
  - cbn [forEach]. unfold bind.
    destruct (setup_trigger i t q) as (q1 & -> & Hl & Ht).
    destruct (IH q1) as (q' & -> & IHl & IHt).
    exists q'. split; [reflexivity|].
    rewrite IHl, IHt, Hl, Ht. unfold listenersOf, timersOf.
    cbn [flat_map]. now rewrite !app_nil_r, <- !app_assoc.
Qed.

End BindingFacts.

(* ================================================================= *)
(** ** Pages stay well formed *)

Section Soundness.
Context {B : Browser}.

Lemma sound_pure {A} (m : M A) : pure m -> sound m.
Proof. intros Hm p Hp. now rewrite Hm. Qed.

Lemma sound_ret {A} (a : A) : sound (ret a).
Proof. intros p Hp. exact Hp. Qed.

Lemma sound_throw {A} (e : jsstring) : sound (throw (A:=A) e).
Proof. intros p Hp. exact Hp. Qed.

Lemma sound_bind {A C} (m : M A) (k : A -> M C) :
  sound m -> (forall a, sound (k a)) -> sound (bind m k).
Proof.
  intros Hm Hk p Hp. unfold bind. specialize (Hm p Hp).
  destruct (m p) as [[a|e] p1]; cbn [snd] in *; [now apply Hk | assumption].
Qed.

Lemma sound_forEach {A} (l : list A) (body : A -> M unit) :
  (forall a, sound (body a)) -> sound (forEach l body).
Proof.
  intros Hb. induction l as [|a l IH]; cbn [forEach].
  - apply sound_ret.
  - apply sound_bind; auto.
Qed.

Lemma sound_tryCatchFinally (body : M unit) (handler : jsstring -> M unit)
  (fin : M unit) :
  sound body -> (forall e, sound (handler e)) -> sound fin ->
  sound (tryCatchFinally body handler fin).
Proof.
  intros Hb Hh Hf p Hp. unfold tryCatchFinally.
  specialize (Hb p Hp). destruct (body p) as [[[]|e] p1]; cbn [snd] in Hb.
  - now apply Hf.
  - specialize (Hh e p1 Hb). destruct (handler e p1) as [[[]|e'] p2];
      cbn [snd] in Hh.
    + now apply Hf.
    + specialize (Hf p2 Hh). destruct (fin p2) as [[[]|e''] p3]; exact Hf.
Qed.

(** Changes outside the trees. *)
Lemma sound_modify (g : page -> page) :
  (forall p, allNodes (g p) = allNodes p /\ nextId (g p) = nextId p) ->
  sound (modify g).
Proof.
  intros Hg p Hp. unfold modify, wellFormed in *. cbn [snd].
  destruct (Hg p) as [-> ->]. exact Hp.
Qed.

Lemma sound_update (i : nid) (g : element -> element) :
  sound (modify (fun p =>
                   withTrees (map (updateElement i g) (document p))
                             (map (updateElement i g) (detached p))
                             (nextId p) p)).
Proof.
  intros p Hp. unfold modify, wellFormed, allNodes in *.
  cbn [snd document detached nextId withTrees].
  now rewrite <- map_app, ids_update.
Qed.

Lemma sound_setInnerHTML (t : nid) (html : jsstring) : sound (setInnerHTML t html).
Proof.
  intros p [Hnd Hlt]. unfold setInnerHTML.
  destruct (lookupNode t (allNodes p)) as [n|] eqn:E; [|now split].
  destruct (lookupNode_is _ _ E) as (e & old & ->).
  destruct (context_of _ _ E) as [c Hc].
  pose proof (labelAll_fresh (parseFragment (tagName e) html) (nextId p))
    as (Hle & Hnew & Hfresh).
  destruct (labelAll (parseFragment (tagName e) html) (nextId p)) as [new next].
  cbn [fst snd] in *. rewrite Hc in Hnd, Hlt.
  destruct (@exchange_distinct c t e old new (nextId p) next
              Hnd Hlt Hle Hnew Hfresh) as [[Hnd' Hlt'] _].
  pose proof (@hole_separate _ _ Hnd) as [_ Hsep].
  assert (Hctx : ~ In t (contextIds c))
    by (apply Hsep; rewrite ids_elem; now left).
  unfold wellFormed, allNodes. cbn [document detached nextId withTrees].
  rewrite app_assoc, <- map_app.
  unfold allNodes in Hc. rewrite Hc, (@setChildren_plug t new c _ Hctx).
  cbn [map setChildren]. rewrite N.eqb_refl. now split.
Qed.

Lemma sound_setOuterHTML (t : nid) (html : jsstring) : sound (setOuterHTML t html).
Proof.
  intros p [Hnd Hlt]. unfold setOuterHTML.
  destruct (existsb (isElem t) (document p)); [now split|].
  destruct (parentOf t (allNodes p)) as [[d|i pe kids]|]; try now split.
  destruct (lookupNode t (allNodes p)) as [n|] eqn:E; [|now split].
  destruct (lookupNode_is _ _ E) as (e & old & ->).
  destruct (context_of _ _ E) as [c Hc].
  pose proof (labelAll_fresh (parseFragment (tagName pe) html) (nextId p))
    as (Hle & Hnew & Hfresh).
  destruct (labelAll (parseFragment (tagName pe) html) (nextId p)) as [new next].
  cbn [fst snd] in *. rewrite Hc in Hnd, Hlt.
  destruct (@exchange_distinct c t e old new (nextId p) next
              Hnd Hlt Hle Hnew Hfresh) as [_ [Hnd' Hlt']].
  pose proof (@hole_separate _ _ Hnd) as [_ Hsep].
  assert (Hctx : ~ In t (contextIds c))
    by (apply Hsep; rewrite ids_elem; now left).
  unfold wellFormed, allNodes. cbn [document detached nextId withTrees].
  rewrite app_assoc, <- flat_map_app.
  unfold allNodes in Hc. rewrite Hc, (@replaceNode_plug t new c _ Hctx).
  cbn [flat_map replaceNode]. rewrite N.eqb_refl, app_nil_r. now split.
Qed.

Lemma sound_applySwap (t : option nid) (s html : jsstring) :
  sound (applySwap t s html).
Proof.
  destruct t as [t|]; [|apply sound_ret]. unfold applySwap.
  destruct (streq s "outerHTML");
    [apply sound_setOuterHTML | apply sound_setInnerHTML].
Qed.

Lemma sound_requestForStart (i : nid) : sound (requestForStart i).
Proof.
  unfold requestForStart.
  apply sound_bind; [apply sound_pure, pure_getAttribute|].
  intros [[|c u]|]; try apply sound_ret.
  apply sound_bind; [apply sound_pure, pure_getAttribute | intros include].
  apply sound_bind; [apply sound_pure, pure_collectParams | intros params].
  apply sound_bind; [apply sound_pure, pure_resolveTarget | intros t].
  apply sound_bind; [apply sound_pure, pure_getAttribute | intros hxSwap].
  apply sound_bind; [apply sound_pure, pure_resolveIndicator | intros ind].
  apply sound_bind.
  { destruct ind; [apply sound_update | apply sound_ret]. }
  intros _. apply sound_bind; [|intros; apply sound_ret].
  apply sound_modify. intros p. now split.
Qed.

Lemma sound_requestFor (i : nid) : sound (requestFor i).
Proof.
  intros p Hp. unfold requestFor.
  pose proof (sound_requestForStart i Hp) as Hs.
  destruct (requestForStart i p) as [[[r|]|e] p1]; exact Hs.
Qed.

Lemma sound_requestForResume (r : pending) (o : outcome) :
  sound (requestForResume r o).
Proof.
  apply sound_tryCatchFinally.
  - unfold tryBlock. destruct o as [m|ok st [text|m]]; try apply sound_throw.
    destruct (negb ok); apply sound_applySwap.
  - intros e. apply sound_applySwap.
  - unfold finalizer. apply sound_bind.
    + destruct (indicator r); [apply sound_update | apply sound_ret].
    + intros _. unfold emitAfterRequest.
      apply sound_bind; [apply sound_pure, pure_gets|].
      intros [b|]; [|apply sound_ret].
      apply sound_modify. intros p. now split.
Qed.

Lemma sound_setupElement (i : nid) : sound (setupElement i).
Proof.
  apply sound_bind; [apply sound_pure, pure_getAttribute | intros hxTrigger].
  apply sound_forEach. intros trigger. unfold setupTrigger.
  destruct (registrationOf trigger) as [[|interval|name]|];
    try apply sound_ret; try (apply sound_modify; intros p; now split).
  apply sound_bind; [apply sound_pure, pure_gets|].
  intros [|]; [apply sound_modify; intros p; now split | apply sound_requestFor].
Qed.

(** Booting and every step of the event loop keep the page well
    formed: element identities stay distinct, whatever is swapped in,
    and the identities a later parse hands out are not in use. *)
Theorem pages_stay_well_formed (p : page) :
  wellFormed p ->
  wellFormed (run boot p) /\ forall i : input, wellFormed (step i p).
Proof.
  intros Hp. split.
  - apply (@sound_bind _ _ (querySelectorAll "[hx-get]")
             (fun els => forEach els setupElement));
      [apply sound_pure, pure_querySelectorAll | | exact Hp].
    intros els. apply sound_forEach, sound_setupElement.
  - intros [i name|k| |k o|i name v]; cbn [step].
    + apply sound_forEach; [|exact Hp]. intros l.
      apply sound_bind; [|intros; apply sound_ret].
      unfold listener. apply sound_bind; [apply sound_pure, pure_gets | intros tag].
      apply sound_bind; [apply sound_requestFor | intros; apply sound_ret].
    + destruct (nth_error (timers p) k) as [[i _]|];
        [now apply sound_requestFor | exact Hp].
    + apply sound_forEach; [intros a; apply sound_requestFor | exact Hp].
    + destruct (nth_error (inflight p) k) as [r|]; [|exact Hp].
      apply sound_requestForResume. exact Hp.
    + now apply sound_update.
Qed.

End Soundness.

(* ================================================================= *)
(** ** More on trigger parsing *)

Section TokenFacts.

Lemma split_segments_free (sep : N) (s seg : jsstring) :
  In seg (split sep s) -> ~ In sep seg.
Proof.
  revert seg. induction s as [|c s IH]; intros seg; cbn [split].
  - intros [<-|[]] [].
  - destruct (N.eqb_spec c sep) as [->|Hne].
    + intros [<-|Hin]; [intros [] | now apply IH].
    + pose proof (split_nonempty sep s) as Hn.
      destruct (split sep s) as [|seg0 segs]; [congruence|].
      intros [<-|Hin].
      * intros [E|Hin]; [congruence|]. apply (IH seg0); [now left | exact Hin].
      * apply IH. now right.
Qed.

Lemma trimStart_incl (s : jsstring) (x : N) : In x (trimStart s) -> In x s.
Proof.
  induction s as [|c s IH]; [tauto|]. cbn [trimStart].
  destruct (isSpace c); [right; auto | auto].
Qed.

Lemma trimEnd_incl (s : jsstring) (x : N) : In x (trimEnd s) -> In x s.
Proof.
  induction s as [|c s IH]; [tauto|]. cbn [trimEnd].
  destruct (trimEnd s) as [|d t].
  - destruct (isSpace c); [intros [] | intros [<-|[]]; now left].
  - intros [<-|Hin]; [now left | right; auto].
Qed.

Lemma trim_incl (s : jsstring) (x : N) : In x (trim s) -> In x s.
Proof. intros Hin. now apply trimStart_incl, trimEnd_incl. Qed.

Lemma trimStart_head (s : jsstring) : isSpace (hd 0%N (trimStart s)) = false.
Proof.
  induction s as [|c s IH]; [reflexivity|]. cbn [trimStart].
  destruct (isSpace c) eqn:E; [exact IH | exact E].
Qed.

Lemma trimEnd_last (s : jsstring) : isSpace (last (trimEnd s) 0%N) = false.
Proof.
  induction s as [|c s IH]; [reflexivity|]. cbn [trimEnd].
  destruct (trimEnd s) as [|d t].
  - destruct (isSpace c) eqn:E; [reflexivity | exact E].
  - exact IH.
Qed.

Lemma trimEnd_head (s : jsstring) :
  trimEnd s <> [] -> hd 0%N (trimEnd s) = hd 0%N s.
Proof.
  destruct s as [|c s]; [reflexivity|]. cbn [trimEnd].
  destruct (trimEnd s); [|reflexivity].
  destruct (isSpace c); [congruence | reflexivity].
Qed.

(** Trimming twice is trimming once. *)
Lemma trim_idempotent (s : jsstring) : trim (trim s) = trim s.
Proof.
  apply trim_id; unfold trim; [|apply trimEnd_last].
  destruct (trimEnd (trimStart s)) eqn:E; [reflexivity|].
  rewrite <- E, trimEnd_head by congruence. apply trimStart_head.
Qed.

(** What [parseTriggers] returns are tokens: non-empty, without blanks
    at either end and without a comma. *)
Lemma parseTriggers_tokens (value : option jsstring) (t : jsstring) :
  In t (parseTriggers value) -> t <> [] /\ trim t = t /\ ~ In 44%N t.
Proof.
  assert (Hclick : In t [DEFAULT_TRIGGER] -> t <> [] /\ trim t = t /\ ~ In 44%N t).
  { intros [<-|[]]. repeat split; [discriminate|].
    cbn. intros H. repeat destruct H as [H|H]; try discriminate H. exact H. }
  destruct value as [[|c s]|]; [exact Hclick | | exact Hclick].
  cbn [parseTriggers]. intros Hin.
  apply filter_In in Hin as [Hin Ht].
  apply in_map_iff in Hin as (seg & <- & Hseg).
  repeat split.
  - now apply truthy_nonempty.
  - apply trim_idempotent.
  - intros H44. apply trim_incl in H44.
    now apply (split_segments_free _ _ _ Hseg).
Qed.

Lemma split_join_free (sep : N) (l : list jsstring) :
  l <> [] -> (forall seg, In seg l -> ~ In sep seg) ->
  split sep (join [sep] l) = l.
Proof.
  induction l as [|a l IH]; [congruence|]. intros _ Hfree.
  assert (Ha : forallb (fun c => negb (N.eqb c sep)) a = true).
  { apply forallb_forall. intros c Hc.
    destruct (N.eqb_spec c sep) as [->|]; [|reflexivity].
    exfalso. apply (Hfree a); [now left | exact Hc]. }
  destruct l as [|b l].
  - cbn [join]. now apply split_no_sep.
  - change (join [sep] (a :: b :: l)) with (a ++ sep :: join [sep] (b :: l)).
    rewrite split_app_sep by exact Ha. f_equal.
    apply IH; [discriminate|]. intros seg Hseg. apply Hfree. now right.
Qed.

(** X1: every trigger [parseTriggers] returns is non-empty, has no
    white space at either end and holds no comma, whatever the
    attribute value was. *)
Theorem parsed_triggers_are_tokens (value : option jsstring) :
  Forall (fun t => t <> [] /\ trim t = t /\ ~ In 44%N t) (parseTriggers value).
Proof. apply Forall_forall. intros t. apply parseTriggers_tokens. Qed.

(** X2: writing the parsed triggers back as a comma-separated value
    and parsing that gives the same triggers: the parsed list is a
    normal form of the attribute value. *)
Theorem parse_is_stable_under_rejoining (value : option jsstring) :
  parseTriggers value <> [] ->
  parseTriggers (Some (join [44%N] (parseTriggers value))) = parseTriggers value.
Proof.
  intros Hne.
  pose proof (parseTriggers_tokens value) as Htok.
  remember (parseTriggers value) as l eqn:El. clear El value.
  assert (Hjoin : join [44%N] l <> []).
  { destruct l as [|a l]; [congruence|].
    destruct (Htok a (or_introl eq_refl)) as (Ha & _).
    destruct a as [|c a]; [congruence|].
    destruct l; cbn [join app]; discriminate. }
  destruct (join [44%N] l) as [|c s] eqn:Ej; [congruence|].
  cbn [parseTriggers]. rewrite <- Ej.
  rewrite split_join_free; [|exact Hne | intros seg Hseg; now apply Htok].
  clear Ej Hjoin Hne. induction l as [|a l IH]; [reflexivity|].
  cbn [map filter].
  destruct (Htok a (or_introl eq_refl)) as (Ha & Htrim & _).
  rewrite Htrim. apply truthy_nonempty in Ha. rewrite Ha.
  f_equal. apply IH. intros t Ht. apply Htok. now right.
Qed.

End TokenFacts.

(* ================================================================= *)
(** ** Before the fetch *)

Section StartFacts.
Context {B : Browser}.

(** Looking up with a selector either gives a result and leaves the
    page alone, or throws the syntax error of that selector. *)
Lemma querySelectorAll_cases (selector : jsstring) (p : page) :
  (selectorValid selector = true
   /\ querySelectorAll selector p
      = (Ok (filter (selectorMatches selector (document p))
                    (ids (document p))), p))
  \/ (selectorValid selector = false
      /\ querySelectorAll selector p
         = (Throw (syntaxErrorMessage selector), p)).
Proof.
  unfold querySelectorAll.
  destruct (selectorValid selector); [left | right]; now split.
Qed.

Lemma querySelector_cases (selector : jsstring) (p : page) :
  (selectorValid selector = true
   /\ querySelector selector p
      = (Ok (hd_error (filter (selectorMatches selector (document p))
                              (ids (document p)))), p))
  \/ (selectorValid selector = false
      /\ querySelector selector p
         = (Throw (syntaxErrorMessage selector), p)).
Proof.
  unfold querySelector, bind.
  destruct (querySelectorAll_cases selector p) as [[Hv ->]|[Hv ->]];
    [left | right]; now split.
Qed.

(** A call that got past the guard and the lookups leaves the page
    with the indicator switched on and the request recorded, and
    nothing else changed. *)
Lemma requestForStart_page (i : nid) (p p' : page) (r : pending) :
  requestForStart i p = (Ok (Some r), p') -> p' = started r p.
Proof.
  intros E.
  destruct (requestForStart_reads_now i p E)
    as (u & params & Hu & Hne & Hc & Ht & Hs & Hf & Hi & _).
  revert E. unfold requestForStart, bind, getAttribute, gets.
  rewrite Hu. destruct u as [|c u]; [congruence|].
  rewrite Hc, Ht, Hi. unfold started.
  destruct (indicator r) as [j|];
    unfold classListAdd, updateClasses, fetch, modify, ret;
    intros E; inversion E; subst; reflexivity.
Qed.

Lemma collectParams_cases (selector : option jsstring) (p : page) :
  (exists params, collectParams selector p = (Ok params, p))
  \/ (exists s, selector = Some s /\ selectorValid s = false
                /\ collectParams selector p = (Throw (syntaxErrorMessage s), p)).
Proof.
  destruct selector as [[|c s]|]; try (left; now exists []).
  unfold collectParams, bind, gets.
  destruct (querySelectorAll_cases (c :: s) p) as [[Hv ->]|[Hv ->]].
  - left. eexists. reflexivity.
  - right. exists (c :: s). auto.
Qed.

Lemma resolveTarget_cases (i : nid) (p : page) :
  (exists t, resolveTarget i p = (Ok t, p))
  \/ (exists s, attributeOf p i "hx-target" = Some s
                /\ selectorValid s = false
                /\ resolveTarget i p = (Throw (syntaxErrorMessage s), p)).
Proof.
  unfold resolveTarget, bind, getAttribute, gets.
  destruct (attributeOf p i "hx-target") as [[|c s]|];
    try (left; now exists (Some i)).
  destruct (querySelector_cases (c :: s) p) as [[Hv ->]|[Hv ->]].
  - left. eexists. reflexivity.
  - right. exists (c :: s). auto.
Qed.

Lemma resolveIndicator_cases (p : page) :
  (exists t, resolveIndicator p = (Ok t, p))
  \/ (exists b s, body p = Some b
                  /\ attributeOf p b "hx-indicator" = Some s
                  /\ selectorValid s = false
                  /\ resolveIndicator p = (Throw (syntaxErrorMessage s), p)).
Proof.
  unfold resolveIndicator, bind, getAttribute, gets.
  destruct (body p) as [b|]; [|left; now exists None].
  destruct (attributeOf p b "hx-indicator") as [[|c s]|] eqn:Ea;
    try (left; now exists None).
  destruct (querySelector_cases (c :: s) p) as [[Hv ->]|[Hv ->]].
  - left. eexists. reflexivity.
  - right. exists b, (c :: s). auto.
Qed.

(** A call that throws has changed nothing, and what it throws is the
    syntax error of one of its selectors. *)
Lemma requestForStart_throws (i : nid) (p p' : page) (e : jsstring) :
  requestForStart i p = (Throw e, p') ->
  p' = p
  /\ exists selector,
       In selector (selectorsOf p i)
       /\ selectorValid selector = false
       /\ e = syntaxErrorMessage selector.
Proof.
  unfold requestForStart, bind, getAttribute, gets, selectorsOf.
  destruct (attributeOf p i "hx-get") as [[|c u]|]; try discriminate.
  destruct (collectParams_cases (attributeOf p i "hx-include") p)
    as [[params ->]|(s & Hs & Hv & ->)].
  2:{ intros E. inversion E; subst. split; [reflexivity|].
      exists s. rewrite Hs. cbn [optlist app In]. auto. }
  destruct (resolveTarget_cases i p) as [[t ->]|(s & Hs & Hv & ->)].
  2:{ intros E. inversion E; subst. split; [reflexivity|].
      exists s. rewrite Hs, !in_app_iff. cbn [optlist In]. auto. }
  destruct (resolveIndicator_cases p) as [[ind ->]|(b & s & Hb & Hs & Hv & ->)].
  2:{ intros E. inversion E; subst. split; [reflexivity|].
      exists s. rewrite Hb, Hs, !in_app_iff. cbn [optlist In]. auto. }
  destruct ind as [j|];
    unfold classListAdd, updateClasses, fetch, modify, ret; discriminate.
Qed.

(** X3: a call of [requestFor] that fails before its fetch leaves the
    page exactly as it was (no indicator switched on, nothing
    fetched), and what it fails with is the syntax error of a selector
    the browser rejects, taken from the element's [hx-include] or
    [hx-target] or from the body's [hx-indicator]. *)
Theorem failed_start_changes_nothing (i : nid) (p p' : page) (e : jsstring) :
  requestForStart i p = (Throw e, p') ->
  p' = p
  /\ run (requestFor i) p = p
  /\ exists selector,
       In selector (selectorsOf p i)
       /\ selectorValid selector = false
       /\ e = syntaxErrorMessage selector.
Proof.
  intros E. destruct (requestForStart_throws i p E) as [-> Hsel].
  split; [reflexivity|]. split; [|exact Hsel].
  unfold run, requestFor. now rewrite E.
Qed.

(** X4: a call of [requestFor] that issues its request has, by then,
    changed the page in two ways only: the indicator it found, an
    element of the document, carries the class ["htmx-request"], and
    one request to the final URL, marked [HX-Request: true], is
    recorded; without an indicator the trees are untouched. *)
Theorem issued_request_activates_indicator (i : nid) (p p' : page)
  (r : pending) :
  requestForStart i p = (Ok (Some r), p') ->
  p' = started r p
  /\ (forall j, indicator r = Some j ->
        In j (ids (document p))
        /\ forall e, lookup j (allNodes p') = Some e ->
                     existsb (streq "htmx-request") (classList e) = true)
  /\ (indicator r = None ->
      document p' = document p /\ detached p' = detached p).
Proof.
  intros E. pose proof (requestForStart_page i p E) as ->.
  destruct (requestForStart_reads_now i p E)
    as (_ & _ & _ & _ & _ & _ & _ & _ & Hi & _).
  split; [reflexivity|]. split.
  - intros j Hj. rewrite Hj in Hi. split.
    + revert Hi. unfold resolveIndicator, bind, getAttribute, gets.
      destruct (body p) as [b|]; [|discriminate].
      destruct (attributeOf p b "hx-indicator") as [[|c s]|]; try discriminate.
      destruct (querySelector_cases (c :: s) p) as [[_ ->]|[_ ->]];
        [|discriminate].
      intros Hq. inversion Hq as [Hhd].
      destruct (filter _ _) as [|j' l] eqn:Ef; [discriminate|].
      inversion Hhd; subst.
      assert (Hin : In j (filter (selectorMatches (c :: s) (document p))
                                 (ids (document p))))
        by (rewrite Ef; now left).
      now apply filter_In in Hin.
    + intros e. unfold started, allNodes. rewrite Hj.
      cbn [document detached withRequests withTrees].
      rewrite <- map_app, lookup_update, N.eqb_refl.
      destruct (lookup j (document p ++ detached p)) as [e0|]; [|discriminate].
      intros He. inversion He; subst. apply addToken_present.
  - intros Hn. unfold started. rewrite Hn. now split.
Qed.

End StartFacts.


(* ================================================================= *)
(** ** More on parameters, targets and swaps *)

Section MoreSwapFacts.
Context {B : Browser}.

Lemma length_optlists {A C} (g : A -> option C) (l : list A) :
  List.length (flat_map (fun a => optlist (g a)) l) <= List.length l.
Proof.
  induction l as [|a l IH]; [reflexivity|].
  cbn [flat_map]. rewrite length_app. destruct (g a); cbn; lia.
Qed.

Lemma hd_filter {A} (g : A -> bool) (l : list A) (t : A) :
  hd_error (filter g l) = Some t ->
  exists pre post,
    l = pre ++ t :: post /\ g t = true /\ forallb (fun x => negb (g x)) pre = true.
Proof.
  induction l as [|a l IH]; [discriminate|]. cbn [filter].
  destruct (g a) eqn:Ea.
  - intros E. inversion E; subst. now exists [], l.
  - intros E. destruct (IH E) as (pre & post & -> & Ht & Hpre).
    exists (a :: pre), post. cbn [forallb app]. now rewrite Ea.
Qed.

(** X5: collecting parameters never changes the page, whether it
    succeeds or throws; no collected pair has an empty name, and there
    are never more pairs than elements in the document. *)
Theorem collected_names_are_nonempty (selector : option jsstring) (p : page) :
  snd (collectParams selector p) = p
  /\ forall params,
       fst (collectParams selector p) = Ok params ->
       Forall (fun nv => fst nv <> []) params
       /\ List.length params <= List.length (ids (document p)).
Proof.
  split; [apply pure_collectParams|].
  destruct selector as [[|c s]|];
    try (intros params E; inversion E; split; [constructor | cbn; lia]).
  unfold collectParams, bind, gets.
  destruct (querySelectorAll_cases (c :: s) p) as [[_ ->]|[_ ->]];
    [|discriminate].
  cbn [fst]. intros params E. inversion E as [Hp]. clear E Hp.
  rewrite collect_entries. split.
  - apply Forall_forall. intros nv Hin.
    apply in_map_iff in Hin as (e & <- & He).
    apply filter_In in He as [_ He]. cbn [fst].
    unfold contributes in He. rewrite !andb_true_iff in He.
    destruct He as [_ Hn]. unfold hasName, nameOf in *.
    destruct (getAttr "name" e) as [[|d n]|]; discriminate.
  - rewrite length_map.
    etransitivity; [apply filter_length_le|].
    etransitivity; [apply length_optlists|].
    apply filter_length_le.
Qed.

(** X6: the target of a firing is the element itself when [hx-target]
    is missing or empty, and otherwise the first element of the
    document, in tree order, that matches the selector; resolving it
    leaves the page alone. *)
Theorem target_is_self_or_first_match (i : nid) (p p' : page) (t : nid) :
  resolveTarget i p = (Ok (Some t), p') ->
  p' = p
  /\ ((orElse (attributeOf p i "hx-target") "" = js "" /\ t = i)
      \/ exists selector pre post,
           attributeOf p i "hx-target" = Some selector
           /\ selector <> []
           /\ ids (document p) = pre ++ t :: post
           /\ selectorMatches selector (document p) t = true
           /\ forallb (fun x => negb (selectorMatches selector (document p) x))
                      pre = true).
Proof.
  intros E. pose proof (pure_resolveTarget i p) as Hp.
  rewrite E in Hp. cbn [snd] in Hp. subst p'. split; [reflexivity|].
  revert E. unfold resolveTarget, bind, getAttribute, gets.
  destruct (attributeOf p i "hx-target") as [[|c s]|];
    try (intros E; inversion E; left; now split).
  destruct (querySelector_cases (c :: s) p) as [[_ ->]|[_ ->]]; [|discriminate].
  intros E. inversion E as [Hhd].
  destruct (hd_filter _ _ Hhd) as (pre & post & Hl & Ht & Hpre).
  right. exists (c :: s), pre, post. repeat split; try assumption. discriminate.
Qed.

Lemma setInnerHTML_ok (t : nid) (html : jsstring) (p : page) :
  fst (setInnerHTML t html p) = Ok tt.
Proof.
  unfold setInnerHTML.
  destruct (lookupNode t (allNodes p)) as [[d|i e old]|]; try reflexivity.
  now destruct (labelAll _ _).
Qed.

Lemma applySwap_result (t : option nid) (s html : jsstring) (p : page) :
  fst (applySwap t s html p)
  = (if rejects t s p then Throw noModificationAllowedMessage else Ok tt)
  /\ (rejects t s p = true -> snd (applySwap t s html p) = p).
Proof.
  destruct t as [t|]; [|now split]. unfold applySwap, rejects.
  destruct (streq s "outerHTML"); cbn [andb].
  - unfold setOuterHTML.
    destruct (existsb (isElem t) (document p)); [now split|].
    split; [|discriminate].
    destruct (parentOf t (allNodes p)) as [[d|i e ks]|]; try reflexivity.
    destruct (lookupNode t (allNodes p)); [|reflexivity].
    now destruct (labelAll _ _).
  - split; [apply setInnerHTML_ok | discriminate].
Qed.

(** X7: a settled request ends in an exception in one case only,
    whatever the fetch settled to: when the strategy is ["outerHTML"]
    and the target is a child of the Document, which cannot be
    replaced.  In every other case the call ends normally. *)
Theorem settled_request_fails_only_on_document_child
  (r : pending) (o : outcome) (p : page) :
  fst (requestForResume r o p)
  = if rejects (target r) (swap r) p
    then Throw noModificationAllowedMessage
    else Ok tt.
Proof.
  rewrite resume_shape. cbn [fst]. unfold attempt, tryBlock, catchBlock.
  assert (Hswap : forall html,
             fst (match applySwap (target r) (swap r) html p with
                  | (Ok a, p1) => (Ok a, p1)
                  | (Throw e, p1) =>
                      applySwap (target r) (swap r) (warning e) p1
                  end)
             = if rejects (target r) (swap r) p
               then Throw noModificationAllowedMessage else Ok tt).
  { intros html.
    destruct (applySwap_result (target r) (swap r) html p) as [Hf Hs].
    destruct (applySwap (target r) (swap r) html p) as [[[]|e] p1];
      cbn [fst snd] in *.
    - destruct (rejects (target r) (swap r) p); [discriminate | reflexivity].
    - destruct (rejects (target r) (swap r) p) eqn:Er; [|discriminate].
      rewrite (Hs eq_refl).
      destruct (applySwap_result (target r) (swap r) (warning e) p) as [Hf' _].
      now rewrite Hf', Er. }
  assert (Hthrow : forall m,
             fst (applySwap (target r) (swap r) (warning m) p)
             = if rejects (target r) (swap r) p
               then Throw noModificationAllowedMessage else Ok tt)
    by (intros m; apply applySwap_result).
  destruct o as [m|ok st [text|m]]; unfold throw; try apply Hthrow.
  destruct (negb ok); apply Hswap.
Qed.

(** Swapping into an element that is not in the document cannot throw
    and leaves the document as it is. *)
Lemma applySwap_outside (t : nid) (s html : jsstring) (p : page) :
  ~ In t (ids (document p)) ->
  fst (applySwap (Some t) s html p) = Ok tt
  /\ document (snd (applySwap (Some t) s html p)) = document p.
Proof.
  intros Hout. unfold applySwap.
  destruct (streq s "outerHTML").
  - unfold setOuterHTML. rewrite (not_top _ _ Hout).
    destruct (parentOf t (allNodes p)) as [[d|i e ks]|]; try now split.
    destruct (lookupNode t (allNodes p)); [|now split].
    destruct (labelAll _ _) as [new next]. cbn [fst snd document withTrees].
    split; [reflexivity | now apply replaceNode_absent].
  - unfold setInnerHTML.
    destruct (lookupNode t (allNodes p)) as [[d|i e old]|]; try now split.
    destruct (labelAll _ _) as [new next]. cbn [fst snd document withTrees].
    split; [reflexivity | now apply setChildren_absent].
Qed.

(** [outerHTML] on a child of the Document throws and changes
    nothing. *)
Lemma applySwap_top (p : page) (l r : list node) (t : nid) (et : element)
  (ks : list node) (html : jsstring) :
  document p = plug (Top l r) [Elem t et ks] ->
  applySwap (Some t) "outerHTML" html p
  = (Throw noModificationAllowedMessage, p).
Proof.
  intros Hdoc.
  destruct (applySwap_result (Some t) "outerHTML" html p) as [Hf Hs].
  assert (Hr : rejects (Some t) "outerHTML" p = true).
  { unfold rejects. rewrite Hdoc. cbn [plug].
    rewrite !existsb_app. cbn [existsb isElem].
    now rewrite N.eqb_refl, !orb_true_r. }
  rewrite Hr in Hf. specialize (Hs Hr).
  destruct (applySwap (Some t) "outerHTML" html p) as [res p1].
  cbn [fst snd] in *. now subst.
Qed.

(** C8, as the script has it.  The strategy ["outerHTML"] assigns to
    the target's [outerHTML] and every other strategy, ["innerHTML"]
    included, to its [innerHTML].  An element of the document sits at
    a position of it, below an element or directly below the Document.
    For a target below an element, ["outerHTML"] puts the parsed markup
    in the target's place among its siblings and takes the target out
    of the document; for a target directly below the Document it
    throws and changes nothing.  For a target anywhere in the
    document, every other strategy replaces the target's children by
    the parsed markup and leaves the target, with its identity and
    attributes, where it was.  For a target that is not in the
    document, no strategy throws or changes the document. *)
Theorem swap_replaces_node_or_contents :
  (forall (t : nid) (html : jsstring),
      applySwap (Some t) "outerHTML" html = setOuterHTML t html)
  /\ (forall (t : nid) (s html : jsstring),
         s <> js "outerHTML" ->
         applySwap (Some t) s html = setInnerHTML t html)
  /\ (forall (p : page) (t : nid),
         In t (ids (document p)) ->
         exists c et ks, document p = plug c [Elem t et ks])
  /\ (forall (p : page) (c : context) (i : nid) (e : element) (l r : list node)
        (t : nid) (et : element) (ks : list node) (html : jsstring),
         document p = plug (Below c i e l r) [Elem t et ks] ->
         NoDup (ids (allNodes p)) ->
         let new := labelAll (parseFragment (tagName e) html) (nextId p) in
         applySwap (Some t) "outerHTML" html p
         = (Ok tt,
            withTrees (plug (Below c i e l r) (fst new))
                      (detached p ++ [Elem t et ks]) (snd new) p)
         /\ map erase (fst new) = parseFragment (tagName e) html)
  /\ (forall (p : page) (l r : list node) (t : nid) (et : element)
        (ks : list node) (html : jsstring),
         document p = plug (Top l r) [Elem t et ks] ->
         applySwap (Some t) "outerHTML" html p
         = (Throw noModificationAllowedMessage, p))
  /\ (forall (p : page) (c : context) (t : nid) (et : element) (ks : list node)
        (s html : jsstring),
         s <> js "outerHTML" ->
         document p = plug c [Elem t et ks] ->
         NoDup (ids (allNodes p)) ->
         let new := labelAll (parseFragment (tagName et) html) (nextId p) in
         applySwap (Some t) s html p
         = (Ok tt,
            withTrees (plug c [Elem t et (fst new)])
                      (detached p ++ ks) (snd new) p)
         /\ map erase (fst new) = parseFragment (tagName et) html)
  /\ (forall (p : page) (t : nid) (s html : jsstring),
         ~ In t (ids (document p)) ->
         fst (applySwap (Some t) s html p) = Ok tt
         /\ document (snd (applySwap (Some t) s html p)) = document p).
Proof.
  assert (Hinner : forall t s html,
             s <> js "outerHTML" ->
             applySwap (Some t) s html = setInnerHTML t html).
  { intros t s html Hs. unfold applySwap.
    apply streq_neq in Hs. now rewrite Hs. }
  split; [reflexivity|]. split; [exact Hinner|].
  split; [intros p t; apply position_of|].
  split; [|split; [|split]].
  - intros p c i e l r t et ks html Hdoc Hn new. subst new.
    split; [|apply erase_labelAll].
    change (applySwap (Some t) "outerHTML" html p) with (setOuterHTML t html p).
    now apply setOuterHTML_below.
  - intros p l r t et ks html. apply applySwap_top.
  - intros p c t et ks s html Hs Hdoc Hn new. subst new.
    split; [|apply erase_labelAll].
    rewrite (Hinner t s html Hs). now apply setInnerHTML_at.
  - intros p t s html. apply applySwap_outside.
Qed.

(** The [try] and [catch] blocks with a target outside the document. *)
Lemma attempt_outside (r : pending) (o : outcome) (p : page) (t : nid) :
  target r = Some t ->
  ~ In t (ids (document p)) ->
  fst (attempt r o p) = Ok tt
  /\ document (snd (attempt r o p)) = document p.
Proof.
  intros Ht Hout. unfold attempt, tryBlock, catchBlock, throw. rewrite Ht.
  assert (Hswap : forall html,
             fst (applySwap (Some t) (swap r) html p) = Ok tt
             /\ document (snd (applySwap (Some t) (swap r) html p)) = document p)
    by (intros html; now apply applySwap_outside).
  assert (Hok : forall html,
             fst (match applySwap (Some t) (swap r) html p with
                  | (Ok a, p1) => (Ok a, p1)
                  | (Throw e, p1) => applySwap (Some t) (swap r) (warning e) p1
                  end) = Ok tt
             /\ document
                  (snd (match applySwap (Some t) (swap r) html p with
                        | (Ok a, p1) => (Ok a, p1)
                        | (Throw e, p1) =>
                            applySwap (Some t) (swap r) (warning e) p1
                        end)) = document p).
  { intros html. destruct (Hswap html) as [Hf Hd].
    destruct (applySwap (Some t) (swap r) html p) as [[[]|e] p1];
      cbn [fst snd] in *; [now split | discriminate]. }
  destruct o as [m|ok st [text|m]]; try apply Hswap.
  destruct (negb ok); apply Hok.
Qed.

(** X8: a response for a target that is no longer (or never was) in
    the document is lost: whatever the strategy and the outcome, the
    settled request ends normally, its swap leaves the document as it
    is, and after its [finally] block the document still has the same
    elements in the same order. *)
Theorem swap_outside_document_is_lost (r : pending) (o : outcome) (p : page)
  (t : nid) :
  target r = Some t ->
  ~ In t (ids (document p)) ->
  fst (requestForResume r o p) = Ok tt
  /\ document (snd (attempt r o p)) = document p
  /\ ids (document (run (requestForResume r o) p)) = ids (document p).
Proof.
  intros Ht Hout. destruct (@attempt_outside r o p t Ht Hout) as [Hf Hd].
  unfold run. rewrite resume_shape. cbn [fst snd].
  split; [exact Hf|]. split; [exact Hd|].
  unfold run, notify. rewrite emitAfterRequest_run. cbn [snd].
  assert (Hdoc : forall q,
             document (match body q with
                       | Some b =>
                           withEvents
                             (events q ++ [afterRequest "get" (finalUrl r) b
                                             (document q)]) q
                       | None => q
                       end) = document q)
    by (intros q; destruct (body q); reflexivity).
  rewrite Hdoc. unfold deactivate.
  destruct (indicator r) as [j|]; cbn [snd ret]; [|now rewrite Hd].
  unfold classListRemove, updateClasses, modify.
  cbn [snd document withTrees]. now rewrite ids_update, Hd.
Qed.

End MoreSwapFacts.

(* ================================================================= *)
(** ** Runs of the event loop *)

Section RunFacts.
Context {B : Browser}.

Lemma preserves_ret {A} (I : page -> Prop) (a : A) : preserves I (ret a).
Proof. intros p Hp. exact Hp. Qed.

Lemma preserves_pure {A} (I : page -> Prop) (m : M A) :
  pure m -> preserves I m.
Proof. intros Hm p Hp. now rewrite Hm. Qed.

Lemma preserves_bind {A C} (I : page -> Prop) (m : M A) (k : A -> M C) :
  preserves I m -> (forall a, preserves I (k a)) -> preserves I (bind m k).
Proof.
  intros Hm Hk p Hp. unfold bind. specialize (Hm p Hp).
  destruct (m p) as [[a|e] p1]; cbn [snd] in *; [now apply Hk | assumption].
Qed.

Lemma preserves_forEach {A} (I : page -> Prop) (l : list A)
  (body : A -> M unit) :
  (forall a, preserves I (body a)) -> preserves I (forEach l body).
Proof.
  intros Hb. induction l as [|a l IH]; cbn [forEach].
  - apply preserves_ret.
  - apply preserves_bind; auto.
Qed.

Lemma preserves_modify (I : page -> Prop) (g : page -> page) :
  (forall p, I p -> I (g p)) -> preserves I (modify g).
Proof. intros Hg p Hp. now apply Hg. Qed.

(** A call that returns at the guard has done nothing. *)
Lemma requestForStart_none (i : nid) (p p' : page) :
  requestForStart i p = (Ok None, p') -> p' = p.
Proof.
  unfold requestForStart, bind, getAttribute, gets.
  destruct (attributeOf p i "hx-get") as [[|c u]|];
    try (intros E; now inversion E).
  destruct (collectParams_cases (attributeOf p i "hx-include") p)
    as [[params ->]|(s & _ & _ & ->)]; [|discriminate].
  destruct (resolveTarget_cases i p) as [[t ->]|(s & _ & _ & ->)];
    [|discriminate].
  destruct (resolveIndicator_cases p) as [[ind ->]|(b & s & _ & _ & _ & ->)];
    [|discriminate].
  destruct ind as [j|];
    unfold classListAdd, updateClasses, fetch, modify, ret; discriminate.
Qed.

Lemma inflight_started (r : pending) (p : page) :
  inflight (started r p) = inflight p.
Proof. unfold started. destruct (indicator r); reflexivity. Qed.

Lemma events_started (r : pending) (p : page) :
  events (started r p) = events p.
Proof. unfold started. destruct (indicator r); reflexivity. Qed.

Lemma requests_started (r : pending) (p : page) :
  requests (started r p)
  = requests p ++ [{| url := finalUrl r; headers := marker |}].
Proof. unfold started. destruct (indicator r); reflexivity. Qed.

(** What a call of [requestFor] does to the page: nothing, or it
    issues one request and puts it in flight.  It never throws. *)
Lemma requestFor_effect (i : nid) (p : page) :
  requestFor i p = (Ok tt, p)
  \/ exists r,
       requestForStart i p = (Ok (Some r), started r p)
       /\ requestFor i p
          = (Ok tt, withInflight (inflight p ++ [r]) (started r p)).
Proof.
  unfold requestFor.
  destruct (requestForStart i p) as [[[r|]|e] p1] eqn:E.
  - right. exists r. pose proof (requestForStart_page i p E) as ->.
    split; [reflexivity|]. now rewrite inflight_started.
  - left. now rewrite (requestForStart_none i p E).
  - left. now destruct (requestForStart_throws i p E) as [-> _].
Qed.

Lemma listener_run (el : nid) (trigger : jsstring) (p : page) :
  bind (listener el trigger) (fun _ => ret tt) p
  = (Ok tt, run (requestFor el) p).
Proof.
  unfold listener, bind, gets, run.
  destruct (requestFor_effect el p) as [-> | (r & _ & ->)]; reflexivity.
Qed.

Lemma preserves_setupElement (I : page -> Prop) (i : nid) :
  (forall j, preserves I (requestFor j)) ->
  (forall l p, I p -> I (withListeners l p)) ->
  (forall l p, I p -> I (withTimers l p)) ->
  (forall el p, loading p = true -> I p ->
                I (withLoadListeners (loadListeners p ++ [el]) p)) ->
  preserves I (setupElement i).
Proof.
  intros Hreq Hl Ht Hll. unfold setupElement.
  apply preserves_bind; [apply preserves_pure, pure_getAttribute|].
  intros hxTrigger. apply preserves_forEach. intros trigger.
  unfold setupTrigger.
  destruct (registrationOf trigger) as [[|interval|name]|].
  - intros p Hp. unfold bind, gets.
    destruct (loading p) eqn:E; [now apply Hll | now apply Hreq].
  - apply preserves_modify. intros p. apply Ht.
  - apply preserves_modify. intros p. apply Hl.
  - apply preserves_ret.
Qed.

Lemma preserves_boot (I : page -> Prop) :
  (forall j, preserves I (requestFor j)) ->
  (forall l p, I p -> I (withListeners l p)) ->
  (forall l p, I p -> I (withTimers l p)) ->
  (forall el p, loading p = true -> I p ->
                I (withLoadListeners (loadListeners p ++ [el]) p)) ->
  preserves I boot.
Proof.
  intros Hreq Hl Ht Hll. unfold boot.
  apply preserves_bind; [apply preserves_pure, pure_querySelectorAll|].
  intros els. apply preserves_forEach. intros i.
  now apply preserves_setupElement.
Qed.

Lemma preserves_step (I : page -> Prop) :
  (forall j, preserves I (requestFor j)) ->
  (forall k r o p,
      nth_error (inflight p) k = Some r -> I p ->
      I (run (requestForResume r o)
             (withInflight (firstn k (inflight p) ++ skipn (S k) (inflight p))
                           p))) ->
  (forall p, I p -> I (withLoading false (withLoadListeners [] p))) ->
  (forall i name v, preserves I (setAttribute i name v)) ->
  forall (i : input) (p : page), I p -> I (step i p).
Proof.
  intros Hreq Hres Hload Hset [i name|k| |k o|i name v] p Hp; cbn [step].
  - unfold run. apply preserves_forEach; [|exact Hp].
    intros l q Hq. rewrite listener_run. now apply Hreq.
  - destruct (nth_error (timers p) k) as [[i _]|]; [now apply Hreq | exact Hp].
  - unfold run. apply preserves_forEach; [exact Hreq | now apply Hload].
  - destruct (nth_error (inflight p) k) as [r|] eqn:E; [|exact Hp].
    now apply Hres.
  - now apply Hset.
Qed.

Lemma preserves_steps (I : page -> Prop) :
  (forall i p, I p -> I (step i p)) ->
  forall (l : list input) (p : page), I p -> I (steps l p).
Proof.
  intros Hstep l. unfold steps.
  induction l as [|i l IH]; intros p Hp; [exact Hp|].
  cbn [fold_left]. apply IH. now apply Hstep.
Qed.

(** The books of a page: what was fetched, what is in flight, what was
    dispatched. *)
Lemma requestFor_books (i : nid) (p : page) :
  (requests (run (requestFor i) p) = requests p
   /\ inflight (run (requestFor i) p) = inflight p
   /\ events (run (requestFor i) p) = events p)
  \/ exists r,
       requests (run (requestFor i) p)
       = requests p ++ [{| url := finalUrl r; headers := marker |}]
       /\ inflight (run (requestFor i) p) = inflight p ++ [r]
       /\ events (run (requestFor i) p) = events p.
Proof.
  unfold run.
  destruct (requestFor_effect i p) as [-> | (r & _ & ->)]; [now left|].
  right. exists r. cbn [snd requests inflight events withInflight].
  now rewrite requests_started, events_started.
Qed.

Lemma requestForResume_books (r : pending) (o : outcome) (p : page) :
  requests (run (requestForResume r o) p) = requests p
  /\ inflight (run (requestForResume r o) p) = inflight p
  /\ exists new,
       events (run (requestForResume r o) p) = events p ++ new
       /\ (new = []
           \/ exists b doc, new = [afterRequest "get" (finalUrl r) b doc]).
Proof.
  split; [|split].
  - unfold run. now rewrite (@keeps_requestForResume _ _ requests r o).
  - unfold run. now rewrite (@keeps_requestForResume _ _ inflight r o).
  - unfold run. rewrite resume_shape. cbn [snd].
    rewrite events_notify, events_deactivate,
      (keeps_attempt r o events_treeBlind).
    eexists. split; [reflexivity|].
    destruct (body _) as [b|]; [right; eexists b, _; reflexivity | now left].
Qed.

Lemma remove_nth {A} (l : list A) (k : nat) (a : A) :
  nth_error l k = Some a ->
  exists l1 l2,
    l = l1 ++ a :: l2 /\ firstn k l ++ skipn (S k) l = l1 ++ l2.
Proof.
  revert k. induction l as [|x l IH]; intros [|k]; try discriminate.
  - intros E. inversion E; subst. now exists [], l.
  - intros E. destruct (IH k E) as (l1 & l2 & -> & Hrest).
    exists (x :: l1), l2. cbn [firstn app]. split; [reflexivity|].
    change (skipn (S (S k)) (x :: l1 ++ a :: l2))
      with (skipn (S k) (l1 ++ a :: l2)).
    now rewrite <- Hrest.
Qed.

(** X9: whatever happens after the script has booted, the request log
    only grows, and every request the script adds carries exactly the
    header [HX-Request: true]. *)
Theorem every_request_is_marked (p : page) (l : list input) :
  exists new,
    requests (steps l (run boot p)) = requests p ++ new
    /\ Forall marked new.
Proof.
  set (I := fun q : page =>
              exists new, requests q = requests p ++ new /\ Forall marked new).
  assert (Hreq : forall j, preserves I (requestFor j)).
  { intros j q (new & Hq & Hm).
    change (snd (requestFor j q)) with (run (requestFor j) q).
    destruct (requestFor_books j q) as [(Hr & _) | (r & Hr & _)].
    - exists new. now rewrite Hr.
    - exists (new ++ [{| url := finalUrl r; headers := marker |}]).
      rewrite Hr, Hq, <- app_assoc. split; [reflexivity|].
      apply Forall_app. split; [exact Hm|]. now constructor. }
  apply (@preserves_steps I).
  - apply preserves_step; try exact Hreq.
    + intros k r o q _ (new & Hq & Hm). exists new.
      destruct (requestForResume_books r o
                  (withInflight (firstn k (inflight q)
                                   ++ skipn (S k) (inflight q)) q))
        as (Hr & _).
      rewrite Hr. now split.
    + intros q Hq. exact Hq.
    + intros i name v q Hq. exact Hq.
  - apply (@preserves_boot I); try exact Hreq;
      try (intros l0 q Hq; exact Hq); try (intros l0 q _ Hq; exact Hq).
    exists []. now rewrite app_nil_r.
Qed.

(** X10: nothing is finished that was not started.  On a page where
    every request in flight and every dispatched event names a URL
    that was fetched, this stays so after booting and after any run of
    the event loop. *)
Theorem completions_name_fetched_urls (p : page) (l : list input) :
  accounted p -> accounted (steps l (run boot p)).
Proof.
  assert (Hreq : forall j, preserves accounted (requestFor j)).
  { intros j q [Hin Hev].
    change (snd (requestFor j q)) with (run (requestFor j) q).
    unfold accounted, fetched.
    destruct (requestFor_books j q)
      as [(Hr & Hi & He) | (r & Hr & Hi & He)]; rewrite Hr, Hi, He.
    - now split.
    - rewrite map_app. cbn [map url]. split.
      + intros r0 H0. apply in_app_iff in H0 as [H0|[<-|[]]];
          apply in_app_iff; [left; now apply Hin | right; now left].
      + intros ev H0. apply in_app_iff. left. now apply Hev. }
  intros Hp. apply (@preserves_steps accounted).
  - apply preserves_step; try exact Hreq.
    + intros k r o q Hk [Hin Hev].
      destruct (requestForResume_books r o
                  (withInflight (firstn k (inflight q)
                                   ++ skipn (S k) (inflight q)) q))
        as (Hr & Hi & new & He & Hnew).
      unfold accounted, fetched. rewrite Hr, Hi, He.
      cbn [requests inflight events withInflight].
      destruct (remove_nth _ _ Hk) as (l1 & l2 & Hl & ->).
      split.
      * intros r0 H0. apply Hin. rewrite Hl.
        rewrite in_app_iff in *. cbn [In]. tauto.
      * intros ev H0. apply in_app_iff in H0 as [H0|H0]; [now apply Hev|].
        destruct Hnew as [-> | (b & doc & ->)]; [destruct H0|].
        destruct H0 as [<-|[]]. cbn. apply Hin.
        exact (nth_error_In _ _ Hk).
    + intros q Hq. exact Hq.
    + intros i name v q Hq. exact Hq.
  - apply (@preserves_boot accounted); try exact Hreq;
      try (intros l0 q Hq; exact Hq); try (intros l0 q _ Hq; exact Hq).
    exact Hp.
Qed.

(** X11: on a page where the completion events and the requests in
    flight together do not outnumber the requests fetched, they never
    will: each fetch is finished at most once. *)
Theorem completions_never_outnumber_requests (p : page) (l : list input) :
  balanced p -> balanced (steps l (run boot p)).
Proof.
  assert (Hreq : forall j, preserves balanced (requestFor j)).
  { intros j q Hq.
    change (snd (requestFor j q)) with (run (requestFor j) q).
    unfold balanced in *.
    destruct (requestFor_books j q)
      as [(Hr & Hi & He) | (r & Hr & Hi & He)]; rewrite Hr, Hi, He.
    - exact Hq.
    - rewrite !length_app. cbn [List.length]. lia. }
  intros Hp. apply (@preserves_steps balanced).
  - apply preserves_step; try exact Hreq.
    + intros k r o q Hk Hq.
      destruct (requestForResume_books r o
                  (withInflight (firstn k (inflight q)
                                   ++ skipn (S k) (inflight q)) q))
        as (Hr & Hi & new & He & Hnew).
      unfold balanced in *. rewrite Hr, Hi, He.
      cbn [requests inflight events withInflight].
      destruct (remove_nth _ _ Hk) as (l1 & l2 & Hl & ->).
      rewrite Hl in Hq. rewrite !length_app in *. cbn [List.length] in Hq.
      destruct Hnew as [-> | (b & doc & ->)]; cbn [List.length]; lia.
    + intros q Hq. exact Hq.
    + intros i name v q Hq. exact Hq.
  - apply (@preserves_boot balanced); try exact Hreq;
      try (intros l0 q Hq; exact Hq); try (intros l0 q _ Hq; exact Hq).
    exact Hp.
Qed.

End RunFacts.

(* ================================================================= *)
(** ** Booting *)

Section BootFacts.
Context {B : Browser}.

Lemma requestFor_ok (i : nid) (p : page) :
  requestFor i p = (Ok tt, run (requestFor i) p).
Proof.
  unfold run.
  destruct (requestFor_effect i p) as [-> | (r & _ & ->)]; reflexivity.
Qed.

Lemma forEach_cons_ok {A} (a : A) (l : list A) (body : A -> M unit)
  (p p1 : page) :
  body a p = (Ok tt, p1) -> forEach (a :: l) body p = forEach l body p1.
Proof. intros E. cbn [forEach]. unfold bind. now rewrite E. Qed.

Lemma attributes_started (r : pending) (p : page) (i : nid) (name : jsstring) :
  attributeOf (started r p) i name = attributeOf p i name.
Proof.
  unfold started, attributeOf, allNodes.
  destruct (indicator r) as [j|]; [|reflexivity].
  cbn [document detached withRequests withTrees].
  rewrite <- map_app, lookup_update.
  destruct (lookup i (document p ++ detached p)); [|reflexivity].
  cbn [option_map]. now destruct (N.eqb i j).
Qed.

Lemma sameAttributes_requestFor (p : page) (j : nid) :
  preserves (sameAttributes p) (requestFor j).
Proof.
  intros q Hq i name.
  destruct (requestFor_effect j q) as [-> | (r & _ & ->)]; [apply Hq|].
  cbn [snd]. rewrite <- Hq, <- (attributes_started r q i name). reflexivity.
Qed.

Lemma setupElement_ok (i : nid) (p : page) : fst (setupElement i p) = Ok tt.
Proof.
  unfold setupElement, bind, getAttribute, gets.
  generalize (parseTriggers (attributeOf p i "hx-trigger")). intros l.
  revert p. induction l as [|t l IH]; intros q; [reflexivity|].
  destruct (setup_trigger i t q) as (q1 & E & _).
  rewrite (@forEach_cons_ok _ t l (setupTrigger i) q q1 E). apply IH.
Qed.

(** X15: [boot] sets up the elements matching [[hx-get]] in tree
    order, and cannot fail: the listeners and timers it adds are those
    of each element's [hx-trigger] value as it is when the script
    boots, element by element. *)
Theorem boot_registers_in_tree_order (p : page) :
  selectorValid "[hx-get]" = true ->
  fst (boot p) = Ok tt
  /\ listeners (run boot p)
     = listeners p
       ++ flat_map (fun i => listenersOf i
                               (parseTriggers (attributeOf p i "hx-trigger")))
                   (bound p)
  /\ timers (run boot p)
     = timers p
       ++ flat_map (fun i => timersOf i
                               (parseTriggers (attributeOf p i "hx-trigger")))
                   (bound p).
Proof.
  intros Hv. unfold boot, run, bind.
  destruct (querySelectorAll_cases "[hx-get]" p) as [[_ ->]|[Hn _]];
    [|congruence].
  fold (bound p). generalize (bound p). intros els.
  enough (Hall : forall q,
             sameAttributes p q ->
             fst (forEach els setupElement q) = Ok tt
             /\ listeners (snd (forEach els setupElement q))
                = listeners q
                  ++ flat_map
                       (fun i => listenersOf i
                                   (parseTriggers (attributeOf p i "hx-trigger")))
                       els
             /\ timers (snd (forEach els setupElement q))
                = timers q
                  ++ flat_map
                       (fun i => timersOf i
                                   (parseTriggers (attributeOf p i "hx-trigger")))
                       els)
    by (apply Hall; intros i name; reflexivity).
  induction els as [|i els IH]; intros q Hq.
  - cbn. now rewrite !app_nil_r.
  - pose proof (setupElement_ok i q) as Hok.
    pose proof (setupElement_registers i q) as [Hl Ht].
    assert (Hsame : sameAttributes p (snd (setupElement i q))).
    { apply (@preserves_setupElement _ (sameAttributes p) i);
        try (intros l0 q0 H0; exact H0); try (intros l0 q0 _ H0; exact H0);
        [|exact Hq].
      apply sameAttributes_requestFor. }
    unfold run in Hl, Ht.
    destruct (setupElement i q) as [[[]|e] q1] eqn:E; cbn [fst snd] in *;
      [|discriminate].
    rewrite (@forEach_cons_ok _ i els setupElement q q1 E).
    destruct (IH q1 Hsame) as (IHok & IHl & IHt).
    split; [exact IHok|].
    rewrite IHl, IHt, Hl, Ht, (Hq i "hx-trigger"). cbn [flat_map].
    now rewrite <- !app_assoc.
Qed.

Lemma eta_loading (p : page) : loading p = false -> withLoading false p = p.
Proof. destruct p. cbn [loading]. now intros ->. Qed.

Lemma eta_loadListeners (p : page) :
  loadListeners p = [] -> withLoadListeners [] p = p.
Proof. destruct p. cbn [loadListeners]. now intros ->. Qed.

(** Once the document is loaded, [boot] defers nothing. *)
Lemma boot_defers_nothing (p : page) :
  loading p = false ->
  loading (run boot p) = false
  /\ loadListeners (run boot p) = loadListeners p.
Proof.
  intros Hp.
  apply (@preserves_boot _
           (fun q => loading q = false /\ loadListeners q = loadListeners p));
    try (intros l0 q0 H0; exact H0).
  - intros j q [Hq Hl].
    change (snd (requestFor j q)) with (run (requestFor j) q).
    unfold run. rewrite !keeps_requestFor; try (intros ? ?; reflexivity).
    now split.
  - intros el q Hq [Hq' _]. congruence.
  - now split.
Qed.

(** X16: however the script is loaded, [boot] runs exactly once, on
    the document that is no longer loading: at once when the script is
    evaluated after loading, on [DOMContentLoaded] otherwise.  So no
    ["load"] trigger is ever deferred: the page ends without a
    deferred request. *)
Theorem boot_runs_once_when_ready (p : page) :
  loadListeners p = [] ->
  current (ready (main p)) = run boot (withLoading false p)
  /\ bootDeferred (ready (main p)) = false
  /\ loadListeners (current (ready (main p))) = []
  /\ loading (current (ready (main p))) = false.
Proof.
  intros Hl.
  assert (Hboot : loading (run boot (withLoading false p)) = false
                  /\ loadListeners (run boot (withLoading false p)) = [])
    by (destruct (@boot_defers_nothing (withLoading false p) eq_refl)
          as [H1 H2]; split; [exact H1 | rewrite H2; exact Hl]).
  assert (Hcur : current (ready (main p)) = run boot (withLoading false p)
                 /\ bootDeferred (ready (main p)) = false).
  { unfold main, ready. destruct (loading p) eqn:El.
    - cbn [bootDeferred current]. unfold contentLoaded.
      cbn [bootDeferred current]. rewrite Hl, (eta_loadListeners p Hl).
      now split.
    - cbn [bootDeferred current]. now rewrite (eta_loading p El). }
  destruct Hcur as [Hcur Hdef]. rewrite Hcur. tauto.
Qed.

End BootFacts.

(* ================================================================= *)
(** ** Triggers and what they register *)

Section RegistrationFacts.
Context {B : Browser}.

(** X17: what a token of [hx-trigger] registers is decided by its
    whole text.  A deferred or immediate request is registered exactly
    for the token ["load"], and an event listener exactly for the
    tokens that are neither ["load"] nor begin with ["every "]; the
    event name is the token as written, modifiers and all. *)
Theorem registrations_classify_tokens (value : option jsstring)
  (name : jsstring) :
  (In OnLoad (registrations value) <-> In (js "load") (parseTriggers value))
  /\ (In (OnEvent name) (registrations value)
      <-> In name (parseTriggers value)
          /\ name <> js "load"
          /\ startsWith "every " name = false).
Proof.
  unfold registrations. rewrite !in_flat_map.
  assert (Hload : forall t,
             In OnLoad (optlist (registrationOf t)) <-> t = js "load").
  { intros t. unfold registrationOf.
    destruct (streq t "load") eqn:El.
    - apply streq_eq in El. cbn [optlist In]. tauto.
    - apply streq_neq in El.
      destruct (startsWith "every " t).
      + destruct (matchInterval _) as [[m1 m2]|]; cbn [optlist In];
          split; try tauto; intros [H|[]]; discriminate.
      + cbn [optlist In]. split; [intros [H|[]]; discriminate | tauto]. }
  assert (Hevent : forall t,
             In (OnEvent name) (optlist (registrationOf t))
             <-> t = name /\ name <> js "load"
                 /\ startsWith "every " name = false).
  { intros t. unfold registrationOf.
    destruct (streq t "load") eqn:El.
    - apply streq_eq in El. cbn [optlist In].
      split; [intros [H|[]]; discriminate | intros (-> & H & _); tauto].
    - apply streq_neq in El.
      destruct (startsWith "every " t) eqn:Ee.
      + destruct (matchInterval _) as [[m1 m2]|]; cbn [optlist In];
          (split; [try tauto; intros [H|[]]; discriminate
                  | intros (-> & _ & H); congruence]).
      + cbn [optlist In]. split.
        * intros [H|[]]. inversion H; subst. tauto.
        * intros (-> & _). now left. }
  split; split.
  - intros (t & Hin & Ht). apply Hload in Ht. now subst.
  - intros Hin. exists (js "load"). split; [exact Hin | now apply Hload].
  - intros (t & Hin & Ht). apply Hevent in Ht as (-> & Hn & He). tauto.
  - intros (Hin & Hn & He). exists name. split; [exact Hin|].
    apply Hevent. tauto.
Qed.

End RegistrationFacts.

(* ================================================================= *)
(** ** Firings *)

Section FiringFacts.
Context {B : Browser}.

(** A firing calls [requestFor] for each listener it reaches. *)
Lemma fire_calls (el : nid) (name : jsstring) (bubbles : bool) (p : page) :
  step (Fire el name bubbles) p
  = run (forEach (map fst (listenersFor el name bubbles p)) requestFor) p.
Proof.
  cbn [step]. unfold run. generalize (listenersFor el name bubbles p).
  intros L. revert p. induction L as [|a L IH]; intros q; [reflexivity|].
  cbn [map].
  rewrite (@forEach_cons_ok _ a _
             (fun l => bind (listener (fst l) (snd l)) (fun _ => ret tt))
             q _ (listener_run (fst a) (snd a) q)).
  rewrite (@forEach_cons_ok _ (fst a) _ requestFor q _ (requestFor_ok (fst a) q)).
  apply IH.
Qed.

(** A call on an element with a path whose selectors the browser
    accepts issues its request. *)
Lemma requestForStart_issues (i : nid) (p : page) (u : jsstring) :
  attributeOf p i "hx-get" = Some u -> u <> [] ->
  (forall s, In s (selectorsOf p i) -> s <> [] -> selectorValid s = true) ->
  exists r, requestForStart i p = (Ok (Some r), started r p).
Proof.
  intros Hu Hne Hvalid.
  assert (Hsel : forall s,
             In s (selectorsOf p i) -> selectorValid s = false -> s = []).
  { intros s Hin Hv. destruct s as [|c s]; [reflexivity|].
    rewrite (Hvalid _ Hin) in Hv; discriminate. }
  unfold selectorsOf in Hsel.
  enough (exists r p', requestForStart i p = (Ok (Some r), p'))
    as (r & p' & E).
  { exists r. now rewrite <- (requestForStart_page i p E). }
  unfold requestForStart, bind, getAttribute, gets. rewrite Hu.
  destruct u as [|c u]; [congruence|].
  destruct (collectParams_cases (attributeOf p i "hx-include") p)
    as [[params ->]|(s & Hs & Hv & Hc)].
  2:{ exfalso.
      assert (s = []) as ->
        by (apply Hsel; [rewrite Hs; cbn [optlist app In]; auto | exact Hv]).
      rewrite Hs in Hc. cbn in Hc. discriminate Hc. }
  destruct (resolveTarget_cases i p) as [[t ->]|(s & Hs & Hv & Hc)].
  2:{ exfalso.
      assert (s = []) as ->
        by (apply Hsel;
            [rewrite Hs, !in_app_iff; cbn [optlist In]; auto | exact Hv]).
      revert Hc. unfold resolveTarget, bind, getAttribute, gets.
      rewrite Hs. discriminate. }
  destruct (resolveIndicator_cases p)
    as [[ind ->]|(b & s & Hb & Hs & Hv & Hc)].
  2:{ exfalso.
      assert (s = []) as ->
        by (apply Hsel;
            [rewrite Hb, Hs, !in_app_iff; cbn [optlist In]; auto | exact Hv]).
      revert Hc. unfold resolveIndicator, bind, getAttribute, gets.
      rewrite Hb, Hs. discriminate. }
  destruct ind as [j|];
    unfold classListAdd, updateClasses, fetch, modify, ret;
    eexists _, _; reflexivity.
Qed.

Lemma requestFor_issues (i : nid) (p : page) (u : jsstring) :
  attributeOf p i "hx-get" = Some u -> u <> [] ->
  (forall s, In s (selectorsOf p i) -> s <> [] -> selectorValid s = true) ->
  exists r params,
    run (requestFor i) p = withInflight (inflight p ++ [r]) (started r p)
    /\ collectParams (attributeOf p i "hx-include") p = (Ok params, p)
    /\ finalUrl r = finalUrlOf u params
    /\ resolveTarget i p = (Ok (target r), p)
    /\ swap r = orElse (attributeOf p i "hx-swap") "innerHTML".
Proof.
  intros Hu Hne Hvalid.
  destruct (requestForStart_issues i p Hu Hne Hvalid) as [r E].
  destruct (requestForStart_reads_now i p E)
    as (u' & params & Hu' & _ & Hc & Ht & Hs & Hf & _).
  assert (u' = u) by congruence. subst u'.
  exists r, params. unfold run, requestFor. rewrite E. cbn [snd].
  rewrite inflight_started. tauto.
Qed.

(** C10: a firing calls [requestFor], for each listener it reaches and
    for the element of the timer that ticks, on the page as it is
    then, and the call takes the path, the included parameters, the
    target and the swap strategy from the element's attributes in that
    page.  So when one of these attributes is set between two firings,
    the second firing requests with the new value: the new path, the
    parameters selected by the new [hx-include], the target selected
    by the new [hx-target], the new strategy.  The listeners and
    timers are those of the [hx-trigger] value read by [setupElement];
    no later step, a change of [hx-trigger] included, adds or removes
    any. *)
Theorem attributes_read_at_firing_triggers_at_bind :
  (forall (el : nid) (name : jsstring) (bubbles : bool) (p : page),
      step (Fire el name bubbles) p
      = run (forEach (map fst (listenersFor el name bubbles p)) requestFor) p)
  /\ (forall (k : nat) (el : nid) (n : number) (p : page),
         nth_error (timers p) k = Some (el, n) ->
         step (Tick k) p = run (requestFor el) p)
  /\ (forall (i : nid) (p : page) (u : jsstring),
         attributeOf p i "hx-get" = Some u -> u <> [] ->
         (forall s, In s (selectorsOf p i) -> s <> [] ->
                    selectorValid s = true) ->
         exists r params,
           run (requestFor i) p
           = withInflight (inflight p ++ [r]) (started r p)
           /\ collectParams (attributeOf p i "hx-include") p = (Ok params, p)
           /\ finalUrl r = finalUrlOf u params
           /\ resolveTarget i p = (Ok (target r), p)
           /\ swap r = orElse (attributeOf p i "hx-swap") "innerHTML")
  /\ (forall (i : nid) (name v : jsstring) (p : page)
        (el : nid) (ev : jsstring) (bubbles : bool) (u : jsstring),
         lookup i (allNodes p) <> None ->
         let q := step (SetAttribute i name v) p in
         map fst (listenersFor el ev bubbles q) = [i] ->
         attributeOf q i "hx-get" = Some u -> u <> [] ->
         (forall s, In s (selectorsOf q i) -> s <> [] ->
                    selectorValid s = true) ->
         exists r params,
           step (Fire el ev bubbles) q
           = withInflight (inflight q ++ [r]) (started r q)
           /\ requests (step (Fire el ev bubbles) q)
              = requests q ++ [{| url := finalUrl r; headers := marker |}]
           /\ attributeOf q i name = Some v
           /\ collectParams (attributeOf q i "hx-include") q = (Ok params, q)
           /\ finalUrl r = finalUrlOf u params
           /\ (name = js "hx-get" -> finalUrl r = finalUrlOf v params)
           /\ (name = js "hx-include" ->
               collectParams (Some v) q = (Ok params, q))
           /\ (name = js "hx-target" -> v <> [] ->
               querySelector v q = (Ok (target r), q))
           /\ (name = js "hx-swap" -> v <> [] -> swap r = v))
  /\ (forall (i : nid) (p : page),
         let triggers := parseTriggers (attributeOf p i "hx-trigger") in
         listeners (run (setupElement i) p)
         = listeners p ++ listenersOf i triggers
         /\ timers (run (setupElement i) p) = timers p ++ timersOf i triggers)
  /\ (forall (i : input) (p : page),
         listeners (step i p) = listeners p /\ timers (step i p) = timers p).
Proof.
  split; [exact fire_calls|].
  split; [intros k el n p Hk; cbn [step]; now rewrite Hk|].
  split; [exact requestFor_issues|].
  split; [|split; [exact setupElement_registers|]].
  - intros i name v p el ev bubbles u Hi q Hfire Hu Hne Hvalid.
    destruct (requestFor_issues i q Hu Hne Hvalid)
      as (r & params & Hrun & Hc & Hf & Ht & Hs).
    assert (Hv : attributeOf q i name = Some v)
      by (now apply attribute_after_set).
    assert (Hstep : step (Fire el ev bubbles) q
                    = withInflight (inflight q ++ [r]) (started r q)).
    { rewrite fire_calls, Hfire. unfold run.
      rewrite (@forEach_cons_ok _ i [] requestFor q _ (requestFor_ok i q)).
      cbn [forEach ret snd]. exact Hrun. }
    exists r, params. rewrite Hstep.
    split; [reflexivity|].
    split; [cbn [requests withInflight]; apply requests_started|].
    split; [exact Hv|]. split; [exact Hc|]. split; [exact Hf|].
    split; [|split; [|split]].
    + intros ->. rewrite Hv in Hu. inversion Hu; subst. exact Hf.
    + intros ->. now rewrite Hv in Hc.
    + intros -> Hnv. revert Ht. unfold resolveTarget, bind, getAttribute, gets.
      rewrite Hv. destruct v as [|c v]; [congruence | tauto].
    + intros -> Hnv. rewrite Hs, Hv. destruct v; [congruence | reflexivity].
  - intros i p. split; apply step_keeps; easy.
Qed.

Lemma ids_started (r : pending) (p : page) :
  ids (document (started r p)) = ids (document p)
  /\ nextId (started r p) = nextId p.
Proof.
  unfold started. destruct (indicator r); [|now split].
  cbn [document nextId withRequests withTrees]. now rewrite ids_update.
Qed.

Lemma ids_finalizer (r : pending) (p : page) :
  ids (document (run (notify r) (run (deactivate r) p))) = ids (document p)
  /\ nextId (run (notify r) (run (deactivate r) p)) = nextId p.
Proof.
  unfold run, notify. rewrite emitAfterRequest_run. cbn [snd].
  assert (Hn : forall q,
             document (match body q with
                       | Some b =>
                           withEvents
                             (events q ++ [afterRequest "get" (finalUrl r) b
                                             (document q)]) q
                       | None => q
                       end) = document q
             /\ nextId (match body q with
                        | Some b =>
                            withEvents
                              (events q ++ [afterRequest "get" (finalUrl r) b
                                              (document q)]) q
                        | None => q
                        end) = nextId q)
    by (intros q; destruct (body q); now split).
  destruct (Hn (snd (deactivate r p))) as [-> ->].
  unfold deactivate. destruct (indicator r); [|now split].
  unfold classListRemove, updateClasses, modify.
  cbn [snd document nextId withTrees]. now rewrite ids_update.
Qed.

Lemma nextId_applySwap (t : option nid) (s html : jsstring) (p : page) :
  (nextId p <= nextId (snd (applySwap t s html p)))%N.
Proof.
  destruct t as [t|]; [|cbn; lia]. unfold applySwap.
  destruct (streq s "outerHTML").
  - unfold setOuterHTML. destruct (existsb _ _); [cbn; lia|].
    destruct (parentOf t (allNodes p)) as [[d|i e ks]|]; try (cbn; lia).
    destruct (lookupNode t (allNodes p)); [|cbn; lia].
    pose proof (labelAll_fresh (parseFragment (tagName e) html) (nextId p))
      as [Hle _].
    destruct (labelAll _ _). exact Hle.
  - unfold setInnerHTML.
    destruct (lookupNode t (allNodes p)) as [[d|i e old]|]; try (cbn; lia).
    pose proof (labelAll_fresh (parseFragment (tagName e) html) (nextId p))
      as [Hle _].
    destruct (labelAll _ _). exact Hle.
Qed.

(** A swap brings into the document only elements that are new. *)
Lemma swap_adds_only_fresh (t : option nid) (s html : jsstring) (p : page)
  (x : nid) :
  NoDup (ids (allNodes p)) ->
  In x (ids (document (snd (applySwap t s html p)))) ->
  In x (ids (document p)) \/ (nextId p <= x)%N.
Proof.
  intros Hn. destruct t as [t|]; [|intros H; left; exact H].
  destruct (in_dec N.eq_dec t (ids (document p))) as [Hin|Hout].
  2:{ destruct (@applySwap_outside _ t s html p Hout) as [_ ->].
      intros H. now left. }
  destruct (position_of _ _ Hin) as (c & et & ks & Hdoc).
  pose proof (fun tag => labelAll_fresh (parseFragment tag html) (nextId p))
    as Hfresh.
  destruct (streq s "outerHTML") eqn:Es.
  - apply streq_eq in Es. subst s. destruct c as [l r|c i e l r].
    + rewrite (@applySwap_top _ p l r t et ks html Hdoc). intros H. now left.
    + change (applySwap (Some t) "outerHTML" html p)
        with (setOuterHTML t html p).
      rewrite (@setOuterHTML_below _ p c i e l r t et ks html Hdoc Hn).
      cbn [snd document withTrees]. rewrite in_plug. intros [H|H].
      * left. rewrite Hdoc, in_plug. now left.
      * right. apply (Hfresh (tagName e)) in H. lia.
  - unfold applySwap. rewrite Es.
    rewrite (@setInnerHTML_at _ p c t et ks html Hdoc Hn).
    cbn [snd document withTrees]. rewrite in_plug, ids_elem. cbn [In].
    intros [H|[<-|H]].
    + left. rewrite Hdoc, in_plug. now left.
    + now left.
    + right. apply (Hfresh (tagName et)) in H. lia.
Qed.

(** The page the [try] and [catch] blocks leave is the page of one
    swap. *)
Lemma attempt_page (r : pending) (o : outcome) (p : page) :
  exists html,
    snd (attempt r o p) = snd (applySwap (target r) (swap r) html p).
Proof.
  unfold attempt, tryBlock, catchBlock, throw.
  assert (Hswap : forall html,
             exists html',
               snd (match applySwap (target r) (swap r) html p with
                    | (Ok a, p1) => (Ok a, p1)
                    | (Throw e, p1) =>
                        applySwap (target r) (swap r) (warning e) p1
                    end)
               = snd (applySwap (target r) (swap r) html' p)).
  { intros html.
    destruct (applySwap_result (target r) (swap r) html p) as [Hf Hs].
    destruct (applySwap (target r) (swap r) html p) as [[[]|e] p1] eqn:E;
      cbn [fst snd] in *.
    - exists html. now rewrite E.
    - destruct (rejects (target r) (swap r) p); [|discriminate].
      rewrite (Hs eq_refl). now exists (warning e). }
  destruct o as [m|ok st [text|m]]; try (eexists; reflexivity).
  destruct (negb ok); apply Hswap.
Qed.

(** An element that is out of the document of a well-formed page stays
    out, whatever happens next. *)
Lemma stays_out (t : nid) (l : list input) (p : page) :
  wellFormed p -> ~ In t (ids (document p)) -> (t < nextId p)%N ->
  wellFormed (steps l p)
  /\ ~ In t (ids (document (steps l p)))
  /\ (t < nextId (steps l p))%N.
Proof.
  intros Hw Hout Hlt.
  set (I := fun q : page =>
              wellFormed q /\ ~ In t (ids (document q)) /\ (t < nextId q)%N).
  apply (@preserves_steps _ I); [|now split].
  apply preserves_step.
  - intros j q (Hq & Ho & Hl). split; [now apply sound_requestFor|].
    destruct (requestFor_effect j q) as [-> | (r & _ & ->)]; [now split|].
    cbn [snd document nextId withInflight].
    destruct (ids_started r q) as [-> ->]. now split.
  - intros k r o q _ (Hq & Ho & Hl).
    set (q0 := withInflight (firstn k (inflight q) ++ skipn (S k) (inflight q))
                            q).
    assert (Hq0 : wellFormed q0) by exact Hq.
    split; [now apply sound_requestForResume|].
    unfold run. rewrite resume_shape. cbn [snd].
    destruct (ids_finalizer r (snd (attempt r o q0))) as [-> ->].
    destruct (attempt_page r o q0) as [html ->].
    pose proof (nextId_applySwap (target r) (swap r) html q0) as Hnext.
    split.
    + intros Hin.
      apply (@swap_adds_only_fresh (target r) (swap r) html q0 t (proj1 Hq0))
        in Hin as [Hin|Hin]; [now apply Ho|].
      change (nextId q0) with (nextId q) in Hin. lia.
    + change (nextId q0) with (nextId q) in Hnext. lia.
  - intros q Hq. exact Hq.
  - intros i name v q (Hq & Ho & Hl). split; [now apply sound_update|].
    unfold setAttribute, modify. cbn [snd document nextId withTrees].
    rewrite ids_update. now split.
Qed.

(** X12: an [outerHTML] swap takes its target out of the document for
    good.  The script can still read the old element, but whatever
    happens next (firings, ticks, other requests settling, attributes
    set) the target stays out of the document, and every later
    response for that target is lost: its swap cannot throw and
    leaves the document as it is.  An element that polls and replaces
    itself shows the first response only. *)
Theorem replaced_target_takes_no_more_responses
  (p : page) (c : context) (i : nid) (e : element) (l r : list node)
  (t : nid) (et : element) (ks : list node) (html : jsstring) :
  document p = plug (Below c i e l r) [Elem t et ks] ->
  wellFormed p ->
  let p' := snd (applySwap (Some t) "outerHTML" html p) in
  lookup t (allNodes p') = Some et
  /\ forall (later : list input),
       ~ In t (ids (document (steps later p')))
       /\ forall (q : pending) (o : outcome),
            target q = Some t ->
            fst (attempt q o (steps later p')) = Ok tt
            /\ document (snd (attempt q o (steps later p')))
               = document (steps later p').
Proof.
  intros Hdoc Hw p'.
  assert (Hw' : wellFormed p') by (now apply sound_applySwap).
  assert (Hnext : (nextId p <= nextId p')%N) by apply nextId_applySwap.
  destruct Hw as [Hnd Hlt]. subst p'.
  change (applySwap (Some t) "outerHTML" html p)
    with (setOuterHTML t html p) in *.
  rewrite (@setOuterHTML_below _ p c i e l r t et ks html Hdoc Hnd) in *.
  cbn [snd] in *.
  destruct (@target_separate p _ t et ks Hdoc Hnd) as [Hctx Hdet].
  pose proof (labelAll_fresh (parseFragment (tagName e) html) (nextId p))
    as (Hle & Hnew & Hfresh).
  assert (Hin : In t (ids (allNodes p))).
  { unfold allNodes. rewrite Hdoc, ids_app, in_app_iff. left.
    apply hole_in_plug. rewrite ids_elem. now left. }
  apply Hlt in Hin.
  assert (Hgone : ~ In t (ids (plug (Below c i e l r)
                     (fst (labelAll (parseFragment (tagName e) html)
                                    (nextId p)))))).
  { rewrite in_plug. intros [H|H]; [tauto|]. apply Hfresh in H. lia. }
  split.
  - unfold lookup, lookupNode, allNodes. cbn [document detached withTrees].
    rewrite !flat_map_app.
    rewrite find_app_none
      by (apply find_absent with (t := t); [apply isElem_names | exact Hgone]).
    rewrite find_app_none
      by (apply find_absent with (t := t); [apply isElem_names | exact Hdet]).
    cbn [flat_map subtrees find isElem app]. now rewrite N.eqb_refl.
  - intros later.
    destruct (@stays_out t later _ Hw' Hgone) as (_ & Hout & _).
    { cbn [nextId withTrees] in *. lia. }
    split; [exact Hout|].
    intros q o Hq. now apply (@attempt_outside _ q o _ t Hq).
Qed.

End FiringFacts.

(* ================================================================= *)
(** ** Runs on the small browser *)

Module Runs.
Import TestBrowser.

Lemma final_url_appends_query_witness :
  finalUrlOf (js "/runs?page=2") [(js "q", js "a b")]
  = js "/runs?page=2&q=a+b"
  /\ finalUrlOf (js "/runs") [(js "q", js "a b"); (js "q", js "c")]
     = js "/runs?q=a+b&q=c".
Proof.
  split.
  - destruct (final_url_appends_query (js "/runs?page=2") (js "q", js "a b") [])
      as (_ & Hamp & _).
    rewrite Hamp; [reflexivity | simpl; tauto].
  - destruct (final_url_appends_query (js "/runs") (js "q", js "a b")
                [(js "q", js "c")]) as (_ & _ & Hq).
    rewrite Hq; [reflexivity|].
    simpl. intros Hin. repeat destruct Hin as [Hin|Hin]; try discriminate Hin.
    exact Hin.
Defined.

Lemma collect_skips_disabled_unchecked_nameless_witness :
  collectParams (Some (js "input")) formPage
  = (Ok [(js "q", js "rocq"); (js "k", js "yes")], formPage).
Proof.
  destruct (collect_skips_disabled_unchecked_nameless (js "input") formPage)
    as (_ & _ & Hc).
  rewrite Hc; [reflexivity | discriminate | reflexivity].
Defined.

(** C5 fails as stated: the control below is enabled, is no checkbox or
    radio button and has a [name] attribute, yet contributes nothing. *)
Lemma empty_name_contributes_nothing :
  matched (js "input") emptyNamePage
  = [control "text" [(js "name", js "")] false false "x"]
  /\ forallb (fun e => negb (disabled e) && negb (isToggle e)
                       && hasNameAttribute e)
             (matched (js "input") emptyNamePage) = true
  /\ collectParams (Some (js "input")) emptyNamePage = (Ok [], emptyNamePage).
Proof. repeat split; reflexivity. Qed.



(** C3 fails as stated: for a response that is not ok and has a body,
    the block swapped in holds the body and not the status text. *)
Lemma non_ok_response_renders_body_only :
  let o := Response false "Internal Server Error" (Ok (js "boom")) in
  tryBlock demoRequest o demoPage
  = applySwap (Some 6%N) "innerHTML" (warning "boom") demoPage
  /\ includes "Internal Server Error" (warning "boom") = false
  /\ lookupNode 6%N (document (run (requestForResume demoRequest o) demoPage))
     = Some (Elem 6%N (el "DIV" [(js "id", js "out")])
               [Elem 7%N (el "PARSED" [(js "source", warning "boom")]) []]).
Proof. repeat split; reflexivity. Qed.

Lemma demoPage_distinct : NoDup (ids (allNodes demoPage)).
Proof.
  change (NoDup [1; 2; 3; 4; 5; 6]%N).
  repeat constructor; simpl; intuition discriminate.
Qed.

Lemma swap_replaces_node_or_contents_witness :
  document (run (applySwap (Some 6%N) "outerHTML" "fresh") demoPage)
  = plug outContext [Text (js "fresh")]
  /\ document (run (applySwap (Some 6%N) "innerHTML" "fresh") demoPage)
     = plug outContext [Elem 6%N (el "DIV" [(js "id", js "out")])
                          [Text (js "fresh")]]
  /\ document (run (applySwap (Some 6%N) "beforeend" "fresh") demoPage)
     = plug outContext [Elem 6%N (el "DIV" [(js "id", js "out")])
                          [Text (js "fresh")]]
  /\ applySwap (Some 1%N) "outerHTML" "fresh" demoPage
     = (Throw noModificationAllowedMessage, demoPage)
  /\ (let once := run (applySwap (Some 6%N) "outerHTML" "fresh") demoPage in
      document (snd (applySwap (Some 6%N) "innerHTML" "again" once))
      = document once).
Proof.
  destruct swap_replaces_node_or_contents
    as (_ & _ & _ & Houter & Htop & Hinner & Hout).
  split; [|split; [|split; [|split]]].
  - destruct (Houter demoPage (Below (Top [] []) 1%N (el "HTML" []) [] [])
                2%N (el "BODY" [(js "hx-indicator", js "#spin")])
                [Elem 3%N (el "DIV" [(js "id", js "spin")]) [];
                 Elem 4%N (el "BUTTON" [(js "hx-get", js "/runs");
                                        (js "hx-target", js "#out");
                                        (js "hx-include", js "input");
                                        (js "hx-trigger", js "click, every 2s")])
                      [Text (js "Go")];
                 Elem 5%N (control "text" [(js "name", js "q")] false false "rocq")
                      []]
                [] 6%N (el "DIV" [(js "id", js "out")]) [Text (js "old")]
                (js "fresh") eq_refl demoPage_distinct) as [E _].
    unfold run. rewrite E. reflexivity.
  - destruct (Hinner demoPage outContext 6%N (el "DIV" [(js "id", js "out")])
                [Text (js "old")] (js "innerHTML") (js "fresh")
                ltac:(discriminate) eq_refl demoPage_distinct) as [E _].
    unfold run. rewrite E. reflexivity.
  - destruct (Hinner demoPage outContext 6%N (el "DIV" [(js "id", js "out")])
                [Text (js "old")] (js "beforeend") (js "fresh")
                ltac:(discriminate) eq_refl demoPage_distinct) as [E _].
    unfold run. rewrite E. reflexivity.
  - exact (Htop demoPage [] [] 1%N (el "HTML" []) _ (js "fresh") eq_refl).
  - intros once.
    assert (Hgone : ~ In 6%N (ids (document once)))
      by (vm_compute; intuition discriminate).
    exact (proj2 (Hout once 6%N (js "innerHTML") (js "again") Hgone)).
Defined.

(** C8 fails as stated: the targets below are not null, yet with the
    strategy ["outerHTML"] the first, the document element, is not
    replaced (the assignment throws and the page stays as it was), and
    the second, an element that an earlier swap took out of the
    document, is not replaced either: nothing changes at all. *)
Lemma replace_node_fails_on_root_and_detached :
  lookup 1%N (allNodes demoPage) = Some (el "HTML" [])
  /\ applySwap (Some 1%N) "outerHTML" "fresh" demoPage
     = (Throw noModificationAllowedMessage, demoPage)
  /\ (let once := run (applySwap (Some 6%N) "outerHTML" "one") demoPage in
      lookup 6%N (allNodes once) = Some (el "DIV" [(js "id", js "out")])
      /\ applySwap (Some 6%N) "outerHTML" "two" once = (Ok tt, once)).
Proof. repeat split; reflexivity. Qed.


Lemma attributes_read_at_firing_triggers_at_bind_witness :
  let bound := run boot demoPage in
  let first := step (Fire 4%N "click" true) bound in
  let changed := step (SetAttribute 4%N "hx-get" "/models") first in
  map url (requests first) = [js "/runs?q=rocq"]
  /\ map url (requests (step (Fire 4%N "click" true) changed))
     = [js "/runs?q=rocq"; js "/models?q=rocq"]
  /\ listeners changed = listeners bound.
Proof.
  intros bound first changed.
  destruct attributes_read_at_firing_triggers_at_bind
    as (_ & _ & _ & Hnext & _ & Hkeep).
  split; [vm_compute; reflexivity|]. split.
  - assert (Hvalid : forall s, In s (selectorsOf changed 4%N) -> s <> [] ->
                               selectorValid s = true).
    { intros s Hs _. vm_compute in Hs.
      destruct Hs as [<-|[<-|[<-|[]]]]; reflexivity. }
    destruct (Hnext 4%N (js "hx-get") (js "/models") first
                4%N (js "click") true (js "/models")
                ltac:(discriminate) eq_refl eq_refl ltac:(discriminate) Hvalid)
      as (r & params & _ & Hreq & _ & Hc & _ & Hpath & _).
    unfold changed. rewrite Hreq, (Hpath eq_refl).
    vm_compute in Hc. inversion Hc; subst params.
    vm_compute. reflexivity.
  - unfold changed, first.
    now rewrite (proj1 (Hkeep _ _)), (proj1 (Hkeep _ _)).
Defined.

(** The button of [demoPage] over two firings: the path is changed in
    between, and so is the trigger, which changes nothing. *)
Example second_firing_sees_new_attributes :
  let bound := run boot demoPage in
  let first := step (Fire 4%N "click" true) bound in
  let changed :=
    step (SetAttribute 4%N "hx-trigger" "keyup")
         (step (SetAttribute 4%N "hx-get" "/models") first) in
  let second := step (Fire 4%N "click" true) changed in
  listeners bound = [(4%N, js "click")]
  /\ timers bound = [(4%N, ofN 2000)]
  /\ map url (requests first) = [js "/runs?q=rocq"]
  /\ step (Fire 4%N "keyup" true) changed = changed
  /\ map url (requests second) = [js "/runs?q=rocq"; js "/models?q=rocq"].
Proof. repeat split; vm_compute; reflexivity. Qed.

(** Two firings of the same button in flight at once: both swap, both
    notify, and the block shows the response that arrived last. *)
Example last_response_wins :
  let bound := run boot demoPage in
  let both := step (Fire 4%N "click" true) (step (Fire 4%N "click" true) bound) in
  let settled :=
    step (Settle 0 (Response true "OK" (Ok (js "second"))))
         (step (Settle 0 (Response true "OK" (Ok (js "first")))) both) in
  List.length (inflight both) = 2%nat
  /\ lookupNode 6%N (document settled)
     = Some (Elem 6%N (el "DIV" [(js "id", js "out")]) [Text (js "second")])
  /\ List.length (events settled) = 2%nat
  /\ inflight settled = [].
Proof. repeat split; vm_compute; reflexivity. Qed.

(** A block that replaces itself leaves the document; its timer keeps
    firing for the detached element, whose later swaps change nothing
    in the document, and every firing still notifies. *)
Example polling_block_replaces_itself_once :
  let bound := run boot pollingPage in
  let once := step (Settle 0 (Response true "OK" (Ok (js "1"))))
                   (step (Tick 0) bound) in
  let twice := step (Settle 0 (Response true "OK" (Ok (js "2"))))
                    (step (Tick 0) once) in
  timers bound = [(3%N, ofN 1000)]
  /\ document once
     = [Elem 1%N (el "HTML" []) [Elem 2%N (el "BODY" []) [Text (js "1")]]]
  /\ document twice = document once
  /\ map url (requests twice) = [js "/tick"; js "/tick"]
  /\ List.length (events twice) = 2%nat.
Proof. repeat split; vm_compute; reflexivity. Qed.

(** The document element cannot be replaced: the assignment to
    [outerHTML] throws in the [try] block and again in the [catch]
    block, the [finally] block still runs, and the second exception is
    what the call ends with. *)
Example root_swap_throws_after_finalizer :
  let r := {| target := Some 1%N; swap := "outerHTML"; finalUrl := "/runs";
              indicator := Some 3%N |} in
  requestForResume r (Response true "OK" (Ok (js "fresh"))) demoPage
  = (Throw noModificationAllowedMessage,
     withEvents [afterRequest "get" "/runs" 2%N (document demoPage)] demoPage).
Proof. reflexivity. Qed.

(** A selector the browser rejects ends the call before the indicator
    is switched on and before anything is fetched. *)
Example rejected_selector_stops_before_request :
  requestForStart 4%N badIncludePage
  = (Throw (syntaxErrorMessage (js "((")), badIncludePage)
  /\ run (requestFor 4%N) badIncludePage = badIncludePage.
Proof. split; reflexivity. Qed.

(** *** Further runs *)

Lemma parse_is_stable_under_rejoining_witness :
  parseTriggers (Some (js "click,every 2s")) = [js "click"; js "every 2s"].
Proof.
  exact (parse_is_stable_under_rejoining (Some (js " click ,, every 2s "))
           ltac:(vm_compute; discriminate)).
Defined.

Lemma failed_start_changes_nothing_witness :
  run (requestFor 4%N) badIncludePage = badIncludePage.
Proof.
  assert (E : requestForStart 4%N badIncludePage
              = (Throw (js "not a valid selector: (("), badIncludePage))
    by (vm_compute; reflexivity).
  exact (proj1 (proj2 (failed_start_changes_nothing 4%N badIncludePage E))).
Defined.

Lemma issued_request_activates_indicator_witness :
  In 3%N (ids (document demoPage))
  /\ lookup 3%N (allNodes (started demoRequest demoPage))
     = Some (setClasses (addToken "htmx-request")
                        (el "DIV" [(js "id", js "spin")])).
Proof.
  assert (E : requestForStart 4%N demoPage
              = (Ok (Some demoRequest), started demoRequest demoPage))
    by (vm_compute; reflexivity).
  destruct (issued_request_activates_indicator 4%N demoPage E)
    as (_ & Hind & _).
  split; [exact (proj1 (Hind 3%N eq_refl)) | reflexivity].
Defined.

Lemma collected_names_are_nonempty_witness :
  Forall (fun nv : jsstring * jsstring => fst nv <> [])
         [(js "q", js "rocq"); (js "k", js "yes")]
  /\ List.length [(js "q", js "rocq"); (js "k", js "yes")]
     <= List.length (ids (document formPage)).
Proof.
  destruct (collected_names_are_nonempty (Some (js "input")) formPage)
    as [_ H].
  exact (H [(js "q", js "rocq"); (js "k", js "yes")] eq_refl).
Defined.

Lemma target_is_self_or_first_match_witness :
  exists pre post,
    ids (document demoPage) = pre ++ 6%N :: post
    /\ forallb (fun x => negb (selectorMatches "#out" (document demoPage) x))
               pre = true.
Proof.
  assert (E : resolveTarget 4%N demoPage = (Ok (Some 6%N), demoPage))
    by (vm_compute; reflexivity).
  destruct (target_is_self_or_first_match 4%N demoPage E)
    as [_ [[Hs _] | (sel & pre & post & Ha & _ & Hl & _ & Hp)]].
  - vm_compute in Hs. discriminate Hs.
  - vm_compute in Ha. inversion Ha; subst sel. exists pre, post.
    split; [exact Hl | exact Hp].
Defined.

Lemma swap_outside_document_is_lost_witness :
  let once := run (applySwap (Some 6%N) "outerHTML" "one") demoPage in
  let r := {| target := Some 6%N; swap := "innerHTML"; finalUrl := "/runs";
              indicator := Some 3%N |} in
  let o := Response true "OK" (Ok (js "two")) in
  lookup 6%N (allNodes once) = Some (el "DIV" [(js "id", js "out")])
  /\ fst (requestForResume r o once) = Ok tt
  /\ ids (document (run (requestForResume r o) once)) = ids (document once).
Proof.
  intros once r o.
  assert (Hout : ~ In 6%N (ids (document once)))
    by (vm_compute; intuition discriminate).
  destruct (@swap_outside_document_is_lost browser r o once 6%N eq_refl Hout)
    as (H1 & _ & H3).
  split; [reflexivity|]. split; [exact H1 | exact H3].
Defined.

Lemma completions_name_fetched_urls_witness :
  accounted (steps [Fire 4%N "click" true; Settle 0 (NetworkError "Failed to fetch")]
                   (run boot demoPage)).
Proof.
  apply completions_name_fetched_urls.
  split; intros x H; vm_compute in H; contradiction.
Defined.

Lemma completions_never_outnumber_requests_witness :
  balanced (steps [Fire 4%N "click" true; Tick 0;
                   Settle 1 (Response true "OK" (Ok (js "done")))]
                  (run boot demoPage)).
Proof.
  apply completions_never_outnumber_requests. vm_compute. constructor.
Defined.

Lemma pollingPage_wellFormed : wellFormed (run boot pollingPage).
Proof.
  split.
  - change (NoDup [1; 2; 3]%N). repeat constructor; simpl; intuition discriminate.
  - change (forall i, In i [1; 2; 3]%N -> (i < 4)%N).
    intros i H. repeat destruct H as [<-|H]; try reflexivity. destruct H.
Qed.

Lemma replaced_target_takes_no_more_responses_witness :
  let once := snd (applySwap (Some 3%N) "outerHTML" "1" (run boot pollingPage)) in
  let later := [Tick 0; Settle 0 (Response true "OK" (Ok (js "2")))] in
  let r := {| target := Some 3%N; swap := "outerHTML"; finalUrl := "/tick";
              indicator := None |} in
  inflight (steps [Tick 0] once) = [r]
  /\ ~ In 3%N (ids (document (steps later once)))
  /\ document (snd (attempt r (Response true "OK" (Ok (js "3")))
                            (steps later once)))
     = document (steps later once).
Proof.
  intros once later r.
  assert (Hdoc : document (run boot pollingPage)
                 = plug (Below (Below (Top [] []) 1%N (el "HTML" []) [] [])
                               2%N (el "BODY" []) [] [])
                        [Elem 3%N
                           (el "DIV" [(js "hx-get", js "/tick");
                                      (js "hx-swap", js "outerHTML");
                                      (js "hx-trigger", js "every 1s")])
                           [Text (js "0")]])
    by (vm_compute; reflexivity).
  destruct (@replaced_target_takes_no_more_responses browser _ _ _ _ _ _ _ _ _
              (js "1") Hdoc pollingPage_wellFormed)
    as (_ & Hlater).
  destruct (Hlater later) as (Hout & Hlost).
  split; [vm_compute; reflexivity|]. split; [exact Hout|].
  exact (proj2 (Hlost r (Response true "OK" (Ok (js "3"))) eq_refl)).
Defined.

Lemma boot_registers_in_tree_order_witness :
  fst (boot demoPage) = Ok tt
  /\ listeners (run boot demoPage) = [(4%N, js "click")].
Proof.
  destruct (@boot_registers_in_tree_order browser demoPage eq_refl)
    as (H1 & H2 & _).
  split; [exact H1 | rewrite H2; reflexivity].
Defined.

Lemma boot_runs_once_when_ready_witness :
  current (ready (main (withLoading true demoPage))) = run boot demoPage
  /\ bootDeferred (ready (main (withLoading true demoPage))) = false.
Proof.
  destruct (@boot_runs_once_when_ready browser (withLoading true demoPage)
              eq_refl)
    as (H1 & H2 & _).
  split; [exact H1 | exact H2].
Defined.

(** An element that names a trigger twice asks twice on one click. *)
Example doubled_trigger_requests_twice :
  let p := pageOf
             [Elem 1%N (el "HTML" [])
                [Elem 2%N (el "BODY" [])
                   [Elem 3%N (el "BUTTON" [(js "hx-get", js "/runs");
                                           (js "hx-trigger", js "click, click")])
                      []]]]
             4%N in
  map url (requests (step (Fire 3%N "click" true) (run boot p)))
  = [js "/runs"; js "/runs"].
Proof. reflexivity. Qed.

Lemma notification_carries_verb_and_path_witness :
  let fired := step (Fire 4%N "click" true) (run boot demoPage) in
  let o := Response true "OK" (Ok (js "done")) in
  requests fired
  = [{| url := "/runs?q=rocq"; headers := [(js "HX-Request", js "true")] |}]
  /\ exists doc,
       events (step (Settle 0 o) fired)
       = [{| eventType := "htmx:afterRequest";
             detail := {| requestConfig :=
                            {| verb := "get"; path := "/runs?q=rocq" |} |};
             eventTarget := 2%N;
             seen := doc |}]
       /\ bodyIn doc = Some 2%N.
Proof.
  intros fired o.
  destruct notification_carries_verb_and_path as (Hone & _ & Hreq & _).
  split.
  - assert (E : requestForStart 4%N (run boot demoPage)
                = (Ok (Some demoRequest),
                   started demoRequest (run boot demoPage)))
      by (vm_compute; reflexivity).
    exact (Hreq 4%N (run boot demoPage) _ demoRequest E).
  - assert (Hb : body (snd (attempt demoRequest o
                              (withInflight [] fired))) = Some 2%N)
      by (vm_compute; reflexivity).
    destruct (Hone demoRequest o (withInflight [] fired) 2%N Hb)
      as (doc & He & Hdoc).
    exists doc. split; [exact He | exact Hdoc].
Defined.

(** A click on a bound element inside a bound element reaches both:
    the inner element asks first, then the outer one; a click on an
    unbound child of a bound element asks for the parent. *)
Example click_bubbles_to_bound_ancestors :
  let p := run boot
             (pageOf
                [Elem 1%N (el "HTML" [])
                   [Elem 2%N (el "BODY" [])
                      [Elem 3%N (el "DIV" [(js "hx-get", js "/outer")])
                         [Elem 4%N (el "BUTTON" [(js "hx-get", js "/inner")]) [];
                          Elem 5%N (el "SPAN" []) []]]]]
                6%N) in
  map url (requests (step (Fire 4%N "click" true) p))
  = [js "/inner"; js "/outer"]
  /\ map url (requests (step (Fire 5%N "click" true) p)) = [js "/outer"]
  /\ map url (requests (step (Fire 4%N "click" false) p)) = [js "/inner"].
Proof. repeat split; reflexivity. Qed.

End Runs.
